(** * StatusChecker: reconciling a network file against the ledger

    A shallow embedding of [packages/cli/src/models/status/StatusChecker.js].
    The checker walks the deployment (version, package, provider, stdlib,
    implementations, proxies) and reports every discrepancy to a visitor.

    The instance [this] is threaded as explicit state; every ledger read,
    log line and visitor call is recorded in an effect trace; a rejected
    promise or a thrown exception ends the computation with an error. *)

From Stdlib Require Import String Ascii List ZArith Bool Arith Lia Permutation.
Import ListNotations.
Open Scope string_scope.

Set Implicit Arguments.

(** ** JavaScript values that reach the visitor *)

Inductive JsValue : Type :=
| JsUndefined
| JsString (s : string)
| JsNumber (n : nat)
| JsObject (props : list (string * string)).

(** [a === b] on the values compared by the checker (object literals are
    never compared; two distinct literals are never identical). *)
Definition strictEquals (a b : JsValue) : bool :=
  match a, b with
  | JsUndefined, JsUndefined => true
  | JsString s, JsString t => String.eqb s t
  | JsNumber n, JsNumber m => Nat.eqb n m
  | _, _ => false
  end.

(** A possibly [undefined] string property, as a value. *)
Definition ofOption (o : option string) : JsValue :=
  match o with
  | Some s => JsString s
  | None => JsUndefined
  end.

(** [${o}] inside a template literal. *)
Definition template (o : option string) : string :=
  match o with
  | Some s => s
  | None => "undefined"
  end.

(** [o || d]: the empty string is falsy, like [undefined]. *)
Definition orElse (o : option string) (d : string) : string :=
  match o with
  | Some "" => d
  | Some s => s
  | None => d
  end.

(** Thrown values: an error with its message and its [cause] property. *)
Inductive JsError : Type :=
| plainError (message : string)
| causedError (message : string) (cause : JsError).

Definition message (e : JsError) : string :=
  match e with
  | plainError m => m
  | causedError m _ => m
  end.

Definition cause (e : JsError) : option JsError :=
  match e with
  | plainError _ => None
  | causedError _ c => Some c
  end.

Definition mkError (msg : string) (c : option JsError) : JsError :=
  match c with
  | Some e => causedError msg e
  | None => plainError msg
  end.

(** [Error(message, options)]. The constructor reads [options.cause] when the
    options object has that property (ECMAScript 2022, InstallErrorCause);
    earlier editions ignore the second argument altogether, which is the same
    result whenever [options] has no [cause]. *)
Definition Error (msg : string) (options : JsError) : JsError :=
  mkError msg (cause options).

Definition TypeError (msg : string) : JsError := mkError msg None.

Definition result (A : Type) : Type := (JsError + A)%type.

(** ** Array methods used by the checker *)

(** [xs.lastIndexOf(x)], -1 when [x] does not occur. *)
Fixpoint lastIndexOf (xs : list string) (x : string) : Z :=
  match xs with
  | [] => (-1)%Z
  | y :: ys =>
      let later := lastIndexOf ys x in
      if (0 <=? later)%Z then (later + 1)%Z
      else if String.eqb y x then 0%Z else (-1)%Z
  end.

(** [xs.filter((x, index) => f(x, index))], the first index being [i]. *)
Fixpoint filterFrom {A : Type} (i : nat) (f : A -> nat -> bool) (xs : list A) : list A :=
  match xs with
  | [] => []
  | x :: rest =>
      if f x i then x :: filterFrom (S i) f rest else filterFrom (S i) f rest
  end.

Definition filterIndexed {A : Type} (f : A -> nat -> bool) (xs : list A) : list A :=
  filterFrom 0 f xs.

(** [xs.includes(x)] *)
Definition includes (xs : list string) (x : string) : bool :=
  existsb (String.eqb x) xs.

(** ** Data *)

Definition ZERO_ADDRESS : string := "0x0000000000000000000000000000000000000000".

(** A handle on a deployed contract (its events can be scanned). *)
Definition ContractHandle : Type := string.

Definition TxParams : Type := list (string * string).

(** [{ alias, address }]: one currently registered implementation. *)
Module Info.
Record t : Type := mk { alias : string; address : string }.
End Info.

(** [{ alias, address, implementation }]: a proxy, in the network file and
    in the list rebuilt from the ledger. *)
Module Proxy.
Record t : Type := mk { alias : string; address : string; implementation : string }.
End Proxy.

(** [networkFile.contract(alias)] *)
Module ContractEntry.
Record t : Type := mk { address : string; bodyBytecodeHash : string }.
End ContractEntry.

(** An event of the log; [args] holds the fields of both event types, of
    which [ImplementationChanged] carries [contractName] and
    [implementation], and [ProxyCreated] carries [proxy]. *)
Module Event.
Record Args : Type := mkArgs { contractName : string; implementation : string; proxy : string }.
Record t : Type := mk { args : Args }.
End Event.

Module Directory.
Record t : Type := mk { address : string; contract : ContractHandle }.
End Directory.

Module Package.
Record t : Type := mk { address : string }.
End Package.

(** The local descriptor, through the surface the checker consumes. String
    properties may be [undefined]. *)
Module NetworkFile.
Record t : Type := mk {
    isLib : bool;
    version : string;
    packageAddress : option string;
    appAddress : option string;
    providerAddress : option string;
    stdlibAddress : option string;
    hasContract : string -> bool;
    contract : string -> result ContractEntry.t;
    contractAliases : list string;
    proxiesList : list Proxy.t
  }.
End NetworkFile.

(** The deployment handle returned by [LibProject.fetch] and
    [AppProject.fetch]: two properties, and typed reads of the ledger. *)
Module Project.
Record t : Type := mk {
    version : string;
    package : Package.t;
    factory : ContractHandle;
    getProjectPackage : result Package.t;
    getCurrentDirectory : result Directory.t;
    currentStdlib : result string;
    getProxyImplementation : string -> result string
  }.
End Project.

(** What lies outside the checker: resolving a handle, scanning a log,
    reading code, hashing it, and the order in which reads issued together
    settle. *)
Module Ledger.
Record t : Type := mk {
    LibProject_fetch : option string -> string -> TxParams -> result Project.t;
    AppProject_fetch : option string -> TxParams -> result Project.t;
    EventsFilter_call : ContractHandle -> string -> result (list Event.t);
    getCode : string -> result string;
    bytecodeDigest : string -> string;
    settling : list nat
  }.
End Ledger.

(** A visitor receives a method name and its arguments; it may rewrite the
    network file it shares with the checker (the fetcher does; the
    comparator only records). *)
Definition Visitor : Type := string -> list JsValue -> NetworkFile.t -> NetworkFile.t.

(** The instance: the fields set by the constructor, and the cached
    [_project] ([None] while it is [undefined]). *)
Record StatusChecker : Type := mkStatusChecker {
  visitor : Visitor;
  txParams : TxParams;
  networkFile : NetworkFile.t;
  _project : option Project.t
}.

Definition constructor (v : Visitor) (nf : NetworkFile.t) (tx : TxParams) : StatusChecker :=
  {| visitor := v; txParams := tx; networkFile := nf; _project := None |}.

(** Modelled from the spec: [StatusComparator] is not in the sources. "On
    each hook, accumulates a human-readable discrepancy record (without
    mutating anything)": the network file is left as it is. *)
Definition StatusComparator : Visitor := fun _ _ nf => nf.

Definition compare (nf : NetworkFile.t) (tx : TxParams) : StatusChecker :=
  constructor StatusComparator nf tx.

(** ** Effects *)

Inductive LedgerRead : Type :=
| LibProjectFetch (packageAddress : option string) (version : string)
| AppProjectFetch (appAddress : option string)
| GetProjectPackage
| GetCurrentDirectory
| CurrentStdlib
| GetProxyImplementation (address : string)
| ScanEvents (contract : ContractHandle) (eventName : string)
| GetCode (address : string).

Inductive Effect : Type :=
| Read (r : LedgerRead)
| Log (line : string)
| Visit (method : string) (arguments : list JsValue).

Record Outcome (A : Type) : Type := mkOutcome {
  effects : list Effect;
  after : StatusChecker;
  completion : result A
}.

Definition M (A : Type) : Type := StatusChecker -> Outcome A.

Definition ret {A : Type} (a : A) : M A :=
  fun this => {| effects := []; after := this; completion := inr a |}.

Definition throw {A : Type} (e : JsError) : M A :=
  fun this => {| effects := []; after := this; completion := inl e |}.

Definition bind {A B : Type} (m : M A) (f : A -> M B) : M B :=
  fun this =>
    let o := m this in
    match completion o with
    | inl e => {| effects := effects o; after := after o; completion := inl e |}
    | inr a =>
        let o' := f a (after o) in
        {| effects := effects o ++ effects o'; after := after o'; completion := completion o' |}
    end.

(** [try { m } catch (error) { handler(error) }] *)
Definition tryCatch {A : Type} (m : M A) (handler : JsError -> M A) : M A :=
  fun this =>
    let o := m this in
    match completion o with
    | inl e =>
        let o' := handler e (after o) in
        {| effects := effects o ++ effects o'; after := after o'; completion := completion o' |}
    | inr a => o
    end.

Notation "x <- m ;; k" := (bind m (fun x => k))
  (at level 61, m at next level, right associativity).
Notation "m ;; k" := (bind m (fun _ => k))
  (at level 61, right associativity).

Definition getThis : M StatusChecker :=
  fun this => {| effects := []; after := this; completion := inr this |}.

Definition emit (e : Effect) : M unit :=
  fun this => {| effects := [e]; after := this; completion := inr tt |}.

(** A value that is already there, or the exception raised on the way to it. *)
Definition settled {A : Type} (r : result A) : M A :=
  match r with
  | inl e => throw e
  | inr a => ret a
  end.

(** Issue a read: the request goes out now, its promise settles later. *)
Definition launch {A : Type} (r : LedgerRead) (answer : result A) : M (result A) :=
  emit (Read r) ;; ret answer.

(** [await read]: issue the read and wait for it. *)
Definition await {A : Type} (r : LedgerRead) (answer : result A) : M A :=
  promise <- launch r answer ;; settled promise.

Definition log_info (line : string) : M unit := emit (Log line).

(** [this.visitor.method(...arguments)]: the call is observed, and the
    visitor acts on the network file. *)
Definition visit (method : string) (arguments : list JsValue) : M unit :=
  fun this =>
    {| effects := [Visit method arguments];
       after := {| visitor := visitor this;
                   txParams := txParams this;
                   networkFile := visitor this method arguments (networkFile this);
                   _project := _project this |};
       completion := inr tt |}.

(** [this._project = p] *)
Definition setProject (p : Project.t) : M unit :=
  fun this =>
    {| effects := [];
       after := {| visitor := visitor this;
                   txParams := txParams this;
                   networkFile := networkFile this;
                   _project := Some p |};
       completion := inr tt |}.

(** [this._project.member]: a [TypeError] while [_project] is [undefined]. *)
Definition theProject (member : string) : M Project.t :=
  this <- getThis ;;
  match _project this with
  | Some p => ret p
  | None => throw (TypeError ("Cannot read property '" ++ member ++ "' of undefined"))
  end.

(** [xs.forEach(f)] *)
Fixpoint forEach {A : Type} (f : A -> M unit) (xs : list A) : M unit :=
  match xs with
  | [] => ret tt
  | x :: rest => f x ;; forEach f rest
  end.

Fixpoint mapM {A B : Type} (f : A -> M B) (xs : list A) : M (list B) :=
  match xs with
  | [] => ret []
  | x :: rest => y <- f x ;; ys <- mapM f rest ;; ret (y :: ys)
  end.

Fixpoint foldM {A B : Type} (f : B -> A -> M A) (xs : list B) (acc : A) : M A :=
  match xs with
  | [] => ret acc
  | x :: rest => acc' <- f x acc ;; foldM f rest acc'
  end.

(** ** The order in which concurrent reads settle

    [settleOrder n picks pending] takes, [n] times, the pending task whose
    position is the next pick (modulo the number still pending; first in,
    first out once the picks are used up). Every list of picks gives an
    order, and every order is given by some list of picks. *)

Fixpoint removeNth {A : Type} (k : nat) (xs : list A) : list A :=
  match xs, k with
  | [], _ => []
  | _ :: rest, O => rest
  | x :: rest, S k' => x :: removeNth k' rest
  end.

Fixpoint settleOrder {A : Type} (n : nat) (picks : list nat) (pending : list A) : list A :=
  match n with
  | O => []
  | S n' =>
      let k := Nat.modulo (hd 0 picks) (length pending) in
      match nth_error pending k with
      | Some task => task :: settleOrder n' (tl picks) (removeNth k pending)
      | None => []
      end
  end.

(** ** The checker *)

Section Checker.

Variable ledger : Ledger.t.

Definition newline : string := String (ascii_of_nat 10) EmptyString.

(** [project()]: resolves the deployment handle unless [_project] holds one. *)
Definition project : M Project.t :=
  tryCatch
    (this <- getThis ;;
     match _project this with
     | None =>
         let nf := networkFile this in
         fetched <-
           (if NetworkFile.isLib nf
            then await (LibProjectFetch (NetworkFile.packageAddress nf) (NetworkFile.version nf))
                   (Ledger.LibProject_fetch ledger (NetworkFile.packageAddress nf)
                      (NetworkFile.version nf) (txParams this))
            else await (AppProjectFetch (NetworkFile.appAddress nf))
                   (Ledger.AppProject_fetch ledger (NetworkFile.appAddress nf) (txParams this))) ;;
         setProject fetched ;;
         ret fetched
     | Some cached => ret cached
     end)
    (fun error =>
       this <- getThis ;;
       throw (Error ("Cannot fetch project contract from address "
                       ++ template (NetworkFile.appAddress (networkFile this)) ++ ".")
                error)).

Definition checkVersion : M unit :=
  handle <- project ;;
  this <- getThis ;;
  let observed := Project.version handle in
  let expected := NetworkFile.version (networkFile this) in
  if negb (strictEquals (JsString observed) (JsString expected))
  then visit "onMismatchingVersion" [JsString expected; JsString observed]
  else ret tt.

Definition checkPackage : M unit :=
  handle <- theProject "package" ;;
  this <- getThis ;;
  let observed := Package.address (Project.package handle) in
  let expected := NetworkFile.packageAddress (networkFile this) in
  if negb (strictEquals (JsString observed) (ofOption expected))
  then visit "onMismatchingPackage" [ofOption expected; JsString observed]
  else ret tt.

Definition checkProvider : M unit :=
  handle <- theProject "getCurrentDirectory" ;;
  currentDirectory <- await GetCurrentDirectory (Project.getCurrentDirectory handle) ;;
  this <- getThis ;;
  let observed := Directory.address currentDirectory in
  let expected := NetworkFile.providerAddress (networkFile this) in
  if negb (strictEquals (JsString observed) (ofOption expected))
  then visit "onMismatchingProvider" [ofOption expected; JsString observed]
  else ret tt.

Definition checkStdlib : M unit :=
  handle <- project ;;
  currentStdlib <- await CurrentStdlib (Project.currentStdlib handle) ;;
  this <- getThis ;;
  let observed := if String.eqb currentStdlib ZERO_ADDRESS then "none" else currentStdlib in
  let expected := orElse (NetworkFile.stdlibAddress (networkFile this)) "none" in
  if negb (strictEquals (JsString observed) (JsString expected))
  then visit "onMismatchingStdlib" [JsString expected; JsString observed]
  else ret tt.

Definition _checkImplementationAddress (alias address : string) : M unit :=
  this <- getThis ;;
  entry <- settled (NetworkFile.contract (networkFile this) alias) ;;
  let expected := ContractEntry.address entry in
  if negb (strictEquals (JsString address) (JsString expected))
  then visit "onMismatchingContractAddress"
         [JsString expected; JsString address;
          JsObject [("alias", alias); ("address", address)]]
  else ret tt.

Definition _checkImplementationBytecode (alias address : string) : M unit :=
  this <- getThis ;;
  entry <- settled (NetworkFile.contract (networkFile this) alias) ;;
  let expected := ContractEntry.bodyBytecodeHash entry in
  code <- await (GetCode address) (Ledger.getCode ledger address) ;;
  let observed := Ledger.bytecodeDigest ledger code in
  if negb (strictEquals (JsString observed) (JsString expected))
  then visit "onMismatchingContractBodyBytecode"
         [JsString expected; JsString observed;
          JsObject [("alias", alias); ("address", address); ("bodyBytecodeHash", observed)]]
  else ret tt.

Definition _checkRemoteImplementation (info : Info.t) : M unit :=
  let alias := Info.alias info in
  let address := Info.address info in
  this <- getThis ;;
  if NetworkFile.hasContract (networkFile this) alias
  then _checkImplementationAddress alias address ;;
       _checkImplementationBytecode alias address
  else visit "onMissingRemoteContract"
         [JsString "none"; JsString "one";
          JsObject [("alias", alias); ("address", address)]].

Definition _checkUnregisteredLocalImplementations (implementationsInfo : list Info.t) : M unit :=
  let foundAliases := map Info.alias implementationsInfo in
  this <- getThis ;;
  forEach
    (fun alias =>
       this <- getThis ;;
       entry <- settled (NetworkFile.contract (networkFile this) alias) ;;
       let address := ContractEntry.address entry in
       visit "onUnregisteredLocalContract"
         [JsString "one"; JsString "none";
          JsObject [("alias", alias); ("address", address)]])
    (filter (fun alias => negb (includes foundAliases alias))
       (NetworkFile.contractAliases (networkFile this))).

Definition _checkProxyAlias (proxy : Proxy.t) (alias address implementation : string) : M unit :=
  let expected := Proxy.alias proxy in
  if negb (strictEquals (JsString alias) (JsString expected))
  then visit "onMismatchingProxyAlias"
         [JsString expected; JsString alias;
          JsObject [("alias", alias); ("address", address); ("implementation", implementation)]]
  else ret tt.

Definition _checkProxyImplementation (proxy : Proxy.t) (alias address implementation : string) : M unit :=
  let expected := Proxy.implementation proxy in
  if negb (strictEquals (JsString implementation) (JsString expected))
  then visit "onMismatchingProxyImplementation"
         [JsString expected; JsString implementation;
          JsObject [("alias", alias); ("address", address); ("implementation", implementation)]]
  else ret tt.

Definition _checkRemoteProxy (info : Proxy.t) : M unit :=
  let alias := Proxy.alias info in
  let address := Proxy.address info in
  let implementation := Proxy.implementation info in
  this <- getThis ;;
  match find (fun proxy => String.eqb (Proxy.address proxy) address)
          (NetworkFile.proxiesList (networkFile this)) with
  | Some matchingProxy =>
      _checkProxyAlias matchingProxy alias address implementation ;;
      _checkProxyImplementation matchingProxy alias address implementation
  | None =>
      visit "onMissingRemoteProxy"
        [JsString "none"; JsString "one";
         JsObject [("alias", alias); ("address", address); ("implementation", implementation)]]
  end.

Definition _checkUnregisteredLocalProxies (proxiesInfo : list Proxy.t) : M unit :=
  let foundAddresses := map Proxy.address proxiesInfo in
  this <- getThis ;;
  forEach
    (fun proxy =>
       visit "onUnregisteredLocalProxy"
         [JsString "one"; JsString "none";
          JsObject [("alias", Proxy.alias proxy); ("address", Proxy.address proxy);
                    ("implementation", Proxy.implementation proxy)]])
    (filter (fun proxy => negb (includes foundAddresses (Proxy.address proxy)))
       (NetworkFile.proxiesList (networkFile this))).

(** The pure part of [_fetchOnChainImplementations]: from the events, in
    the order of the log, to the implementations currently registered. *)
Definition currentImplementations (allEvents : list Event.t) : list Info.t :=
  let contractsAlias := map (fun event => Event.contractName (Event.args event)) allEvents in
  map (fun event => {| Info.alias := Event.contractName (Event.args event);
                       Info.address := Event.implementation (Event.args event) |})
    (filter (fun event => negb (String.eqb (Event.implementation (Event.args event)) ZERO_ADDRESS))
       (filterIndexed
          (fun event index =>
             Z.eqb (lastIndexOf contractsAlias (Event.contractName (Event.args event)))
               (Z.of_nat index))
          allEvents)).

Definition _fetchOnChainImplementations : M (list Info.t) :=
  handle <- theProject "getCurrentDirectory" ;;
  directory <- await GetCurrentDirectory (Project.getCurrentDirectory handle) ;;
  allEvents <- await (ScanEvents (Directory.contract directory) "ImplementationChanged")
                 (Ledger.EventsFilter_call ledger (Directory.contract directory)
                    "ImplementationChanged") ;;
  ret (currentImplementations allEvents).

(** The callback of the fan-out up to its [await]: the read goes out. *)
Definition requestImplementation (handle : Project.t) (event : Event.t)
  : M (string * result string) :=
  let address := Event.proxy (Event.args event) in
  promise <- launch (GetProxyImplementation address)
               (Project.getProxyImplementation handle address) ;;
  ret (address, promise).

(** The callback after its [await]: once the read has settled, the task
    matches the implementation and calls the visitor or pushes onto
    [proxiesInfo], the list it shares with the other tasks. *)
Definition resumeWithImplementation (implementationsInfo : list Info.t)
    (task : string * result string) (proxiesInfo : list Proxy.t) : M (list Proxy.t) :=
  let address := fst task in
  implementation <- settled (snd task) ;;
  let matchingImplementations :=
    filter (fun info => String.eqb (Info.address info) implementation) implementationsInfo in
  if Nat.ltb 1 (length matchingImplementations)
  then visit "onMultipleProxyImplementations"
         [JsString "one"; JsNumber (length matchingImplementations);
          JsObject [("implementation", implementation)]] ;;
       ret proxiesInfo
  else if Nat.eqb (length matchingImplementations) 0
  then visit "onUnregisteredProxyImplementation"
         [JsString "one"; JsString "none";
          JsObject [("address", address); ("implementation", implementation)]] ;;
       ret proxiesInfo
  else match nth_error matchingImplementations 0 with
       | Some first =>
           ret (proxiesInfo ++
                  [{| Proxy.alias := Info.alias first;
                      Proxy.address := address;
                      Proxy.implementation := implementation |}])%list
       | None => throw (TypeError "Cannot read property 'alias' of undefined")
       end.

(** [_fetchOnChainProxies]. [proxyEvents.map] starts every callback in the
    order of the events, so the reads go out in that order; the callbacks
    resume one at a time as their reads settle, in the order the ledger
    answers. [Promise.all] rejects with the first rejection, which ends
    the method (callbacks still pending then resume after the method has
    thrown, outside of what is recorded here). *)
Definition _fetchOnChainProxies : M (list Proxy.t) :=
  implementationsInfo <- _fetchOnChainImplementations ;;
  handle <- project ;;
  proxyEvents <- await (ScanEvents (Project.factory handle) "ProxyCreated")
                   (Ledger.EventsFilter_call ledger (Project.factory handle) "ProxyCreated") ;;
  tasks <- mapM (requestImplementation handle) proxyEvents ;;
  foldM (resumeWithImplementation implementationsInfo)
    (settleOrder (length tasks) (Ledger.settling ledger) tasks) [].

Definition checkImplementations : M unit :=
  implementationsInfo <- _fetchOnChainImplementations ;;
  forEach _checkRemoteImplementation implementationsInfo ;;
  _checkUnregisteredLocalImplementations implementationsInfo.

Definition checkProxies : M unit :=
  proxiesInfo <- _fetchOnChainProxies ;;
  forEach _checkRemoteProxy proxiesInfo ;;
  _checkUnregisteredLocalProxies proxiesInfo.

Definition checkApp : M unit :=
  checkVersion ;;
  checkPackage ;;
  checkProvider ;;
  checkStdlib ;;
  checkImplementations ;;
  checkProxies.

Definition checkLib : M unit :=
  checkProvider ;;
  checkImplementations.

Definition call : M unit :=
  handle <- project ;;
  projectPackage <- await GetProjectPackage (Project.getProjectPackage handle) ;;
  log_info ("Comparing status of project " ++ Package.address projectPackage ++ " ..." ++ newline) ;;
  this <- getThis ;;
  (if NetworkFile.isLib (networkFile this) then checkLib else checkApp) ;;
  visit "onEndChecking" [].

End Checker.

(** * Vocabulary of the properties *)

Open Scope list_scope.

(** ** Observing the visitor calls of a trace *)

(** [object.key] of a metadata object passed to the visitor. *)
Fixpoint property (key : string) (props : list (string * string)) : option string :=
  match props with
  | [] => None
  | (k, v) :: rest => if String.eqb k key then Some v else property key rest
  end.

(** Some argument of the call is an object whose [key] is [value]. *)
Definition about (key value : string) (arguments : list JsValue) : bool :=
  existsb
    (fun argument =>
       match argument with
       | JsObject props =>
           match property key props with
           | Some v => String.eqb v value
           | None => false
           end
       | _ => false
       end)
    arguments.

(** The effect is a call of [method] about the item whose [key] is [value]. *)
Definition isVisitAbout (method key value : string) (e : Effect) : bool :=
  match e with
  | Visit m arguments => String.eqb m method && about key value arguments
  | _ => false
  end.

Definition isVisit (e : Effect) : bool :=
  match e with
  | Visit _ _ => true
  | _ => false
  end.

Definition count {A : Type} (p : A -> bool) (xs : list A) : nat :=
  length (filter p xs).

(** ** The fan-out, task by task *)

(** What a task whose read answered [implementation] tells the visitor. *)
Definition taskVisits (implementationsInfo : list Info.t) (address implementation : string)
  : list Effect :=
  match filter (fun info => String.eqb (Info.address info) implementation)
          implementationsInfo with
  | [] =>
      [Visit "onUnregisteredProxyImplementation"
         [JsString "one"; JsString "none";
          JsObject [("address", address); ("implementation", implementation)]]]
  | [_] => []
  | matching =>
      [Visit "onMultipleProxyImplementations"
         [JsString "one"; JsNumber (length matching);
          JsObject [("implementation", implementation)]]]
  end.

(** What that task pushes onto [proxiesInfo]. *)
Definition taskPushes (implementationsInfo : list Info.t) (address implementation : string)
  : list Proxy.t :=
  match filter (fun info => String.eqb (Info.address info) implementation)
          implementationsInfo with
  | [first] =>
      [{| Proxy.alias := Info.alias first;
          Proxy.address := address;
          Proxy.implementation := implementation |}]
  | _ => []
  end.

Definition visitsOf (implementationsInfo : list Info.t) (task : string * result string)
  : list Effect :=
  match snd task with
  | inr implementation => taskVisits implementationsInfo (fst task) implementation
  | inl _ => []
  end.

Definition pushesOf (implementationsInfo : list Info.t) (task : string * result string)
  : list Proxy.t :=
  match snd task with
  | inr implementation => taskPushes implementationsInfo (fst task) implementation
  | inl _ => []
  end.

(** The tasks of the fan-out: every created proxy with the answer to the
    read of its implementation. *)
Definition tasksOf (handle : Project.t) (proxyEvents : list Event.t)
  : list (string * result string) :=
  map (fun event => (Event.proxy (Event.args event),
                     Project.getProxyImplementation handle (Event.proxy (Event.args event))))
    proxyEvents.

(** ** The methods of an instance *)

Inductive Method : Type :=
| project_
| call_
| checkApp_
| checkLib_
| checkVersion_
| checkPackage_
| checkProvider_
| checkStdlib_
| checkImplementations_
| checkProxies_
| checkRemoteImplementation_ (info : Info.t)
| checkImplementationAddress_ (alias address : string)
| checkImplementationBytecode_ (alias address : string)
| checkUnregisteredLocalImplementations_ (implementationsInfo : list Info.t)
| checkRemoteProxy_ (info : Proxy.t)
| checkProxyAlias_ (proxy : Proxy.t) (alias address implementation : string)
| checkProxyImplementation_ (proxy : Proxy.t) (alias address implementation : string)
| checkUnregisteredLocalProxies_ (proxiesInfo : list Proxy.t)
| fetchOnChainImplementations_
| fetchOnChainProxies_.

(** Calling a method and dropping what it returns. *)
Definition invoke (ledger : Ledger.t) (method : Method) : M unit :=
  match method with
  | project_ => project ledger ;; ret tt
  | call_ => call ledger
  | checkApp_ => checkApp ledger
  | checkLib_ => checkLib ledger
  | checkVersion_ => checkVersion ledger
  | checkPackage_ => checkPackage
  | checkProvider_ => checkProvider
  | checkStdlib_ => checkStdlib ledger
  | checkImplementations_ => checkImplementations ledger
  | checkProxies_ => checkProxies ledger
  | checkRemoteImplementation_ info => _checkRemoteImplementation ledger info
  | checkImplementationAddress_ alias address => _checkImplementationAddress alias address
  | checkImplementationBytecode_ alias address =>
      _checkImplementationBytecode ledger alias address
  | checkUnregisteredLocalImplementations_ implementationsInfo =>
      _checkUnregisteredLocalImplementations implementationsInfo
  | checkRemoteProxy_ info => _checkRemoteProxy info
  | checkProxyAlias_ proxy alias address implementation =>
      _checkProxyAlias proxy alias address implementation
  | checkProxyImplementation_ proxy alias address implementation =>
      _checkProxyImplementation proxy alias address implementation
  | checkUnregisteredLocalProxies_ proxiesInfo => _checkUnregisteredLocalProxies proxiesInfo
  | fetchOnChainImplementations_ => _fetchOnChainImplementations ledger ;; ret tt
  | fetchOnChainProxies_ => _fetchOnChainProxies ledger ;; ret tt
  end.

(** The instance after a series of method calls, each against the ledger
    as it is at the time of the call, whether they complete or throw. *)
Definition lifetime (calls : list (Ledger.t * Method)) (this : StatusChecker) : StatusChecker :=
  fold_left (fun this c => after (invoke (fst c) (snd c) this)) calls this.

(** ** The effects of a library run *)

(** The reads, log lines and visitor calls of the provider check and of the
    implementation check, and of the resolution of a library handle. *)
Definition libraryCheckEffect (e : Effect) : Prop :=
  match e with
  | Read (LibProjectFetch _ _) => True
  | Read GetProjectPackage => True
  | Read GetCurrentDirectory => True
  | Read (ScanEvents _ eventName) => eventName = "ImplementationChanged"
  | Read (GetCode _) => True
  | Read _ => False
  | Log _ => True
  | Visit method _ =>
      In method ["onMismatchingProvider"; "onMissingRemoteContract";
                 "onMismatchingContractAddress"; "onMismatchingContractBodyBytecode";
                 "onUnregisteredLocalContract"]
  end.

(** ** Reading the event history *)

(** The chronologically last event of the history that names [alias]. *)
Fixpoint lastEventFor (alias : string) (events : list Event.t) : option Event.t :=
  match events with
  | [] => None
  | event :: later =>
      match lastEventFor alias later with
      | Some last => Some last
      | None =>
          if String.eqb (Event.contractName (Event.args event)) alias
          then Some event else None
      end
  end.

(** Keeping, of every alias, the event after which the alias is not named
    again: what the filter on [lastIndexOf] computes. *)
Fixpoint keepLast (events : list Event.t) : list Event.t :=
  match events with
  | [] => []
  | event :: later =>
      if includes (map (fun e => Event.contractName (Event.args e)) later)
           (Event.contractName (Event.args event))
      then keepLast later
      else event :: keepLast later
  end.

(** ** The handle *)

(** The instance once [handle] has been stored in [_project]. *)
Definition withProject (this : StatusChecker) (handle : Project.t) : StatusChecker :=
  {| visitor := visitor this;
     txParams := txParams this;
     networkFile := networkFile this;
     _project := Some handle |}.

(** The read by which [project()] resolves the handle of [this]. *)
Definition fetchRead (this : StatusChecker) : LedgerRead :=
  let nf := networkFile this in
  if NetworkFile.isLib nf
  then LibProjectFetch (NetworkFile.packageAddress nf) (NetworkFile.version nf)
  else AppProjectFetch (NetworkFile.appAddress nf).

(** What the ledger answers to it. *)
Definition fetchAnswer (ledger : Ledger.t) (this : StatusChecker) : result Project.t :=
  let nf := networkFile this in
  if NetworkFile.isLib nf
  then Ledger.LibProject_fetch ledger (NetworkFile.packageAddress nf)
         (NetworkFile.version nf) (txParams this)
  else Ledger.AppProject_fetch ledger (NetworkFile.appAddress nf) (txParams this).

(** The instance holds [handle] in [_project]. *)
Definition hasProject (handle : Project.t) (this : StatusChecker) : Prop :=
  _project this = Some handle.

(** ** Invariants of the instance and of the trace *)

(** [behaves I P m]: running [m] keeps the invariant [I] of the instance and
    produces only effects allowed by [P], however it completes. *)
Definition behaves {A : Type} (I : StatusChecker -> Prop) (P : Effect -> Prop) (m : M A)
  : Prop :=
  forall this, I this -> I (after (m this)) /\ Forall P (effects (m this)).

(** An invariant that no allowed visitor call breaks, and that storing a
    handle in an empty [_project] does not break. *)
Definition stable (I : StatusChecker -> Prop) (P : Effect -> Prop) : Prop :=
  (forall this method arguments,
      I this -> P (Visit method arguments) -> I (after (visit method arguments this))) /\
  (forall this handle, I this -> _project this = None -> I (after (setProject handle this))).

(** [m] run from [this] produces effects allowed by [P] and, when it
    completes, ends with the end-of-run signal. *)
Definition endsChecking {A : Type} (P : Effect -> Prop) (m : M A) (this : StatusChecker) : Prop :=
  match completion (m this) with
  | inr _ =>
      exists checks,
        effects (m this) = checks ++ [Visit "onEndChecking" []] /\ Forall P checks
  | inl _ => Forall P (effects (m this))
  end.

(** ** Visitor calls about an item *)

(** The visitor call is not about the proxy at [address], unless it
    reports it as a local proxy that is not registered. *)
Definition spares (address : string) (e : Effect) : Prop :=
  match e with
  | Visit method arguments =>
      method = "onUnregisteredLocalProxy" \/
      (In method ["onMissingRemoteProxy"; "onMismatchingProxyAlias";
                  "onMismatchingProxyImplementation"] /\
       about "address" address arguments = false)
  | _ => True
  end.

(** The created proxy of the event currently runs [implementation]. *)
Definition runs (handle : Project.t) (implementation : string) (event : Event.t) : bool :=
  match Project.getProxyImplementation handle (Event.proxy (Event.args event)) with
  | inr current => String.eqb current implementation
  | inl _ => false
  end.

(** The visitor call is not about the contract named [alias]. *)
Definition notAbout (alias : string) (e : Effect) : Prop :=
  match e with
  | Visit _ arguments => about "alias" alias arguments = false
  | _ => True
  end.

(** The visitor call, if any, is [onUnregisteredLocalContract]. *)
Definition unregisteredLocalContract (e : Effect) : Prop :=
  match e with
  | Visit method _ => method = "onUnregisteredLocalContract"
  | _ => True
  end.

(** The instance still has the visitor [v], and its network file still has
    no contract named [alias]. *)
Definition stillUnknown (v : Visitor) (alias : string) (this : StatusChecker) : Prop :=
  visitor this = v /\ NetworkFile.hasContract (networkFile this) alias = false.

(** The effect is a call of [method]. *)
Definition isVisitOf (method : string) (e : Effect) : bool :=
  match e with
  | Visit m _ => String.eqb m method
  | _ => false
  end.

(** ** What the visitor does to the network file *)

(** The network file after the visitor calls of a trace, in their order. *)
Fixpoint replay (v : Visitor) (trace : list Effect) (nf : NetworkFile.t) : NetworkFile.t :=
  match trace with
  | [] => nf
  | Visit method arguments :: rest => replay v rest (v method arguments nf)
  | _ :: rest => replay v rest nf
  end.

(** Running [m] leaves the visitor and the transaction parameters of the
    instance alone, and changes its network file only by what the visitor
    does on the calls of the trace. *)
Definition writesThroughVisitor {A : Type} (m : M A) : Prop :=
  forall this,
    visitor (after (m this)) = visitor this /\
    txParams (after (m this)) = txParams this /\
    networkFile (after (m this)) = replay (visitor this) (effects (m this)) (networkFile this).

(** The visitor of the instance leaves the network file as it is, as the
    comparator does. *)
Definition recorder (this : StatusChecker) : Prop :=
  forall method arguments nf, visitor this method arguments nf = nf.

(** [reads], then what [o] does. *)
Definition afterReads {A : Type} (reads : list Effect) (o : Outcome A) : Outcome A :=
  {| effects := reads ++ effects o; after := after o; completion := completion o |}.

(** The effect is a call of one of the four hooks of the scalar checks. *)
Definition isScalarHook (e : Effect) : bool :=
  match e with
  | Visit method _ =>
      existsb (String.eqb method)
        ["onMismatchingVersion"; "onMismatchingPackage";
         "onMismatchingProvider"; "onMismatchingStdlib"]
  | _ => false
  end.

(** The effect is a visitor call about the item whose [key] is [value],
    whatever the method. *)
Definition isAbout (key value : string) (e : Effect) : bool :=
  match e with
  | Visit _ arguments => about key value arguments
  | _ => false
  end.

(** ** The implementation check, item by item *)

(** [checksEach check v nf xs trace]: [trace] is made of one part for each
    item of [xs], in their order, and each part is what [check] says of
    its item and of the network file as the visitor calls of the parts
    before it have left it. *)
Inductive checksEach {A : Type} (check : NetworkFile.t -> A -> list Effect -> Prop)
    (v : Visitor) : NetworkFile.t -> list A -> list Effect -> Prop :=
| checksEach_nil (nf : NetworkFile.t) : checksEach check v nf [] []
| checksEach_cons (nf : NetworkFile.t) (x : A) (rest : list A) (trace later : list Effect) :
    check nf x trace ->
    checksEach check v (replay v trace nf) rest later ->
    checksEach check v nf (x :: rest) (trace ++ later).

(** [trace] is a completed check of the reconciled entry [info] against
    the network file [nf]. For a contract the network file does not have,
    the call of [onMissingRemoteContract]. For one it has: the call of
    [onMismatchingContractAddress] if the addresses differ, the read of
    the code at the address of the entry, and the call of
    [onMismatchingContractBodyBytecode] if the digest of that code is not
    the hash the network file records once the visitor has seen the first
    call. *)
Definition checksRemoteImplementation (ledger : Ledger.t) (v : Visitor) (nf : NetworkFile.t)
    (info : Info.t) (trace : list Effect) : Prop :=
  let alias := Info.alias info in
  let address := Info.address info in
  if NetworkFile.hasContract nf alias
  then
    exists (entry later : ContractEntry.t) (code : string),
      NetworkFile.contract nf alias = inr entry /\
      let addressCalls :=
        if String.eqb address (ContractEntry.address entry) then []
        else [Visit "onMismatchingContractAddress"
                [JsString (ContractEntry.address entry); JsString address;
                 JsObject [("alias", alias); ("address", address)]]] in
      NetworkFile.contract (replay v addressCalls nf) alias = inr later /\
      Ledger.getCode ledger address = inr code /\
      let observed := Ledger.bytecodeDigest ledger code in
      trace =
        addressCalls
        ++ [Read (GetCode address)]
        ++ (if String.eqb observed (ContractEntry.bodyBytecodeHash later) then []
            else [Visit "onMismatchingContractBodyBytecode"
                    [JsString (ContractEntry.bodyBytecodeHash later); JsString observed;
                     JsObject [("alias", alias); ("address", address);
                               ("bodyBytecodeHash", observed)]]])
  else
    trace = [Visit "onMissingRemoteContract"
               [JsString "none"; JsString "one";
                JsObject [("alias", alias); ("address", address)]]].

(** [trace] is the report of the contract [alias] that only the network
    file [nf] has: the call of [onUnregisteredLocalContract] with the
    address it records. *)
Definition reportsLocalContract (nf : NetworkFile.t) (alias : string) (trace : list Effect)
  : Prop :=
  exists entry : ContractEntry.t,
    NetworkFile.contract nf alias = inr entry /\
    trace = [Visit "onUnregisteredLocalContract"
               [JsString "one"; JsString "none";
                JsObject [("alias", alias); ("address", ContractEntry.address entry)]]].

(** ** A deployment to run the checker on *)

Module Example.

Definition implementationChanged (contractName implementation : string) : Event.t :=
  {| Event.args := {| Event.contractName := contractName;
                      Event.implementation := implementation;
                      Event.proxy := "" |} |}.

Definition proxyCreated (proxy : string) : Event.t :=
  {| Event.args := {| Event.contractName := "";
                      Event.implementation := "";
                      Event.proxy := proxy |} |}.

(** Token is registered twice, Legacy is registered and then removed, Vault
    and Bank point at the same code. *)
Definition implementationEvents : list Event.t :=
  [implementationChanged "Token" "0xa1";
   implementationChanged "Vault" "0xb1";
   implementationChanged "Token" "0xa2";
   implementationChanged "Legacy" "0xc1";
   implementationChanged "Legacy" ZERO_ADDRESS;
   implementationChanged "Bank" "0xb1"].

Definition proxyEvents : list Event.t :=
  [proxyCreated "0xp1"; proxyCreated "0xp2"; proxyCreated "0xp3"; proxyCreated "0xp4"].

Definition directory : Directory.t :=
  {| Directory.address := "0xd1"; Directory.contract := "0xd1" |}.

(** The proxy at 0xp1 and the one at 0xp4 run Token, the one at 0xp2 runs
    the code shared by Vault and Bank, the one at 0xp3 runs code that is
    not registered. *)
Definition implementationOf (proxy : string) : result string :=
  if String.eqb proxy "0xp1" then inr "0xa2"
  else if String.eqb proxy "0xp2" then inr "0xb1"
  else if String.eqb proxy "0xp3" then inr "0xe9"
  else if String.eqb proxy "0xp4" then inr "0xa2"
  else inl (plainError "no proxy at this address").

Definition handle : Project.t :=
  {| Project.version := "1.0.0";
     Project.package := {| Package.address := "0xpk" |};
     Project.factory := "0xf1";
     Project.getProjectPackage := inr {| Package.address := "0xpk" |};
     Project.getCurrentDirectory := inr directory;
     Project.currentStdlib := inr ZERO_ADDRESS;
     Project.getProxyImplementation := implementationOf |}.

Definition scan (contract : ContractHandle) (eventName : string) : result (list Event.t) :=
  if String.eqb contract "0xd1" && String.eqb eventName "ImplementationChanged"
  then inr implementationEvents
  else if String.eqb contract "0xf1" && String.eqb eventName "ProxyCreated"
  then inr proxyEvents
  else inr [].

(** A ledger on which the deployment resolves to [deployed], and which
    answers concurrent reads in the order given by [picks]. *)
Definition ledgerOf (deployed : Project.t) (picks : list nat) : Ledger.t :=
  {| Ledger.LibProject_fetch := fun _ _ _ => inr deployed;
     Ledger.AppProject_fetch := fun _ _ => inr deployed;
     Ledger.EventsFilter_call := scan;
     Ledger.getCode := fun address => inr ("code at " ++ address)%string;
     Ledger.bytecodeDigest := fun code => ("digest of " ++ code)%string;
     Ledger.settling := picks |}.

Definition ledger (picks : list nat) : Ledger.t := ledgerOf handle picks.

Definition contracts (alias : string) : result ContractEntry.t :=
  if String.eqb alias "Token"
  then inr {| ContractEntry.address := "0xa1"; ContractEntry.bodyBytecodeHash := "h1" |}
  else inl (TypeError "Cannot read property 'address' of undefined").

(** The network file of an app that knows Token at its first address, and
    the proxies at 0xp1 and 0xp2. *)
Definition appFile : NetworkFile.t :=
  {| NetworkFile.isLib := false;
     NetworkFile.version := "1.0.0";
     NetworkFile.packageAddress := Some "0xpk";
     NetworkFile.appAddress := Some "0xapp";
     NetworkFile.providerAddress := Some "0xd1";
     NetworkFile.stdlibAddress := None;
     NetworkFile.hasContract := fun alias => String.eqb alias "Token";
     NetworkFile.contract := contracts;
     NetworkFile.contractAliases := ["Token"];
     NetworkFile.proxiesList :=
       [{| Proxy.alias := "Token"; Proxy.address := "0xp1"; Proxy.implementation := "0xa2" |};
        {| Proxy.alias := "Vault"; Proxy.address := "0xp2"; Proxy.implementation := "0xb1" |}] |}.

(** The network file of a library: a package address and no app address. *)
Definition libFile : NetworkFile.t :=
  {| NetworkFile.isLib := true;
     NetworkFile.version := "1.0.0";
     NetworkFile.packageAddress := Some "0xpk";
     NetworkFile.appAddress := None;
     NetworkFile.providerAddress := Some "0xd1";
     NetworkFile.stdlibAddress := None;
     NetworkFile.hasContract := fun alias => String.eqb alias "Token";
     NetworkFile.contract := contracts;
     NetworkFile.contractAliases := ["Token"];
     NetworkFile.proxiesList := [] |}.

(** A ledger with no contract at the package address. *)
Definition emptyLedger : Ledger.t :=
  {| Ledger.LibProject_fetch := fun _ _ _ => inl (plainError "no contract at 0xpk");
     Ledger.AppProject_fetch := fun _ _ => inl (plainError "no contract at 0xapp");
     Ledger.EventsFilter_call := scan;
     Ledger.getCode := fun address => inr ("code at " ++ address)%string;
     Ledger.bytecodeDigest := fun code => ("digest of " ++ code)%string;
     Ledger.settling := [] |}.

(** An app that records no provider, on a ledger whose directory is at the
    zero address. *)
Definition noProviderFile : NetworkFile.t :=
  {| NetworkFile.isLib := false;
     NetworkFile.version := "1.0.0";
     NetworkFile.packageAddress := Some "0xpk";
     NetworkFile.appAddress := Some "0xapp";
     NetworkFile.providerAddress := None;
     NetworkFile.stdlibAddress := None;
     NetworkFile.hasContract := fun _ => false;
     NetworkFile.contract := contracts;
     NetworkFile.contractAliases := [];
     NetworkFile.proxiesList := [] |}.

Definition noProviderHandle : Project.t :=
  {| Project.version := "1.0.0";
     Project.package := {| Package.address := "0xpk" |};
     Project.factory := "0xf1";
     Project.getProjectPackage := inr {| Package.address := "0xpk" |};
     Project.getCurrentDirectory :=
       inr {| Directory.address := ZERO_ADDRESS; Directory.contract := ZERO_ADDRESS |};
     Project.currentStdlib := inr ZERO_ADDRESS;
     Project.getProxyImplementation := implementationOf |}.

(** The same deployment when the read of the implementation of 0xp4 fails. *)
Definition failingHandle : Project.t :=
  {| Project.version := "1.0.0";
     Project.package := {| Package.address := "0xpk" |};
     Project.factory := "0xf1";
     Project.getProjectPackage := inr {| Package.address := "0xpk" |};
     Project.getCurrentDirectory := inr directory;
     Project.currentStdlib := inr ZERO_ADDRESS;
     Project.getProxyImplementation :=
       fun proxy => if String.eqb proxy "0xp4"
                    then inl (plainError "connection lost")
                    else implementationOf proxy |}.

Definition staleContracts (alias : string) : result ContractEntry.t :=
  if String.eqb alias "Old"
  then inr {| ContractEntry.address := "0xdd"; ContractEntry.bodyBytecodeHash := "h0" |}
  else contracts alias.

(** The network file of the app when it also knows Old, a contract the
    ledger has never registered, and a proxy at 0xp9 that was never created. *)
Definition staleFile : NetworkFile.t :=
  {| NetworkFile.isLib := false;
     NetworkFile.version := "1.0.0";
     NetworkFile.packageAddress := Some "0xpk";
     NetworkFile.appAddress := Some "0xapp";
     NetworkFile.providerAddress := Some "0xd1";
     NetworkFile.stdlibAddress := None;
     NetworkFile.hasContract := fun alias => String.eqb alias "Token" || String.eqb alias "Old";
     NetworkFile.contract := staleContracts;
     NetworkFile.contractAliases := ["Token"; "Old"];
     NetworkFile.proxiesList :=
       [{| Proxy.alias := "Token"; Proxy.address := "0xp1"; Proxy.implementation := "0xa2" |};
        {| Proxy.alias := "Vault"; Proxy.address := "0xp2"; Proxy.implementation := "0xb1" |};
        {| Proxy.alias := "Old"; Proxy.address := "0xp9"; Proxy.implementation := "0xdd" |}] |}.

(** A deployment with Token alone, registered twice, and its two proxies. *)
Definition tokenEvents : list Event.t :=
  [implementationChanged "Token" "0xa1"; implementationChanged "Token" "0xa2"].

Definition tokenProxies : list Event.t := [proxyCreated "0xp1"; proxyCreated "0xp4"].

Definition tokenLedger (picks : list nat) : Ledger.t :=
  {| Ledger.LibProject_fetch := fun _ _ _ => inr handle;
     Ledger.AppProject_fetch := fun _ _ => inr handle;
     Ledger.EventsFilter_call :=
       fun contract eventName =>
         if String.eqb contract "0xd1" && String.eqb eventName "ImplementationChanged"
         then inr tokenEvents
         else if String.eqb contract "0xf1" && String.eqb eventName "ProxyCreated"
         then inr tokenProxies
         else inr [];
     Ledger.getCode := fun address => inr ("code at " ++ address)%string;
     Ledger.bytecodeDigest := fun code => ("digest of " ++ code)%string;
     Ledger.settling := picks |}.

(** The network file that records that deployment as it is. *)
Definition tokenFile : NetworkFile.t :=
  {| NetworkFile.isLib := false;
     NetworkFile.version := "1.0.0";
     NetworkFile.packageAddress := Some "0xpk";
     NetworkFile.appAddress := Some "0xapp";
     NetworkFile.providerAddress := Some "0xd1";
     NetworkFile.stdlibAddress := None;
     NetworkFile.hasContract := fun alias => String.eqb alias "Token";
     NetworkFile.contract :=
       fun alias =>
         if String.eqb alias "Token"
         then inr {| ContractEntry.address := "0xa2";
                     ContractEntry.bodyBytecodeHash := "digest of code at 0xa2" |}
         else inl (TypeError "Cannot read property 'address' of undefined");
     NetworkFile.contractAliases := ["Token"];
     NetworkFile.proxiesList :=
       [{| Proxy.alias := "Token"; Proxy.address := "0xp1"; Proxy.implementation := "0xa2" |};
        {| Proxy.alias := "Token"; Proxy.address := "0xp4"; Proxy.implementation := "0xa2" |}] |}.

End Example.

(** * Properties *)

Abbreviation nameOf := (fun event : Event.t => Event.contractName (Event.args event)).

Section EventHistory.

Lemma includes_In (xs : list string) (x : string) :
  includes xs x = true <-> In x xs.
Proof.
  unfold includes. rewrite existsb_exists. split.
  - intros [y [Hy Heq]]. apply String.eqb_eq in Heq. now subst.
  - intros H. exists x. split; [assumption | apply String.eqb_refl].
Qed.

Lemma lastIndexOf_bounds (xs : list string) (x : string) :
  (-1 <= lastIndexOf xs x < Z.of_nat (length xs))%Z.
Proof.
  induction xs as [|y ys IH]; cbn [lastIndexOf length].
  - lia.
  - destruct (0 <=? lastIndexOf ys x)%Z eqn:E.
    + apply Z.leb_le in E. lia.
    + destruct (String.eqb y x); lia.
Qed.

Lemma lastIndexOf_found (xs : list string) (x : string) :
  (0 <= lastIndexOf xs x)%Z <-> In x xs.
Proof.
  induction xs as [|y ys IH]; cbn [lastIndexOf In].
  - split; [lia | tauto].
  - destruct (0 <=? lastIndexOf ys x)%Z eqn:E.
    + apply Z.leb_le in E. split; [intros _; right; now apply IH | lia].
    + apply Z.leb_gt in E. destruct (String.eqb_spec y x) as [->|Hne].
      * split; [now left | lia].
      * split; [lia | intros [H|H]; [contradiction | apply IH in H; lia]].
Qed.

Lemma lastIndexOf_app (pre suf : list string) (x : string) :
  lastIndexOf (pre ++ suf) x =
  if (0 <=? lastIndexOf suf x)%Z
  then (Z.of_nat (length pre) + lastIndexOf suf x)%Z
  else lastIndexOf pre x.
Proof.
  induction pre as [|y ys IH]; cbn [app lastIndexOf length].
  - destruct (0 <=? lastIndexOf suf x)%Z eqn:E; [lia|].
    apply Z.leb_gt in E. pose proof (lastIndexOf_bounds suf x). lia.
  - rewrite IH. destruct (0 <=? lastIndexOf suf x)%Z eqn:E.
    + apply Z.leb_le in E.
      replace (0 <=? Z.of_nat (length ys) + lastIndexOf suf x)%Z with true
        by (symmetry; apply Z.leb_le; lia).
      lia.
    + reflexivity.
Qed.

(** The filter on [lastIndexOf] keeps an event exactly when its alias is
    not named again later. *)
Lemma filterFrom_keepLast (earlier events : list Event.t) :
  filterFrom (length earlier)
    (fun event index =>
       Z.eqb (lastIndexOf (map nameOf (earlier ++ events)) (nameOf event)) (Z.of_nat index))
    events
  = keepLast events.
Proof.
  revert earlier. induction events as [|event later IH]; intros earlier.
  - reflexivity.
  - cbn [filterFrom keepLast].
    specialize (IH (earlier ++ [event])).
    rewrite <- app_assoc in IH. cbn [app] in IH.
    rewrite length_app in IH. cbn [length] in IH. rewrite Nat.add_1_r in IH.
    rewrite IH.
    rewrite map_app, lastIndexOf_app, length_map. cbn [map lastIndexOf].
    rewrite String.eqb_refl.
    destruct (includes (map nameOf later) (nameOf event)) eqn:Hin.
    + apply includes_In, lastIndexOf_found in Hin.
      replace (0 <=? lastIndexOf (map nameOf later) (nameOf event))%Z with true
        by (symmetry; apply Z.leb_le; lia).
      replace (0 <=? lastIndexOf (map nameOf later) (nameOf event) + 1)%Z with true
        by (symmetry; apply Z.leb_le; lia).
      replace (_ =? _)%Z with false; [reflexivity|].
      symmetry. apply Z.eqb_neq. lia.
    + assert (Hlt : (lastIndexOf (map nameOf later) (nameOf event) < 0)%Z).
      { destruct (Z.ltb_spec (lastIndexOf (map nameOf later) (nameOf event)) 0) as [H|H];
          [assumption|].
        apply lastIndexOf_found, includes_In in H. congruence. }
      replace (0 <=? lastIndexOf (map nameOf later) (nameOf event))%Z with false
        by (symmetry; apply Z.leb_gt; lia).
      cbn. rewrite Z.add_0_r, Z.eqb_refl. reflexivity.
Qed.

Lemma filterIndexed_keepLast (allEvents : list Event.t) :
  filterIndexed
    (fun event index =>
       Z.eqb (lastIndexOf (map nameOf allEvents) (nameOf event)) (Z.of_nat index))
    allEvents
  = keepLast allEvents.
Proof. exact (filterFrom_keepLast [] allEvents). Qed.

Lemma lastEventFor_named (alias : string) (events : list Event.t) (event : Event.t) :
  lastEventFor alias events = Some event -> nameOf event = alias.
Proof.
  induction events as [|e later IH]; cbn [lastEventFor]; [discriminate|].
  destruct (lastEventFor alias later) as [last|].
  - intros H. injection H as ->. now apply IH.
  - destruct (String.eqb_spec (nameOf e) alias); [|discriminate].
    intros H. now injection H as <-.
Qed.

Lemma lastEventFor_none (alias : string) (events : list Event.t) :
  lastEventFor alias events = None <-> ~ In alias (map nameOf events).
Proof.
  induction events as [|e later IH]; cbn [lastEventFor map In].
  - tauto.
  - destruct (lastEventFor alias later) as [last|] eqn:E.
    + split; [discriminate|]. intros H. exfalso. apply H. right.
      destruct (in_dec string_dec alias (map nameOf later)) as [Hin|Hout]; [assumption|].
      apply IH in Hout. discriminate.
    + destruct (String.eqb_spec (nameOf e) alias) as [Heq|Hne].
      * split; [discriminate | intros H; exfalso; apply H; now left].
      * split; [|reflexivity]. intros _ [H|H]; [contradiction|].
        revert H. now apply IH.
Qed.

Lemma keepLast_incl (events : list Event.t) (event : Event.t) :
  In event (keepLast events) -> In event events.
Proof.
  induction events as [|e later IH]; cbn [keepLast]; [tauto|].
  destruct (includes _ _); cbn [In]; tauto.
Qed.

Lemma keepLast_is_last (events : list Event.t) (event : Event.t) :
  In event (keepLast events) <-> lastEventFor (nameOf event) events = Some event.
Proof.
  induction events as [|e later IH]; cbn [keepLast lastEventFor].
  - split; [contradiction | discriminate].
  - destruct (includes (map nameOf later) (nameOf e)) eqn:Hin.
    + rewrite IH. destruct (lastEventFor (nameOf event) later) as [last|] eqn:E.
      * tauto.
      * split; [discriminate|].
        destruct (String.eqb_spec (nameOf e) (nameOf event)) as [Heq|Hne]; [|discriminate].
        apply lastEventFor_none in E. apply includes_In in Hin.
        rewrite Heq in Hin. contradiction.
    + cbn [In]. rewrite IH.
      assert (Hout : ~ In (nameOf e) (map nameOf later)).
      { intros H. apply includes_In in H. congruence. }
      destruct (lastEventFor (nameOf event) later) as [last|] eqn:E.
      * split; [|tauto]. intros [Heq|H]; [|assumption].
        subst e. apply lastEventFor_none in Hout. congruence.
      * destruct (String.eqb_spec (nameOf e) (nameOf event)) as [Heq|Hne].
        -- split; [intros [H|H]; [now subst | discriminate]|].
           intros H. left. now injection H.
        -- split; [intros [H|H]; [now subst | discriminate] | discriminate].
Qed.

Lemma keepLast_NoDup (events : list Event.t) :
  NoDup (map nameOf (keepLast events)).
Proof.
  induction events as [|e later IH]; cbn [keepLast].
  - constructor.
  - destruct (includes (map nameOf later) (nameOf e)) eqn:Hin; [assumption|].
    cbn [map]. constructor; [|assumption].
    intros H. apply in_map_iff in H as [e' [Heq He']].
    apply keepLast_incl in He'.
    assert (In (nameOf e) (map nameOf later)).
    { rewrite <- Heq. apply in_map_iff. now exists e'. }
    apply includes_In in H. congruence.
Qed.

Lemma NoDup_map_filter {A B : Type} (f : A -> B) (p : A -> bool) (xs : list A) :
  NoDup (map f xs) -> NoDup (map f (filter p xs)).
Proof.
  induction xs as [|x rest IH]; cbn [map filter]; [trivial|].
  intros H. inversion H as [|? ? Hout Hrest]; subst.
  destruct (p x); [|now apply IH].
  cbn [map]. constructor; [|now apply IH].
  intros Hin. apply Hout. apply in_map_iff in Hin as [y [Heq Hy]].
  apply filter_In in Hy as [Hy _]. apply in_map_iff. now exists y.
Qed.

Lemma currentImplementations_keepLast (allEvents : list Event.t) :
  currentImplementations allEvents =
  map (fun event => {| Info.alias := nameOf event;
                       Info.address := Event.implementation (Event.args event) |})
    (filter (fun event =>
               negb (String.eqb (Event.implementation (Event.args event)) ZERO_ADDRESS))
       (keepLast allEvents)).
Proof.
  unfold currentImplementations. now rewrite filterIndexed_keepLast.
Qed.

Lemma currentImplementations_aliases (allEvents : list Event.t) :
  NoDup (map Info.alias (currentImplementations allEvents)).
Proof.
  rewrite currentImplementations_keepLast, map_map. cbn [Info.alias].
  apply NoDup_map_filter, keepLast_NoDup.
Qed.

Lemma currentImplementations_In (allEvents : list Event.t) (alias address : string) :
  In {| Info.alias := alias; Info.address := address |} (currentImplementations allEvents) <->
  exists event,
    lastEventFor alias allEvents = Some event /\
    Event.implementation (Event.args event) = address /\
    address <> ZERO_ADDRESS.
Proof.
  rewrite currentImplementations_keepLast, in_map_iff. split.
  - intros [event [Heq Hin]]. injection Heq as Halias Haddress.
    apply filter_In in Hin as [Hlast Hnz].
    apply keepLast_is_last in Hlast. rewrite Halias in Hlast.
    exists event. repeat split; [assumption..|].
    apply negb_true_iff, String.eqb_neq in Hnz. congruence.
  - intros [event [Hlast [Haddress Hnz]]].
    pose proof (lastEventFor_named _ _ Hlast) as Hname.
    exists event. split; [now rewrite Hname, Haddress|].
    apply filter_In. split.
    + apply keepLast_is_last. now rewrite Hname.
    + apply negb_true_iff, String.eqb_neq. congruence.
Qed.

End EventHistory.

(** ** What [project()] does *)

Section ProjectHandle.

Variable ledger : Ledger.t.

Lemma project_cached (this : StatusChecker) (handle : Project.t) :
  _project this = Some handle ->
  project ledger this = {| effects := []; after := this; completion := inr handle |}.
Proof.
  intros H. unfold project, tryCatch, bind, getThis. cbn. rewrite H. reflexivity.
Qed.

Lemma project_fetched (this : StatusChecker) (handle : Project.t) :
  _project this = None ->
  fetchAnswer ledger this = inr handle ->
  project ledger this =
  {| effects := [Read (fetchRead this)];
     after := withProject this handle;
     completion := inr handle |}.
Proof.
  intros H Hfetch. unfold fetchAnswer in Hfetch. unfold fetchRead.
  unfold project, tryCatch, bind, getThis. cbn. rewrite H.
  destruct (NetworkFile.isLib (networkFile this)); cbn; rewrite Hfetch; reflexivity.
Qed.

Lemma project_failed (this : StatusChecker) (error : JsError) :
  _project this = None ->
  fetchAnswer ledger this = inl error ->
  project ledger this =
  {| effects := [Read (fetchRead this)];
     after := this;
     completion :=
       inl (Error ("Cannot fetch project contract from address "
                     ++ template (NetworkFile.appAddress (networkFile this)) ++ ".")%string
              error) |}.
Proof.
  intros H Hfetch. unfold fetchAnswer in Hfetch. unfold fetchRead.
  unfold project, tryCatch, bind, getThis. cbn. rewrite H.
  destruct (NetworkFile.isLib (networkFile this)); cbn; rewrite Hfetch; reflexivity.
Qed.

End ProjectHandle.

(** ** Invariants of the instance and of the trace *)

Section Behaviour.

Variable I : StatusChecker -> Prop.
Variable P : Effect -> Prop.

Lemma behaves_ret {A : Type} (a : A) : behaves I P (ret a).
Proof. intros this H. cbn. auto. Qed.

Lemma behaves_throw {A : Type} (e : JsError) : behaves I P (@throw A e).
Proof. intros this H. cbn. auto. Qed.

Lemma behaves_getThis : behaves I P getThis.
Proof. intros this H. cbn. auto. Qed.

Lemma behaves_settled {A : Type} (r : result A) : behaves I P (settled r).
Proof. destruct r; [apply behaves_throw | apply behaves_ret]. Qed.

Lemma behaves_emit (e : Effect) : P e -> behaves I P (emit e).
Proof. intros He this H. cbn. auto. Qed.

Lemma behaves_bind {A B : Type} (m : M A) (f : A -> M B) :
  behaves I P m -> (forall a, behaves I P (f a)) -> behaves I P (bind m f).
Proof.
  intros Hm Hf this H. unfold bind.
  destruct (Hm this H) as [HI HP].
  destruct (completion (m this)) as [e|a]; cbn.
  - auto.
  - destruct (Hf a _ HI) as [HI' HP']. split; [assumption|].
    apply Forall_app. auto.
Qed.

Lemma behaves_tryCatch {A : Type} (m : M A) (handler : JsError -> M A) :
  behaves I P m -> (forall e, behaves I P (handler e)) -> behaves I P (tryCatch m handler).
Proof.
  intros Hm Hh this H. unfold tryCatch.
  destruct (Hm this H) as [HI HP].
  destruct (completion (m this)) as [e|a]; cbn.
  - destruct (Hh e _ HI) as [HI' HP']. split; [assumption|].
    apply Forall_app. auto.
  - auto.
Qed.

Lemma behaves_launch {A : Type} (r : LedgerRead) (answer : result A) :
  P (Read r) -> behaves I P (launch r answer).
Proof.
  intros Hr. unfold launch. apply behaves_bind.
  - now apply behaves_emit.
  - intros _. apply behaves_ret.
Qed.

Lemma behaves_await {A : Type} (r : LedgerRead) (answer : result A) :
  P (Read r) -> behaves I P (await r answer).
Proof.
  intros Hr. unfold await. apply behaves_bind.
  - now apply behaves_launch.
  - intros promise. apply behaves_settled.
Qed.

Lemma behaves_log_info (line : string) : P (Log line) -> behaves I P (log_info line).
Proof. apply behaves_emit. Qed.

Lemma behaves_visit (method : string) (arguments : list JsValue) :
  stable I P -> P (Visit method arguments) -> behaves I P (visit method arguments).
Proof.
  intros [Hvisit _] Hp this H. split.
  - now apply Hvisit.
  - cbn. auto.
Qed.

Lemma behaves_theProject (member : string) : behaves I P (theProject member).
Proof.
  unfold theProject. apply behaves_bind; [apply behaves_getThis|].
  intros this. destruct (_project this); [apply behaves_ret | apply behaves_throw].
Qed.

Lemma behaves_forEach {A : Type} (f : A -> M unit) (xs : list A) :
  (forall x, In x xs -> behaves I P (f x)) -> behaves I P (forEach f xs).
Proof.
  induction xs as [|x rest IH]; intros Hf; cbn [forEach].
  - apply behaves_ret.
  - apply behaves_bind.
    + apply Hf. now left.
    + intros _. apply IH. intros y Hy. apply Hf. now right.
Qed.

Lemma behaves_mapM {A B : Type} (f : A -> M B) (xs : list A) :
  (forall x, In x xs -> behaves I P (f x)) -> behaves I P (mapM f xs).
Proof.
  induction xs as [|x rest IH]; intros Hf; cbn [mapM].
  - apply behaves_ret.
  - apply behaves_bind; [apply Hf; now left|].
    intros y. apply behaves_bind.
    + apply IH. intros z Hz. apply Hf. now right.
    + intros ys. apply behaves_ret.
Qed.

Lemma behaves_foldM {A B : Type} (f : B -> A -> M A) (xs : list B) (acc : A) :
  (forall x a, In x xs -> behaves I P (f x a)) -> behaves I P (foldM f xs acc).
Proof.
  revert acc. induction xs as [|x rest IH]; intros acc Hf; cbn [foldM].
  - apply behaves_ret.
  - apply behaves_bind; [apply Hf; now left|].
    intros acc'. apply IH. intros y a Hy. apply Hf. now right.
Qed.

(** [project()] only ever reads the ledger to resolve the handle, and only
    while none is cached. *)
Lemma behaves_project (ledger : Ledger.t) :
  stable I P ->
  (forall packageAddress version, P (Read (LibProjectFetch packageAddress version))) ->
  (forall appAddress, P (Read (AppProjectFetch appAddress))) ->
  behaves I P (project ledger).
Proof.
  intros [_ Hset] Hlib Happ this H.
  assert (Hread : P (Read (fetchRead this))).
  { unfold fetchRead. destruct (NetworkFile.isLib (networkFile this)); auto. }
  destruct (_project this) as [cached|] eqn:Hcache.
  - rewrite (project_cached ledger this Hcache). cbn. auto.
  - destruct (fetchAnswer ledger this) as [e|fetched] eqn:Hfetch.
    + rewrite (project_failed ledger this Hcache Hfetch). cbn. auto.
    + rewrite (project_fetched ledger this Hcache Hfetch). cbn. split; [|auto].
      now apply (Hset this fetched).
Qed.

End Behaviour.

Ltac behaviour :=
  repeat first
    [ apply behaves_ret
    | apply behaves_throw
    | apply behaves_getThis
    | apply behaves_settled
    | apply behaves_theProject
    | apply behaves_await
    | apply behaves_launch
    | apply behaves_log_info
    | apply behaves_emit
    | apply behaves_visit
    | apply behaves_project
    | apply behaves_forEach; intros ? _
    | apply behaves_mapM; intros ? _
    | apply behaves_foldM; intros ? ? _
    | apply behaves_bind; [|intro]
    | progress cbv zeta
    | match goal with
      | |- behaves _ _ (if ?b then _ else _) => destruct b
      | |- behaves _ _ (match ?x with _ => _ end) => destruct x
      end
    | assumption ].

(** ** Sequencing *)

Section Sequencing.

Context {A B : Type}.

Lemma bind_completed (m : M A) (f : A -> M B) (this : StatusChecker) (a : A) :
  completion (m this) = inr a ->
  bind m f this =
  {| effects := effects (m this) ++ effects (f a (after (m this)));
     after := after (f a (after (m this)));
     completion := completion (f a (after (m this))) |}.
Proof. intros H. unfold bind. rewrite H. reflexivity. Qed.

Lemma bind_aborted (m : M A) (f : A -> M B) (this : StatusChecker) (e : JsError) :
  completion (m this) = inl e ->
  bind m f this =
  {| effects := effects (m this); after := after (m this); completion := inl e |}.
Proof. intros H. unfold bind. rewrite H. reflexivity. Qed.

(** Two continuations that agree on what [m] hands them give the same run. *)
Lemma bind_same (m : M A) (f g : A -> M B) (this : StatusChecker) :
  (forall a, completion (m this) = inr a -> f a (after (m this)) = g a (after (m this))) ->
  bind m f this = bind m g this.
Proof.
  intros H. unfold bind. destruct (completion (m this)) as [e|a]; [reflexivity|].
  now rewrite (H a).
Qed.

End Sequencing.

(** [run_with H]: the first step of a sequence runs as the equation [H]
    says, and completes. *)
Ltac run_with H :=
  rewrite (bind_completed _ _ _ (f_equal (@completion _) H)), H;
  cbn [effects after completion].

(** ** The concurrent reads settle in some order of the tasks *)

Section Settling.

Context {A : Type}.

Lemma removeNth_length (k : nat) (xs : list A) :
  k < length xs -> length (removeNth k xs) = pred (length xs).
Proof.
  revert k. induction xs as [|x rest IH]; intros k Hk; cbn in *; [lia|].
  destruct k as [|k]; [reflexivity|].
  cbn. rewrite IH by lia. destruct rest; cbn in *; lia.
Qed.

Lemma removeNth_Permutation (k : nat) (xs : list A) (x : A) :
  nth_error xs k = Some x -> Permutation (x :: removeNth k xs) xs.
Proof.
  revert k. induction xs as [|y rest IH]; intros k Hk.
  - destruct k; discriminate.
  - destruct k as [|k]; cbn in *.
    + injection Hk as ->. reflexivity.
    + rewrite perm_swap. constructor. now apply IH.
Qed.

Lemma settleOrder_Permutation (picks : list nat) (pending : list A) :
  Permutation (settleOrder (length pending) picks pending) pending.
Proof.
  remember (length pending) as n eqn:Hn.
  revert picks pending Hn. induction n as [|n IH]; intros picks pending Hn.
  - destruct pending; [constructor | discriminate].
  - cbn [settleOrder].
    assert (Hk : Nat.modulo (hd 0 picks) (length pending) < length pending)
      by (apply Nat.mod_upper_bound; lia).
    destruct (nth_error pending _) as [task|] eqn:Hnth.
    + apply perm_trans with (task :: removeNth (Nat.modulo (hd 0 picks) (length pending)) pending).
      * constructor. apply IH. rewrite removeNth_length by assumption. lia.
      * now apply removeNth_Permutation.
    + apply nth_error_None in Hnth. lia.
Qed.

(** Without picks the tasks settle first in, first out. *)
Lemma settleOrder_fifo (pending : list A) :
  settleOrder (length pending) [] pending = pending.
Proof.
  induction pending as [|x rest IH]; [reflexivity|].
  cbn [length settleOrder hd tl]. rewrite Nat.Div0.mod_0_l. cbn.
  now rewrite IH.
Qed.

End Settling.

(** ** What the two fetches do *)

Section Fetches.

Variable ledger : Ledger.t.

Lemma theProject_cached (member : string) (this : StatusChecker) (handle : Project.t) :
  _project this = Some handle ->
  theProject member this = {| effects := []; after := this; completion := inr handle |}.
Proof. intros H. unfold theProject, bind, getThis. cbn. rewrite H. reflexivity. Qed.

Lemma fetchOnChainImplementations_run
    (this : StatusChecker) (handle : Project.t) (directory : Directory.t)
    (allEvents : list Event.t) :
  _project this = Some handle ->
  Project.getCurrentDirectory handle = inr directory ->
  Ledger.EventsFilter_call ledger (Directory.contract directory) "ImplementationChanged"
    = inr allEvents ->
  _fetchOnChainImplementations ledger this =
  {| effects := [Read GetCurrentDirectory;
                 Read (ScanEvents (Directory.contract directory) "ImplementationChanged")];
     after := this;
     completion := inr (currentImplementations allEvents) |}.
Proof.
  intros Hcache Hdir Hscan. unfold _fetchOnChainImplementations.
  run_with (theProject_cached "getCurrentDirectory" this Hcache).
  unfold await, launch, bind, emit, settled, ret. cbn.
  rewrite Hdir. cbn. rewrite Hscan. reflexivity.
Qed.

Lemma requestImplementation_run (handle : Project.t) (proxyEvents : list Event.t)
    (this : StatusChecker) :
  mapM (requestImplementation handle) proxyEvents this =
  {| effects := map (fun event => Read (GetProxyImplementation (Event.proxy (Event.args event))))
                  proxyEvents;
     after := this;
     completion := inr (tasksOf handle proxyEvents) |}.
Proof.
  induction proxyEvents as [|event rest IH]; [reflexivity|].
  cbn [mapM].
  assert (Hrequest :
    requestImplementation handle event this =
    {| effects := [Read (GetProxyImplementation (Event.proxy (Event.args event)))];
       after := this;
       completion := inr (Event.proxy (Event.args event),
                          Project.getProxyImplementation handle
                            (Event.proxy (Event.args event))) |})
    by reflexivity.
  run_with Hrequest. run_with IH. cbn. now rewrite app_nil_r.
Qed.

Lemma resumeWithImplementation_run (implementationsInfo : list Info.t)
    (address implementation : string) (proxiesInfo : list Proxy.t) (this : StatusChecker) :
  let resumed :=
    resumeWithImplementation implementationsInfo (address, inr implementation)
      proxiesInfo this in
  effects resumed = taskVisits implementationsInfo address implementation /\
  completion resumed =
    inr (proxiesInfo ++ taskPushes implementationsInfo address implementation).
Proof.
  intros resumed. subst resumed.
  unfold resumeWithImplementation, taskVisits, taskPushes. cbn [fst snd settled].
  assert (Hsettled : @ret string implementation this =
                     {| effects := []; after := this; completion := inr implementation |})
    by reflexivity.
  run_with Hsettled. cbv beta zeta.
  generalize (filter (fun info => String.eqb (Info.address info) implementation)
                implementationsInfo).
  intros [|first [|second more]]; cbn.
  - now rewrite app_nil_r.
  - auto.
  - now rewrite app_nil_r.
Qed.

Lemma resumeWithImplementation_fold (implementationsInfo : list Info.t)
    (order : list (string * result string)) :
  Forall (fun task => exists implementation, snd task = inr implementation) order ->
  forall (proxiesInfo : list Proxy.t) (this : StatusChecker),
    let joined := foldM (resumeWithImplementation implementationsInfo) order proxiesInfo this in
    effects joined = flat_map (visitsOf implementationsInfo) order /\
    completion joined = inr (proxiesInfo ++ flat_map (pushesOf implementationsInfo) order).
Proof.
  induction 1 as [|[address answer] rest [implementation Hanswer] Hrest IH];
    intros proxiesInfo this joined; subst joined.
  - cbn. now rewrite app_nil_r.
  - cbn [snd] in Hanswer. subst answer. cbn [foldM flat_map].
    destruct (resumeWithImplementation_run implementationsInfo address implementation
                proxiesInfo this) as [Hvisits Hpushes].
    rewrite (bind_completed _ _ _ Hpushes). cbn [effects completion].
    destruct (IH (proxiesInfo ++ taskPushes implementationsInfo address implementation)
                (after (resumeWithImplementation implementationsInfo
                          (address, inr implementation) proxiesInfo this)))
      as [Hvisits' Hpushes'].
    rewrite Hvisits, Hvisits', Hpushes'. unfold visitsOf at 2, pushesOf at 2. cbn [fst snd].
    now rewrite app_assoc.
Qed.

(** The fan-out of [_fetchOnChainProxies] when every read is answered: the
    reads go out in the order of the events, then the tasks resume in the
    order in which the ledger answers. *)
Lemma fetchOnChainProxies_run
    (this : StatusChecker) (handle : Project.t) (directory : Directory.t)
    (allEvents proxyEvents : list Event.t) :
  _project this = Some handle ->
  Project.getCurrentDirectory handle = inr directory ->
  Ledger.EventsFilter_call ledger (Directory.contract directory) "ImplementationChanged"
    = inr allEvents ->
  Ledger.EventsFilter_call ledger (Project.factory handle) "ProxyCreated" = inr proxyEvents ->
  Forall (fun task => exists implementation, snd task = inr implementation)
    (tasksOf handle proxyEvents) ->
  let implementationsInfo := currentImplementations allEvents in
  let order := settleOrder (length proxyEvents) (Ledger.settling ledger)
                 (tasksOf handle proxyEvents) in
  let fetched := _fetchOnChainProxies ledger this in
  effects fetched =
    [Read GetCurrentDirectory;
     Read (ScanEvents (Directory.contract directory) "ImplementationChanged");
     Read (ScanEvents (Project.factory handle) "ProxyCreated")]
    ++ map (fun event => Read (GetProxyImplementation (Event.proxy (Event.args event))))
         proxyEvents
    ++ flat_map (visitsOf implementationsInfo) order /\
  completion fetched = inr (flat_map (pushesOf implementationsInfo) order).
Proof.
  intros Hcache Hdir Himpl Hscan Hanswered implementationsInfo order fetched.
  subst fetched. unfold _fetchOnChainProxies.
  pose proof (fetchOnChainImplementations_run this Hcache Hdir Himpl) as Hfetch.
  run_with Hfetch. run_with (project_cached ledger this Hcache).
  assert (Hawait :
    await (ScanEvents (Project.factory handle) "ProxyCreated")
      (Ledger.EventsFilter_call ledger (Project.factory handle) "ProxyCreated") this
    = {| effects := [Read (ScanEvents (Project.factory handle) "ProxyCreated")];
         after := this; completion := inr proxyEvents |}).
  { unfold await, launch, bind, emit, settled, ret. cbn. rewrite Hscan. reflexivity. }
  run_with Hawait. run_with (requestImplementation_run handle proxyEvents this).
  assert (Hlen : length (tasksOf handle proxyEvents) = length proxyEvents)
    by (unfold tasksOf; apply length_map).
  rewrite Hlen. fold order.
  assert (Horder : Forall (fun task => exists implementation, snd task = inr implementation)
                     order).
  { apply Forall_forall. intros task Hin. rewrite Forall_forall in Hanswered.
    apply Hanswered. eapply Permutation_in; [|exact Hin].
    unfold order. rewrite <- Hlen. apply settleOrder_Permutation. }
  destruct (resumeWithImplementation_fold implementationsInfo Horder [] this) as [Hv Hp].
  fold implementationsInfo. rewrite Hv, Hp. split; reflexivity.
Qed.

End Fetches.

(** ** Reconstructing the current implementations *)

(** C1. Whatever the history of "implementation changed" events scanned,
    the set returned by [_fetchOnChainImplementations] has at most one
    entry per alias; an entry is in the set exactly when its address is
    that of the chronologically last event of its alias and is not the zero
    address; so an alias whose last event carries the zero address is not
    in the set. *)
Theorem fetchOnChainImplementations_last_event_wins
    (ledger : Ledger.t) (this : StatusChecker) (handle : Project.t)
    (directory : Directory.t) (allEvents : list Event.t) :
  _project this = Some handle ->
  Project.getCurrentDirectory handle = inr directory ->
  Ledger.EventsFilter_call ledger (Directory.contract directory) "ImplementationChanged"
    = inr allEvents ->
  exists implementationsInfo,
    completion (_fetchOnChainImplementations ledger this) = inr implementationsInfo /\
    NoDup (map Info.alias implementationsInfo) /\
    (forall alias address,
        In {| Info.alias := alias; Info.address := address |} implementationsInfo <->
        exists event,
          lastEventFor alias allEvents = Some event /\
          Event.implementation (Event.args event) = address /\
          address <> ZERO_ADDRESS) /\
    (forall alias event,
        lastEventFor alias allEvents = Some event ->
        Event.implementation (Event.args event) = ZERO_ADDRESS ->
        ~ In alias (map Info.alias implementationsInfo)).
Proof.
  intros Hcache Hdir Hscan.
  exists (currentImplementations allEvents).
  rewrite (fetchOnChainImplementations_run ledger this Hcache Hdir Hscan).
  split; [reflexivity|]. split; [apply currentImplementations_aliases|].
  split; [apply currentImplementations_In|].
  intros alias event Hlast Hzero Hin.
  apply in_map_iff in Hin as [[alias' address] [Halias Hin]].
  cbn in Halias. subst alias'.
  apply currentImplementations_In in Hin as [event' [Hlast' [Haddress Hnz]]].
  congruence.
Qed.

(** On the example history: Token keeps its second address, Legacy is gone. *)
Lemma fetchOnChainImplementations_last_event_wins_witness :
  exists implementationsInfo,
    completion (_fetchOnChainImplementations (Example.ledger [])
                  (withProject (compare Example.appFile []) Example.handle))
      = inr implementationsInfo /\
    NoDup (map Info.alias implementationsInfo) /\
    (forall alias address,
        In {| Info.alias := alias; Info.address := address |} implementationsInfo <->
        exists event,
          lastEventFor alias Example.implementationEvents = Some event /\
          Event.implementation (Event.args event) = address /\
          address <> ZERO_ADDRESS) /\
    (forall alias event,
        lastEventFor alias Example.implementationEvents = Some event ->
        Event.implementation (Event.args event) = ZERO_ADDRESS ->
        ~ In alias (map Info.alias implementationsInfo)).
Proof.
  apply (fetchOnChainImplementations_last_event_wins (Example.ledger [])
           (withProject (compare Example.appFile []) Example.handle)
           (handle := Example.handle) (directory := Example.directory));
    reflexivity.
Defined.

(** ** The scalar checks *)

Section ScalarChecks.

Variable ledger : Ledger.t.

(** A completed [project()] either found the handle cached or has just
    stored it; the network file is the same afterwards. *)
Lemma project_completed (this : StatusChecker) (handle : Project.t) :
  completion (project ledger this) = inr handle ->
  exists reads,
    project ledger this =
      {| effects := reads;
         after := withProject this handle;
         completion := inr handle |} /\
    filter isVisit reads = [].
Proof.
  intros H. destruct (_project this) as [cached|] eqn:Hcache.
  - rewrite (project_cached ledger this Hcache) in *. cbn in H. injection H as ->.
    exists []. split; [|reflexivity]. f_equal.
    destruct this. cbn in *. now subst.
  - destruct (fetchAnswer ledger this) as [e|fetched] eqn:Hfetch.
    + rewrite (project_failed ledger this Hcache Hfetch) in H. discriminate.
    + rewrite (project_fetched ledger this Hcache Hfetch) in *. cbn in H. injection H as ->.
      exists [Read (fetchRead this)]. split; reflexivity.
Qed.

Lemma checkStdlib_run (this : StatusChecker) (handle : Project.t) (currentStdlib : string) :
  completion (project ledger this) = inr handle ->
  Project.currentStdlib handle = inr currentStdlib ->
  let observed := if String.eqb currentStdlib ZERO_ADDRESS then "none" else currentStdlib in
  let expected := orElse (NetworkFile.stdlibAddress (networkFile this)) "none" in
  completion (checkStdlib ledger this) = inr tt /\
  filter isVisit (effects (checkStdlib ledger this)) =
    if String.eqb observed expected then []
    else [Visit "onMismatchingStdlib" [JsString expected; JsString observed]].
Proof.
  intros Hproject Hstdlib observed expected.
  destruct (project_completed this Hproject) as [reads [Hrun Hreads]].
  unfold checkStdlib. run_with Hrun.
  assert (Hawait :
    await CurrentStdlib (Project.currentStdlib handle) (withProject this handle) =
    {| effects := [Read CurrentStdlib]; after := withProject this handle;
       completion := inr currentStdlib |}).
  { unfold await, launch, bind, emit, settled, ret. cbn. rewrite Hstdlib. reflexivity. }
  run_with Hawait.
  assert (Hthis : getThis (withProject this handle) =
                  {| effects := []; after := withProject this handle;
                     completion := inr (withProject this handle) |}) by reflexivity.
  run_with Hthis. cbn [withProject networkFile strictEquals].
  fold observed. fold expected.
  destruct (String.eqb observed expected); cbn [negb ret visit effects completion].
  - rewrite !filter_app, Hreads. split; reflexivity.
  - rewrite !filter_app, Hreads. split; reflexivity.
Qed.

Lemma checkProvider_run (this : StatusChecker) (handle : Project.t) (directory : Directory.t) :
  _project this = Some handle ->
  Project.getCurrentDirectory handle = inr directory ->
  let observed := Directory.address directory in
  let expected := NetworkFile.providerAddress (networkFile this) in
  completion (checkProvider this) = inr tt /\
  effects (checkProvider this) =
    if strictEquals (JsString observed) (ofOption expected)
    then [Read GetCurrentDirectory]
    else [Read GetCurrentDirectory;
          Visit "onMismatchingProvider" [ofOption expected; JsString observed]].
Proof.
  intros Hcache Hdir observed expected. unfold checkProvider.
  run_with (theProject_cached "getCurrentDirectory" this Hcache).
  assert (Hawait :
    await GetCurrentDirectory (Project.getCurrentDirectory handle) this =
    {| effects := [Read GetCurrentDirectory]; after := this; completion := inr directory |}).
  { unfold await, launch, bind, emit, settled, ret. cbn. rewrite Hdir. reflexivity. }
  run_with Hawait.
  assert (Hthis : getThis this = {| effects := []; after := this; completion := inr this |})
    by reflexivity.
  run_with Hthis. fold observed. fold expected.
  destruct (strictEquals (JsString observed) (ofOption expected));
    cbn; split; reflexivity.
Qed.

End ScalarChecks.

(** C8. When the network file has no [stdlibAddress] and the ledger
    reports the zero address as the current stdlib, the stdlib check
    completes without calling the visitor. *)
Theorem checkStdlib_unset_and_zero
    (ledger : Ledger.t) (this : StatusChecker) (handle : Project.t) :
  completion (project ledger this) = inr handle ->
  Project.currentStdlib handle = inr ZERO_ADDRESS ->
  NetworkFile.stdlibAddress (networkFile this) = None ->
  completion (checkStdlib ledger this) = inr tt /\
  filter isVisit (effects (checkStdlib ledger this)) = [].
Proof.
  intros Hproject Hstdlib Hunset.
  destruct (checkStdlib_run ledger this Hproject Hstdlib) as [Hdone Hvisits].
  split; [assumption|]. rewrite Hvisits, Hunset. reflexivity.
Qed.

(** On the example app, which has no stdlib on either side. *)
Lemma checkStdlib_unset_and_zero_witness :
  completion (checkStdlib (Example.ledger []) (compare Example.appFile [])) = inr tt /\
  filter isVisit (effects (checkStdlib (Example.ledger []) (compare Example.appFile []))) = [].
Proof.
  apply (checkStdlib_unset_and_zero (Example.ledger []) (compare Example.appFile [])
           (handle := Example.handle));
    reflexivity.
Defined.

(** C3, as the code has it. The stdlib check turns a zero address read
    from the ledger into 'none', and an unset or empty [stdlibAddress] into
    'none': when the ledger reports the zero address, the visitor is not
    called exactly when the network file has no stdlib address (or has
    'none' itself). The provider check does not normalize: it compares the
    address of the directory and [providerAddress] as they are, the visitor
    is not called exactly when they are the same string, and a network file
    without provider address gets
    [onMismatchingProvider(undefined, address)] whatever the address,
    the zero address included. *)
Theorem stdlib_normalized_provider_verbatim
    (ledger : Ledger.t) (this : StatusChecker) (handle : Project.t) (directory : Directory.t) :
  _project this = Some handle ->
  Project.currentStdlib handle = inr ZERO_ADDRESS ->
  Project.getCurrentDirectory handle = inr directory ->
  (filter isVisit (effects (checkStdlib ledger this)) = [] <->
   In (NetworkFile.stdlibAddress (networkFile this)) [None; Some ""; Some "none"]) /\
  (filter isVisit (effects (checkProvider this)) = [] <->
   NetworkFile.providerAddress (networkFile this) = Some (Directory.address directory)) /\
  (NetworkFile.providerAddress (networkFile this) = None ->
   effects (checkProvider this) =
     [Read GetCurrentDirectory;
      Visit "onMismatchingProvider" [JsUndefined; JsString (Directory.address directory)]]).
Proof.
  intros Hcache Hstdlib Hdir.
  assert (Hproject : completion (project ledger this) = inr handle)
    by now rewrite (project_cached ledger this Hcache).
  destruct (checkStdlib_run ledger this Hproject Hstdlib) as [_ Hvisits].
  destruct (checkProvider_run this Hcache Hdir) as [_ Heffects].
  rewrite Hvisits, Heffects. clear Hvisits Heffects.
  rewrite String.eqb_refl.
  split; [|split].
  - destruct (NetworkFile.stdlibAddress (networkFile this)) as [[|c s]|]; cbn [orElse].
    + cbn. split; [intros _; right; now left | reflexivity].
    + destruct (String.eqb_spec "none" (String c s)) as [Heq|Hne].
      * split; [intros _; right; right; left; congruence | reflexivity].
      * split; [discriminate|].
        intros [H|[H|[H|[]]]]; try discriminate. congruence.
    + cbn. split; [intros _; now left | reflexivity].
  - destruct (NetworkFile.providerAddress (networkFile this)) as [expected|];
      cbn [ofOption strictEquals].
    + destruct (String.eqb_spec (Directory.address directory) expected) as [Heq|Hne].
      * split; [intros _; congruence | reflexivity].
      * split; [discriminate | congruence].
    + split; discriminate.
  - intros Hnone. rewrite Hnone. reflexivity.
Qed.

(** On the example app, once its handle is resolved. *)
Lemma stdlib_normalized_provider_verbatim_witness :
  let this := withProject (compare Example.appFile []) Example.handle in
  (filter isVisit (effects (checkStdlib (Example.ledger []) this)) = [] <->
   In (NetworkFile.stdlibAddress (networkFile this)) [None; Some ""; Some "none"]) /\
  (filter isVisit (effects (checkProvider this)) = [] <->
   NetworkFile.providerAddress (networkFile this)
     = Some (Directory.address Example.directory)) /\
  (NetworkFile.providerAddress (networkFile this) = None ->
   effects (checkProvider this) =
     [Read GetCurrentDirectory;
      Visit "onMismatchingProvider"
        [JsUndefined; JsString (Directory.address Example.directory)]]).
Proof.
  apply (stdlib_normalized_provider_verbatim (Example.ledger [])
           (withProject (compare Example.appFile []) Example.handle)
           (handle := Example.handle) (directory := Example.directory));
    reflexivity.
Defined.

(** C3 as stated fails for the provider: the network file records no
    provider address, the ledger reports the zero address for the directory,
    and [checkProvider] calls [onMismatchingProvider]. *)
Lemma checkProvider_zero_is_a_mismatch :
  let this := after (project (Example.ledgerOf Example.noProviderHandle [])
                       (compare Example.noProviderFile [])) in
  NetworkFile.providerAddress (networkFile this) = None /\
  option_map Project.getCurrentDirectory (_project this)
    = Some (inr {| Directory.address := ZERO_ADDRESS; Directory.contract := ZERO_ADDRESS |}) /\
  effects (checkProvider this) =
    [Read GetCurrentDirectory;
     Visit "onMismatchingProvider" [JsUndefined; JsString ZERO_ADDRESS]].
Proof. repeat split; reflexivity. Qed.

(** ** Resolving the deployment handle *)

(** When the handle cannot be resolved, [call()] stops there: it has issued
    the one read, called nothing on the visitor, and throws the error built
    by [project()]. *)
Lemma call_aborts_when_project_fails
    (ledger : Ledger.t) (this : StatusChecker) (error : JsError) :
  _project this = None ->
  fetchAnswer ledger this = inl error ->
  call ledger this =
  {| effects := [Read (fetchRead this)];
     after := this;
     completion :=
       inl (Error ("Cannot fetch project contract from address "
                     ++ template (NetworkFile.appAddress (networkFile this)) ++ ".")%string
              error) |}.
Proof.
  intros Hcache Hfetch. unfold call.
  rewrite (bind_aborted _ _ _ (f_equal (@completion _) (project_failed ledger this Hcache Hfetch))).
  now rewrite (project_failed ledger this Hcache Hfetch).
Qed.

(** C5, on a library whose package address holds no contract. The run stops
    before any visitor call, as claimed; but the error it throws names
    [appAddress], which a library does not have, instead of the package
    address that was looked up, and does not carry the original error. *)
Theorem call_library_without_contract :
  let this := compare Example.libFile [] in
  NetworkFile.isLib (networkFile this) = true /\
  NetworkFile.packageAddress (networkFile this) = Some "0xpk" /\
  fetchAnswer Example.emptyLedger this = inl (plainError "no contract at 0xpk") /\
  call Example.emptyLedger this =
  {| effects := [Read (LibProjectFetch (Some "0xpk") "1.0.0")];
     after := this;
     completion :=
       inl (plainError "Cannot fetch project contract from address undefined.") |}.
Proof. repeat split; reflexivity. Qed.

Lemma hasProject_stable (handle : Project.t) :
  stable (hasProject handle) (fun _ => True).
Proof.
  split.
  - intros this method arguments H _. exact H.
  - intros this fetched H Hnone. unfold hasProject in H. congruence.
Qed.

(** No method of the instance replaces a cached handle. *)
Lemma invoke_keeps_project (ledger : Ledger.t) (handle : Project.t) (method : Method) :
  behaves (hasProject handle) (fun _ => True) (invoke ledger method).
Proof.
  pose proof (hasProject_stable handle) as Hstable.
  destruct method; cbn [invoke];
    unfold call, checkApp, checkLib, checkProxies, checkImplementations,
      checkVersion, checkPackage, checkProvider, checkStdlib,
      _fetchOnChainProxies, _fetchOnChainImplementations,
      _checkUnregisteredLocalProxies, _checkRemoteProxy,
      _checkProxyAlias, _checkProxyImplementation,
      _checkUnregisteredLocalImplementations, _checkRemoteImplementation,
      _checkImplementationAddress, _checkImplementationBytecode,
      requestImplementation, resumeWithImplementation;
    behaviour; auto.
Qed.

Lemma lifetime_keeps_project (handle : Project.t) (calls : list (Ledger.t * Method))
    (this : StatusChecker) :
  _project this = Some handle -> _project (lifetime calls this) = Some handle.
Proof.
  revert this. induction calls as [|[ledger method] rest IH]; intros this H; [exact H|].
  cbn [lifetime fold_left fst snd]. apply IH.
  exact (proj1 (@invoke_keeps_project ledger handle method this H)).
Qed.

Lemma fetchOnChainImplementations_reads
    (ledger : Ledger.t) (this : StatusChecker) (handle : Project.t) (directory : Directory.t) :
  _project this = Some handle ->
  Project.getCurrentDirectory handle = inr directory ->
  effects (_fetchOnChainImplementations ledger this) =
    [Read GetCurrentDirectory;
     Read (ScanEvents (Directory.contract directory) "ImplementationChanged")].
Proof.
  intros Hcache Hdir. unfold _fetchOnChainImplementations.
  run_with (theProject_cached "getCurrentDirectory" this Hcache).
  unfold await, launch, bind, emit, settled, ret. cbn.
  rewrite Hdir. cbn.
  destruct (Ledger.EventsFilter_call ledger _ _); reflexivity.
Qed.

(** The reads of the fan-out go out whatever they are answered. *)
Lemma fetchOnChainProxies_reads
    (ledger : Ledger.t) (this : StatusChecker) (handle : Project.t) (directory : Directory.t)
    (allEvents proxyEvents : list Event.t) :
  _project this = Some handle ->
  Project.getCurrentDirectory handle = inr directory ->
  Ledger.EventsFilter_call ledger (Directory.contract directory) "ImplementationChanged"
    = inr allEvents ->
  Ledger.EventsFilter_call ledger (Project.factory handle) "ProxyCreated" = inr proxyEvents ->
  exists resumed,
    effects (_fetchOnChainProxies ledger this) =
      [Read GetCurrentDirectory;
       Read (ScanEvents (Directory.contract directory) "ImplementationChanged");
       Read (ScanEvents (Project.factory handle) "ProxyCreated")]
      ++ map (fun event => Read (GetProxyImplementation (Event.proxy (Event.args event))))
           proxyEvents
      ++ resumed.
Proof.
  intros Hcache Hdir Himpl Hscan. unfold _fetchOnChainProxies.
  run_with (fetchOnChainImplementations_run ledger this Hcache Hdir Himpl).
  run_with (project_cached ledger this Hcache).
  assert (Hawait :
    await (ScanEvents (Project.factory handle) "ProxyCreated")
      (Ledger.EventsFilter_call ledger (Project.factory handle) "ProxyCreated") this
    = {| effects := [Read (ScanEvents (Project.factory handle) "ProxyCreated")];
         after := this; completion := inr proxyEvents |}).
  { unfold await, launch, bind, emit, settled, ret. cbn. rewrite Hscan. reflexivity. }
  run_with Hawait. run_with (requestImplementation_run handle proxyEvents this).
  eexists. reflexivity.
Qed.

(** C10. Once [project()] has completed, every later [project()] call on
    the instance, after any calls of its methods against any ledgers,
    returns that same handle without reading the ledger and leaves the
    instance as it is; while fetching the implementations scans the event
    log again, and fetching the proxies reads the implementation of every
    created proxy again. *)
Theorem project_resolved_once
    (ledger : Ledger.t) (this : StatusChecker) (handle : Project.t) :
  completion (project ledger this) = inr handle ->
  forall (calls : list (Ledger.t * Method)) (ledger' : Ledger.t),
    let later := lifetime calls (after (project ledger this)) in
    project ledger' later = {| effects := []; after := later; completion := inr handle |} /\
    (forall directory,
        Project.getCurrentDirectory handle = inr directory ->
        In (Read (ScanEvents (Directory.contract directory) "ImplementationChanged"))
          (effects (_fetchOnChainImplementations ledger' later))) /\
    (forall directory allEvents proxyEvents event,
        Project.getCurrentDirectory handle = inr directory ->
        Ledger.EventsFilter_call ledger' (Directory.contract directory) "ImplementationChanged"
          = inr allEvents ->
        Ledger.EventsFilter_call ledger' (Project.factory handle) "ProxyCreated"
          = inr proxyEvents ->
        In event proxyEvents ->
        In (Read (GetProxyImplementation (Event.proxy (Event.args event))))
          (effects (_fetchOnChainProxies ledger' later))).
Proof.
  intros Hproject calls ledger' later.
  assert (Hcache : _project later = Some handle).
  { apply lifetime_keeps_project.
    destruct (project_completed ledger this Hproject) as [reads [Hrun _]].
    now rewrite Hrun. }
  split; [now apply project_cached|]. split.
  - intros directory Hdir.
    rewrite (fetchOnChainImplementations_reads ledger' later Hcache Hdir).
    right. now left.
  - intros directory allEvents proxyEvents event Hdir Himpl Hscan Hin.
    destruct (fetchOnChainProxies_reads ledger' later Hcache Hdir Himpl Hscan)
      as [resumed ->].
    apply in_or_app. right. apply in_or_app. left.
    apply in_map_iff. now exists event.
Qed.

(** On the example app, after a full run and a check against a ledger that
    no longer resolves anything. *)
Lemma project_resolved_once_witness :
  let this := compare Example.appFile [] in
  let later := lifetime [(Example.ledger [], call_); (Example.emptyLedger, checkApp_)]
                 (after (project (Example.ledger []) this)) in
  project Example.emptyLedger later
    = {| effects := []; after := later; completion := inr Example.handle |} /\
  (forall directory,
      Project.getCurrentDirectory Example.handle = inr directory ->
      In (Read (ScanEvents (Directory.contract directory) "ImplementationChanged"))
        (effects (_fetchOnChainImplementations Example.emptyLedger later))) /\
  (forall directory allEvents proxyEvents event,
      Project.getCurrentDirectory Example.handle = inr directory ->
      Ledger.EventsFilter_call Example.emptyLedger (Directory.contract directory)
        "ImplementationChanged" = inr allEvents ->
      Ledger.EventsFilter_call Example.emptyLedger (Project.factory Example.handle)
        "ProxyCreated" = inr proxyEvents ->
      In event proxyEvents ->
      In (Read (GetProxyImplementation (Event.proxy (Event.args event))))
        (effects (_fetchOnChainProxies Example.emptyLedger later))).
Proof.
  apply (project_resolved_once (Example.ledger []) (compare Example.appFile [])
           (handle := Example.handle)).
  reflexivity.
Defined.

(** ** The run of a library *)

Lemma bind_assoc {A B C : Type} (m : M A) (f : A -> M B) (g : B -> M C) (this : StatusChecker) :
  bind (bind m f) g this = bind m (fun a => bind (f a) g) this.
Proof.
  unfold bind. destruct (completion (m this)) as [e|a]; cbn; [reflexivity|].
  destruct (completion (f a (after (m this)))) as [e|b]; cbn; [reflexivity|].
  now rewrite app_assoc.
Qed.

Lemma endsChecking_bind {A B : Type} (P : Effect -> Prop) (m : M A) (f : A -> M B)
    (this : StatusChecker) :
  Forall P (effects (m this)) ->
  (forall a, completion (m this) = inr a -> endsChecking P (f a) (after (m this))) ->
  endsChecking P (bind m f) this.
Proof.
  intros Hm Hf. unfold endsChecking, bind.
  destruct (completion (m this)) as [e|a]; cbn; [assumption|].
  specialize (Hf a eq_refl). unfold endsChecking in Hf.
  destruct (completion (f a (after (m this)))) as [e|b].
  - apply Forall_app. auto.
  - destruct Hf as [checks [Heq Hchecks]]. exists (effects (m this) ++ checks).
    rewrite Heq, app_assoc. split; [reflexivity|]. apply Forall_app. auto.
Qed.

Lemma endsChecking_behaves {A B : Type} (P : Effect -> Prop) (m : M A) (f : A -> M B)
    (this : StatusChecker) :
  behaves (fun _ => True) P m ->
  (forall a that, endsChecking P (f a) that) ->
  endsChecking P (bind m f) this.
Proof.
  intros Hm Hf. apply endsChecking_bind.
  - now apply Hm.
  - intros a _. apply Hf.
Qed.

Lemma endsChecking_onEndChecking (P : Effect -> Prop) (this : StatusChecker) :
  endsChecking P (visit "onEndChecking" []) this.
Proof. exists []. split; [reflexivity | constructor]. Qed.

Lemma project_networkFile (ledger : Ledger.t) (this : StatusChecker) :
  networkFile (after (project ledger this)) = networkFile this.
Proof.
  destruct (_project this) as [cached|] eqn:Hcache.
  - now rewrite (project_cached ledger this Hcache).
  - destruct (fetchAnswer ledger this) as [e|fetched] eqn:Hfetch.
    + now rewrite (project_failed ledger this Hcache Hfetch).
    + now rewrite (project_fetched ledger this Hcache Hfetch).
Qed.

Lemma project_library_effects (ledger : Ledger.t) (this : StatusChecker) :
  NetworkFile.isLib (networkFile this) = true ->
  Forall libraryCheckEffect (effects (project ledger this)).
Proof.
  intros Hlib.
  assert (Hread : libraryCheckEffect (Read (fetchRead this)))
    by (unfold fetchRead; rewrite Hlib; exact Logic.I).
  destruct (_project this) as [cached|] eqn:Hcache.
  - rewrite (project_cached ledger this Hcache). constructor.
  - destruct (fetchAnswer ledger this) as [e|fetched] eqn:Hfetch.
    + rewrite (project_failed ledger this Hcache Hfetch). cbn. auto.
    + rewrite (project_fetched ledger this Hcache Hfetch). cbn. auto.
Qed.

Lemma libraryCheckEffect_stable : stable (fun _ => True) libraryCheckEffect.
Proof. split; intros; exact Logic.I. Qed.

Lemma checkProvider_library : behaves (fun _ => True) libraryCheckEffect checkProvider.
Proof.
  pose proof libraryCheckEffect_stable.
  unfold checkProvider. behaviour; cbn; auto.
Qed.

Lemma checkImplementations_library (ledger : Ledger.t) :
  behaves (fun _ => True) libraryCheckEffect (checkImplementations ledger).
Proof.
  pose proof libraryCheckEffect_stable.
  unfold checkImplementations, _fetchOnChainImplementations,
    _checkUnregisteredLocalImplementations, _checkRemoteImplementation,
    _checkImplementationAddress, _checkImplementationBytecode.
  behaviour; cbn; auto 10.
Qed.

(** ** Counting visitor calls *)

Section Counting.

Context {A : Type}.

Lemma count_app (p : A -> bool) (xs ys : list A) :
  count p (xs ++ ys) = count p xs + count p ys.
Proof. unfold count. now rewrite filter_app, length_app. Qed.

Lemma count_none (p : A -> bool) (xs : list A) :
  Forall (fun x => p x = false) xs -> count p xs = 0.
Proof.
  unfold count. induction 1 as [|x rest Hx _ IH]; [reflexivity|].
  cbn [filter]. now rewrite Hx.
Qed.

Lemma count_Permutation (p : A -> bool) (xs ys : list A) :
  Permutation xs ys -> count p xs = count p ys.
Proof.
  unfold count. induction 1 as [|x xs ys _ IH|x y xs|xs ys zs _ IH1 _ IH2]; cbn [filter].
  - reflexivity.
  - destruct (p x); cbn [length]; congruence.
  - destruct (p x), (p y); reflexivity.
  - congruence.
Qed.

End Counting.

(** ** The proxies *)

Lemma spares_stable (address : string) : stable (fun _ => True) (spares address).
Proof. split; intros; exact Logic.I. Qed.

Lemma spares_count (address method : string) (trace : list Effect) :
  method <> "onUnregisteredLocalProxy" ->
  Forall (spares address) trace ->
  count (isVisitAbout method "address" address) trace = 0.
Proof.
  intros Hmethod Htrace. apply count_none.
  eapply Forall_impl; [|exact Htrace].
  intros [r|line|m arguments]; cbn; try reflexivity.
  intros [Hm|[_ Habout]].
  - subst m. apply andb_false_iff. left. apply String.eqb_neq. congruence.
  - rewrite Habout. apply andb_false_r.
Qed.

Lemma spares_count_method (address method key value : string) (trace : list Effect) :
  ~ In method ["onMissingRemoteProxy"; "onMismatchingProxyAlias";
               "onMismatchingProxyImplementation"; "onUnregisteredLocalProxy"] ->
  Forall (spares address) trace ->
  count (isVisitAbout method key value) trace = 0.
Proof.
  intros Hmethod Htrace. apply count_none.
  eapply Forall_impl; [|exact Htrace].
  intros [r|line|m arguments]; cbn; try reflexivity.
  intros Hm. apply andb_false_iff. left. apply String.eqb_neq. intros ->.
  apply Hmethod. cbn in *. intuition auto.
Qed.

(** The checks that follow the fetch only speak of the proxies that the
    fetch returned, or of local proxies that are not registered. *)
Lemma checkRemoteProxies_spare (address : string) (proxiesInfo : list Proxy.t) :
  ~ In address (map Proxy.address proxiesInfo) ->
  behaves (fun _ => True) (spares address)
    (forEach _checkRemoteProxy proxiesInfo ;; _checkUnregisteredLocalProxies proxiesInfo).
Proof.
  intros Hout. pose proof (spares_stable address) as Hstable.
  apply behaves_bind.
  - apply behaves_forEach. intros info Hin.
    assert (Hne : String.eqb (Proxy.address info) address = false).
    { apply String.eqb_neq. intros Heq. apply Hout. apply in_map_iff. now exists info. }
    unfold _checkRemoteProxy, _checkProxyAlias, _checkProxyImplementation.
    behaviour; right; (split; [cbn; tauto | cbn; now rewrite Hne]).
  - intros _. unfold _checkUnregisteredLocalProxies. behaviour. now left.
Qed.

Section ProxyChecks.

Variable ledger : Ledger.t.
Variable this : StatusChecker.
Variable handle : Project.t.
Variable directory : Directory.t.
Variables allEvents proxyEvents : list Event.t.

Hypothesis cached : _project this = Some handle.
Hypothesis directoryRead : Project.getCurrentDirectory handle = inr directory.
Hypothesis implementationsScanned :
  Ledger.EventsFilter_call ledger (Directory.contract directory) "ImplementationChanged"
    = inr allEvents.
Hypothesis proxiesScanned :
  Ledger.EventsFilter_call ledger (Project.factory handle) "ProxyCreated" = inr proxyEvents.
Hypothesis answered :
  Forall (fun task => exists implementation, snd task = inr implementation)
    (tasksOf handle proxyEvents).

Let implementationsInfo := currentImplementations allEvents.
Let tasks := tasksOf handle proxyEvents.
Let order := settleOrder (length proxyEvents) (Ledger.settling ledger) tasks.

Lemma order_Permutation : Permutation order tasks.
Proof.
  unfold order. replace (length proxyEvents) with (length tasks)
    by (unfold tasks, tasksOf; apply length_map).
  apply settleOrder_Permutation.
Qed.

(** The trace of [checkProxies]: the reads, the visitor calls of the
    tasks in the order in which they resume, then the checks on what the
    fetch returned. *)
Lemma checkProxies_trace :
  exists checks,
    effects (checkProxies ledger this) =
      ([Read GetCurrentDirectory;
        Read (ScanEvents (Directory.contract directory) "ImplementationChanged");
        Read (ScanEvents (Project.factory handle) "ProxyCreated")]
       ++ map (fun event => Read (GetProxyImplementation (Event.proxy (Event.args event))))
            proxyEvents
       ++ flat_map (visitsOf implementationsInfo) order)
      ++ checks /\
    forall address,
      ~ In address (map Proxy.address (flat_map (pushesOf implementationsInfo) order)) ->
      Forall (spares address) checks.
Proof.
  destruct (fetchOnChainProxies_run ledger this cached directoryRead implementationsScanned
              proxiesScanned answered) as [Heffects Hpushed].
  fold implementationsInfo tasks order in Heffects, Hpushed.
  unfold checkProxies. rewrite (bind_completed _ _ _ Hpushed). cbn [effects].
  rewrite Heffects. eexists. split; [reflexivity|].
  intros address Hout. exact (proj2 (@checkRemoteProxies_spare address _ Hout _ Logic.I)).
Qed.

Lemma reads_count {B : Type} (p : Effect -> bool) (f : B -> LedgerRead) (xs : list B) :
  (forall r, p (Read r) = false) -> count p (map (fun x => Read (f x)) xs) = 0.
Proof.
  intros Hp. apply count_none. apply Forall_forall.
  intros e He. apply in_map_iff in He as [x [<- _]]. apply Hp.
Qed.

(** Counting in the trace of [checkProxies] the calls of [method] about
    [address]: the reads do not count, and the order in which the tasks
    resume does not matter. *)
Lemma checkProxies_count (p : Effect -> bool) :
  (forall r, p (Read r) = false) ->
  exists checks,
    count p (effects (checkProxies ledger this)) =
      count p (flat_map (visitsOf implementationsInfo) tasks) + count p checks /\
    forall address,
      ~ In address (map Proxy.address (flat_map (pushesOf implementationsInfo) tasks)) ->
      Forall (spares address) checks.
Proof.
  intros Hp. destruct checkProxies_trace as [checks [Heffects Hchecks]].
  exists checks. split.
  - rewrite Heffects, !count_app.
    rewrite (reads_count p
               (fun event => GetProxyImplementation (Event.proxy (Event.args event)))
               proxyEvents Hp).
    replace (count p [Read GetCurrentDirectory;
                      Read (ScanEvents (Directory.contract directory) "ImplementationChanged");
                      Read (ScanEvents (Project.factory handle) "ProxyCreated")]) with 0
      by (unfold count; cbn [filter]; now rewrite !Hp).
    cbn [Nat.add]. f_equal. apply count_Permutation.
    apply Permutation_flat_map, order_Permutation.
  - intros address Hout. apply Hchecks. intros Hin. apply Hout.
    apply in_map_iff in Hin as [info [Haddress Hin]].
    apply in_map_iff. exists info. split; [assumption|].
    eapply Permutation_in; [|exact Hin].
    apply Permutation_flat_map, order_Permutation.
Qed.

(** A proxy whose tasks push nothing is not among the addresses returned. *)
Lemma nothing_pushed (address implementation : string) :
  Project.getProxyImplementation handle address = inr implementation ->
  taskPushes implementationsInfo address implementation = [] ->
  ~ In address (map Proxy.address (flat_map (pushesOf implementationsInfo) tasks)).
Proof.
  intros Hanswer Hnone Hin.
  apply in_map_iff in Hin as [info [Haddress Hin]].
  apply in_flat_map in Hin as [[proxy answer] [Htask Hpushed]].
  unfold tasks, tasksOf in Htask. apply in_map_iff in Htask as [event [Heq _]].
  injection Heq as Hproxy Hanswer'.
  unfold pushesOf in Hpushed. cbn [fst snd] in Hpushed.
  destruct answer as [e|implementation']; [contradiction|].
  assert (Hsame : Proxy.address info = proxy).
  { unfold taskPushes in Hpushed.
    destruct (filter _ implementationsInfo) as [|first [|second more]];
      try contradiction.
    destruct Hpushed as [<-|[]]. reflexivity. }
  rewrite Hsame in Haddress. subst proxy.
  rewrite Hproxy, Hanswer in Hanswer'. injection Hanswer' as <-.
  now rewrite Hnone in Hpushed.
Qed.

End ProxyChecks.

Section ProxyTasks.

Variable handle : Project.t.
Variable implementationsInfo : list Info.t.

(** The tasks call no other method than the two of the fan-out. *)
Lemma tasks_count_method (method key value : string) (proxyEvents : list Event.t) :
  ~ In method ["onUnregisteredProxyImplementation"; "onMultipleProxyImplementations"] ->
  count (isVisitAbout method key value)
    (flat_map (visitsOf implementationsInfo) (tasksOf handle proxyEvents)) = 0.
Proof.
  intros Hmethod. apply count_none, Forall_forall. intros e He.
  apply in_flat_map in He as [[proxy answer] [_ He]].
  unfold visitsOf, taskVisits in He. cbn [fst snd] in He.
  destruct answer as [error|current]; [contradiction|].
  destruct (filter _ implementationsInfo) as [|first [|second more]];
    try contradiction; destruct He as [<-|[]]; unfold isVisitAbout;
    apply andb_false_iff; left; apply String.eqb_neq; intros <-;
    apply Hmethod; cbn [In]; auto.
Qed.

(** One call of [onUnregisteredProxyImplementation] about a proxy for
    each of its "proxy created" events, when its implementation matches
    nothing. *)
Lemma tasks_count_unregistered (address implementation : string) (proxyEvents : list Event.t) :
  Project.getProxyImplementation handle address = inr implementation ->
  filter (fun info => String.eqb (Info.address info) implementation) implementationsInfo = [] ->
  count (isVisitAbout "onUnregisteredProxyImplementation" "address" address)
    (flat_map (visitsOf implementationsInfo) (tasksOf handle proxyEvents))
  = count_occ string_dec (map (fun event => Event.proxy (Event.args event)) proxyEvents) address.
Proof.
  intros Hanswer Hnone. induction proxyEvents as [|event rest IH]; [reflexivity|].
  cbn [tasksOf map flat_map count_occ]. fold (tasksOf handle rest).
  rewrite count_app, IH. clear IH.
  destruct (string_dec (Event.proxy (Event.args event)) address) as [Heq|Hne].
  - rewrite Heq. unfold visitsOf, taskVisits. cbn [fst snd]. rewrite Hanswer, Hnone.
    unfold count. cbn. now rewrite String.eqb_refl.
  - apply String.eqb_neq in Hne.
    replace (count _ (visitsOf implementationsInfo _)) with 0; [reflexivity|].
    unfold visitsOf, taskVisits. cbn [fst snd].
    destruct (Project.getProxyImplementation handle (Event.proxy (Event.args event)))
      as [error|current]; [reflexivity|].
    destruct (filter (fun info => String.eqb (Info.address info) current) implementationsInfo)
      as [|first [|second more]];
      unfold count; cbn; try reflexivity.
    now rewrite Hne.
Qed.

(** No call of [onUnregisteredProxyImplementation] about a proxy whose
    implementation matches something. *)
Lemma tasks_count_registered (address implementation : string) (proxyEvents : list Event.t) :
  Project.getProxyImplementation handle address = inr implementation ->
  filter (fun info => String.eqb (Info.address info) implementation) implementationsInfo <> [] ->
  count (isVisitAbout "onUnregisteredProxyImplementation" "address" address)
    (flat_map (visitsOf implementationsInfo) (tasksOf handle proxyEvents)) = 0.
Proof.
  intros Hanswer Hsome. induction proxyEvents as [|event rest IH]; [reflexivity|].
  cbn [tasksOf map flat_map]. fold (tasksOf handle rest).
  rewrite count_app, IH, Nat.add_0_r. clear IH.
  unfold visitsOf, taskVisits. cbn [fst snd].
  destruct (string_dec (Event.proxy (Event.args event)) address) as [Heq|Hne].
  - rewrite Heq, Hanswer.
    destruct (filter _ implementationsInfo) as [|first [|second more]];
      [contradiction | reflexivity | reflexivity].
  - apply String.eqb_neq in Hne.
    destruct (Project.getProxyImplementation handle (Event.proxy (Event.args event)))
      as [error|current]; [reflexivity|].
    destruct (filter (fun info => String.eqb (Info.address info) current) implementationsInfo)
      as [|first [|second more]];
      unfold count; cbn; try reflexivity.
    now rewrite Hne.
Qed.

(** One call of [onMultipleProxyImplementations] about an implementation
    for each created proxy that runs it, when it matches several aliases. *)
Lemma tasks_count_multiple (implementation : string) (proxyEvents : list Event.t) :
  1 < length (filter (fun info => String.eqb (Info.address info) implementation)
                implementationsInfo) ->
  count (isVisitAbout "onMultipleProxyImplementations" "implementation" implementation)
    (flat_map (visitsOf implementationsInfo) (tasksOf handle proxyEvents))
  = count (runs handle implementation) proxyEvents.
Proof.
  intros Hseveral. induction proxyEvents as [|event rest IH]; [reflexivity|].
  cbn [tasksOf map flat_map]. fold (tasksOf handle rest).
  rewrite count_app, IH. clear IH.
  change (event :: rest) with ([event] ++ rest). rewrite (count_app _ [event] rest).
  f_equal. unfold visitsOf, taskVisits, runs, count. cbn [fst snd filter].
  destruct (Project.getProxyImplementation handle (Event.proxy (Event.args event)))
    as [error|current]; [reflexivity|].
  destruct (String.eqb_spec current implementation) as [->|Hne].
  - destruct (filter (fun info => String.eqb (Info.address info) implementation)
                implementationsInfo) as [|first [|second more]];
      cbn in Hseveral; try lia.
    cbn. now rewrite String.eqb_refl.
  - apply String.eqb_neq in Hne.
    destruct (filter (fun info => String.eqb (Info.address info) current)
                implementationsInfo) as [|first [|second more]];
      cbn; try reflexivity.
    now rewrite Hne.
Qed.

End ProxyTasks.

Lemma isVisitAbout_Read (method key value : string) (r : LedgerRead) :
  isVisitAbout method key value (Read r) = false.
Proof. reflexivity. Qed.

(** C6. In [checkProxies], when every read of the run is answered, a
    created proxy whose current implementation matches no entry of the
    reconciled set gets [onUnregisteredProxyImplementation] once for each
    of its "proxy created" events (once, for a proxy created once), and
    none of [onMissingRemoteProxy], [onMismatchingProxyAlias] and
    [onMismatchingProxyImplementation] is called about it. *)
Theorem unregistered_proxy_implementation
    (ledger : Ledger.t) (this : StatusChecker) (handle : Project.t) (directory : Directory.t)
    (allEvents proxyEvents : list Event.t) (address implementation : string) :
  _project this = Some handle ->
  Project.getCurrentDirectory handle = inr directory ->
  Ledger.EventsFilter_call ledger (Directory.contract directory) "ImplementationChanged"
    = inr allEvents ->
  Ledger.EventsFilter_call ledger (Project.factory handle) "ProxyCreated" = inr proxyEvents ->
  Forall (fun task => exists answer, snd task = inr answer) (tasksOf handle proxyEvents) ->
  Project.getProxyImplementation handle address = inr implementation ->
  filter (fun info => String.eqb (Info.address info) implementation)
    (currentImplementations allEvents) = [] ->
  let trace := effects (checkProxies ledger this) in
  count (isVisitAbout "onUnregisteredProxyImplementation" "address" address) trace
    = count_occ string_dec (map (fun event => Event.proxy (Event.args event)) proxyEvents)
        address /\
  (forall method,
      In method ["onMissingRemoteProxy"; "onMismatchingProxyAlias";
                 "onMismatchingProxyImplementation"] ->
      count (isVisitAbout method "address" address) trace = 0).
Proof.
  intros Hcache Hdir Himpl Hscan Hanswered Hanswer Hnone trace. subst trace.
  assert (Hout : ~ In address
                     (map Proxy.address
                        (flat_map (pushesOf (currentImplementations allEvents))
                           (tasksOf handle proxyEvents)))).
  { apply (@nothing_pushed handle allEvents proxyEvents address implementation Hanswer).
    unfold taskPushes. now rewrite Hnone. }
  split.
  - destruct (@checkProxies_count ledger this handle directory allEvents proxyEvents
                Hcache Hdir Himpl Hscan Hanswered
                (isVisitAbout "onUnregisteredProxyImplementation" "address" address)
                (isVisitAbout_Read _ _ _)) as [checks [Hcount Hspares]].
    rewrite Hcount, (tasks_count_unregistered _ _ _ _ Hanswer Hnone).
    rewrite (@spares_count address _ checks); [lia | discriminate | now apply Hspares].
  - intros method Hmethod.
    destruct (@checkProxies_count ledger this handle directory allEvents proxyEvents
                Hcache Hdir Himpl Hscan Hanswered
                (isVisitAbout method "address" address)
                (isVisitAbout_Read _ _ _)) as [checks [Hcount Hspares]].
    rewrite Hcount, tasks_count_method, (@spares_count address _ checks);
      try reflexivity; try (now apply Hspares);
      cbn in Hmethod |- *; intuition congruence.
Qed.

(** On the example app, for the proxy at 0xp3, the reads settling out of order. *)
Lemma unregistered_proxy_implementation_witness :
  let trace := effects (checkProxies (Example.ledger [2; 0])
                          (withProject (compare Example.appFile []) Example.handle)) in
  count (isVisitAbout "onUnregisteredProxyImplementation" "address" "0xp3") trace
    = count_occ string_dec
        (map (fun event => Event.proxy (Event.args event)) Example.proxyEvents) "0xp3" /\
  (forall method,
      In method ["onMissingRemoteProxy"; "onMismatchingProxyAlias";
                 "onMismatchingProxyImplementation"] ->
      count (isVisitAbout method "address" "0xp3") trace = 0).
Proof.
  apply (@unregistered_proxy_implementation (Example.ledger [2; 0])
           (withProject (compare Example.appFile []) Example.handle)
           Example.handle Example.directory Example.implementationEvents
           Example.proxyEvents "0xp3" "0xe9");
    try reflexivity.
  repeat constructor; eexists; reflexivity.
Defined.

(** C2 as stated fails on one run: Token gets both
    [onMismatchingContractAddress] and [onMismatchingContractBodyBytecode];
    the implementation of the proxy at 0xp2 matches the two aliases Vault
    and Bank, [onMultipleProxyImplementations] is called, and the proxy at
    0xp2 is then also reported by [onUnregisteredLocalProxy]. *)
Lemma two_hooks_for_one_item :
  let trace := effects (call (Example.ledger []) (compare Example.appFile [])) in
  length (filter (fun info => String.eqb (Info.address info) "0xb1")
            (currentImplementations Example.implementationEvents)) = 2 /\
  Project.getProxyImplementation Example.handle "0xp2" = inr "0xb1" /\
  In (Visit "onMultipleProxyImplementations"
        [JsString "one"; JsNumber 2; JsObject [("implementation", "0xb1")]]) trace /\
  In (Visit "onUnregisteredLocalProxy"
        [JsString "one"; JsString "none";
         JsObject [("alias", "Vault"); ("address", "0xp2"); ("implementation", "0xb1")]])
     trace /\
  count (isVisitAbout "onMismatchingContractAddress" "alias" "Token") trace = 1 /\
  count (isVisitAbout "onMismatchingContractBodyBytecode" "alias" "Token") trace = 1.
Proof. vm_compute. intuition auto. Qed.

(** C2, as the code has it. When the current implementation of a created
    proxy matches more than one entry of the reconciled set, the task of
    that proxy calls [onMultipleProxyImplementations] once, and pushes
    nothing; in [checkProxies], when every read of the run is answered,
    that hook is called once for each created proxy running that
    implementation, and none of [onUnregisteredProxyImplementation],
    [onMissingRemoteProxy], [onMismatchingProxyAlias] and
    [onMismatchingProxyImplementation] is called about that proxy. *)
Theorem multiple_proxy_implementations
    (ledger : Ledger.t) (this : StatusChecker) (handle : Project.t) (directory : Directory.t)
    (allEvents proxyEvents : list Event.t) (address implementation : string) :
  _project this = Some handle ->
  Project.getCurrentDirectory handle = inr directory ->
  Ledger.EventsFilter_call ledger (Directory.contract directory) "ImplementationChanged"
    = inr allEvents ->
  Ledger.EventsFilter_call ledger (Project.factory handle) "ProxyCreated" = inr proxyEvents ->
  Forall (fun task => exists answer, snd task = inr answer) (tasksOf handle proxyEvents) ->
  Project.getProxyImplementation handle address = inr implementation ->
  let matchingImplementations :=
    filter (fun info => String.eqb (Info.address info) implementation)
      (currentImplementations allEvents) in
  1 < length matchingImplementations ->
  let trace := effects (checkProxies ledger this) in
  (forall proxiesInfo that,
      let resumed := resumeWithImplementation (currentImplementations allEvents)
                       (address, inr implementation) proxiesInfo that in
      effects resumed =
        [Visit "onMultipleProxyImplementations"
           [JsString "one"; JsNumber (length matchingImplementations);
            JsObject [("implementation", implementation)]]] /\
      completion resumed = inr proxiesInfo) /\
  count (isVisitAbout "onMultipleProxyImplementations" "implementation" implementation) trace
    = count (runs handle implementation) proxyEvents /\
  (forall method,
      In method ["onUnregisteredProxyImplementation"; "onMissingRemoteProxy";
                 "onMismatchingProxyAlias"; "onMismatchingProxyImplementation"] ->
      count (isVisitAbout method "address" address) trace = 0).
Proof.
  intros Hcache Hdir Himpl Hscan Hanswered Hanswer matching Hseveral trace. subst trace.
  assert (Hpushes : taskPushes (currentImplementations allEvents) address implementation = []).
  { unfold taskPushes. fold matching.
    destruct matching as [|first [|second more]]; cbn in Hseveral; try lia. reflexivity. }
  assert (Hvisits : taskVisits (currentImplementations allEvents) address implementation =
                    [Visit "onMultipleProxyImplementations"
                       [JsString "one"; JsNumber (length matching);
                        JsObject [("implementation", implementation)]]]).
  { unfold taskVisits. fold matching.
    destruct matching as [|first [|second more]]; cbn in Hseveral; try lia. reflexivity. }
  assert (Hout : ~ In address
                     (map Proxy.address
                        (flat_map (pushesOf (currentImplementations allEvents))
                           (tasksOf handle proxyEvents))))
    by exact (@nothing_pushed handle allEvents proxyEvents address implementation
                Hanswer Hpushes).
  split; [|split].
  - intros proxiesInfo that resumed. subst resumed.
    destruct (resumeWithImplementation_run (currentImplementations allEvents) address
                implementation proxiesInfo that) as [Heffects Hcompletion].
    rewrite Heffects, Hcompletion, Hvisits, Hpushes, app_nil_r. split; reflexivity.
  - destruct (@checkProxies_count ledger this handle directory allEvents proxyEvents
                Hcache Hdir Himpl Hscan Hanswered
                (isVisitAbout "onMultipleProxyImplementations" "implementation"
                   implementation)
                (isVisitAbout_Read _ _ _)) as [checks [Hcount Hspares]].
    rewrite Hcount, (tasks_count_multiple handle _ _ proxyEvents Hseveral).
    rewrite (@spares_count_method address _ _ _ checks); [lia | | now apply Hspares].
    cbn. intuition congruence.
  - intros method Hmethod.
    destruct (@checkProxies_count ledger this handle directory allEvents proxyEvents
                Hcache Hdir Himpl Hscan Hanswered
                (isVisitAbout method "address" address)
                (isVisitAbout_Read _ _ _)) as [checks [Hcount Hspares]].
    rewrite Hcount, (@spares_count address _ checks);
      [ | cbn in Hmethod; intuition congruence | now apply Hspares].
    rewrite Nat.add_0_r.
    destruct Hmethod as [<-|Hmethod].
    + apply (tasks_count_registered _ _ _ _ Hanswer). fold matching.
      destruct matching; cbn in Hseveral; [lia | discriminate].
    + apply tasks_count_method. cbn in Hmethod |- *. intuition congruence.
Qed.

(** On the example app, for the proxy at 0xp2, the reads settling out of order. *)
Lemma multiple_proxy_implementations_witness :
  let this := withProject (compare Example.appFile []) Example.handle in
  let matchingImplementations :=
    filter (fun info => String.eqb (Info.address info) "0xb1")
      (currentImplementations Example.implementationEvents) in
  let trace := effects (checkProxies (Example.ledger [1]) this) in
  (forall proxiesInfo that,
      let resumed := resumeWithImplementation
                       (currentImplementations Example.implementationEvents)
                       ("0xp2", inr "0xb1") proxiesInfo that in
      effects resumed =
        [Visit "onMultipleProxyImplementations"
           [JsString "one"; JsNumber (length matchingImplementations);
            JsObject [("implementation", "0xb1")]]] /\
      completion resumed = inr proxiesInfo) /\
  count (isVisitAbout "onMultipleProxyImplementations" "implementation" "0xb1") trace
    = count (runs Example.handle "0xb1") Example.proxyEvents /\
  (forall method,
      In method ["onUnregisteredProxyImplementation"; "onMissingRemoteProxy";
                 "onMismatchingProxyAlias"; "onMismatchingProxyImplementation"] ->
      count (isVisitAbout method "address" "0xp2") trace = 0).
Proof.
  apply (@multiple_proxy_implementations (Example.ledger [1])
           (withProject (compare Example.appFile []) Example.handle)
           Example.handle Example.directory Example.implementationEvents
           Example.proxyEvents "0xp2" "0xb1");
    try reflexivity.
  - repeat constructor; eexists; reflexivity.
  - vm_compute. lia.
Defined.

(** C9 as stated fails: the tasks of the fan-out push onto the list they
    share as their reads settle, so the list returned follows the order in
    which the ledger answers (FIFO, then the read of 0xp4 first); and the
    tasks match and call the visitor before the join completes: here the
    join fails on the read of 0xp4, after the visitor has been told about
    0xp2 and 0xp3. *)
Lemma fan_out_resumes_before_the_join :
  let token address :=
    {| Proxy.alias := "Token"; Proxy.address := address; Proxy.implementation := "0xa2" |} in
  let this := withProject (compare Example.appFile []) Example.handle in
  let failed := _fetchOnChainProxies (Example.ledgerOf Example.failingHandle [])
                  (withProject (compare Example.appFile []) Example.failingHandle) in
  completion (_fetchOnChainProxies (Example.ledger []) this)
    = inr [token "0xp1"; token "0xp4"] /\
  completion (_fetchOnChainProxies (Example.ledger [3]) this)
    = inr [token "0xp4"; token "0xp1"] /\
  completion failed = inl (plainError "connection lost") /\
  filter isVisit (effects failed) =
    [Visit "onMultipleProxyImplementations"
       [JsString "one"; JsNumber 2; JsObject [("implementation", "0xb1")]];
     Visit "onUnregisteredProxyImplementation"
       [JsString "one"; JsString "none";
        JsObject [("address", "0xp3"); ("implementation", "0xe9")]]].
Proof. repeat split; reflexivity. Qed.

(** C9, as the code has it. [_fetchOnChainProxies] issues one read per
    created proxy, in the order of the events, before any task resumes;
    then each task resumes when its own read has settled, matches its
    implementation itself and calls the visitor or pushes onto the shared
    list; when every read is answered the list returned holds the pushes in
    the order in which the reads settled, a permutation of what the order
    of the events would give. *)
Theorem fan_out_in_settling_order
    (ledger : Ledger.t) (this : StatusChecker) (handle : Project.t) (directory : Directory.t)
    (allEvents proxyEvents : list Event.t) :
  _project this = Some handle ->
  Project.getCurrentDirectory handle = inr directory ->
  Ledger.EventsFilter_call ledger (Directory.contract directory) "ImplementationChanged"
    = inr allEvents ->
  Ledger.EventsFilter_call ledger (Project.factory handle) "ProxyCreated" = inr proxyEvents ->
  Forall (fun task => exists answer, snd task = inr answer) (tasksOf handle proxyEvents) ->
  let implementationsInfo := currentImplementations allEvents in
  let tasks := tasksOf handle proxyEvents in
  let order := settleOrder (length proxyEvents) (Ledger.settling ledger) tasks in
  let fetched := _fetchOnChainProxies ledger this in
  effects fetched =
    [Read GetCurrentDirectory;
     Read (ScanEvents (Directory.contract directory) "ImplementationChanged");
     Read (ScanEvents (Project.factory handle) "ProxyCreated")]
    ++ map (fun event => Read (GetProxyImplementation (Event.proxy (Event.args event))))
         proxyEvents
    ++ flat_map (visitsOf implementationsInfo) order /\
  completion fetched = inr (flat_map (pushesOf implementationsInfo) order) /\
  Permutation order tasks /\
  Permutation (flat_map (pushesOf implementationsInfo) order)
    (flat_map (pushesOf implementationsInfo) tasks).
Proof.
  intros Hcache Hdir Himpl Hscan Hanswered implementationsInfo tasks order fetched.
  destruct (fetchOnChainProxies_run ledger this Hcache Hdir Himpl Hscan Hanswered)
    as [Heffects Hpushed].
  pose proof (order_Permutation ledger handle proxyEvents) as Hperm.
  repeat split; try assumption.
  now apply Permutation_flat_map.
Qed.

(** On the example app, the read of 0xp4 settling first. *)
Lemma fan_out_in_settling_order_witness :
  let ledger := Example.ledger [3; 1] in
  let this := withProject (compare Example.appFile []) Example.handle in
  let implementationsInfo := currentImplementations Example.implementationEvents in
  let tasks := tasksOf Example.handle Example.proxyEvents in
  let order := settleOrder (length Example.proxyEvents) (Ledger.settling ledger) tasks in
  let fetched := _fetchOnChainProxies ledger this in
  effects fetched =
    [Read GetCurrentDirectory;
     Read (ScanEvents (Directory.contract Example.directory) "ImplementationChanged");
     Read (ScanEvents (Project.factory Example.handle) "ProxyCreated")]
    ++ map (fun event => Read (GetProxyImplementation (Event.proxy (Event.args event))))
         Example.proxyEvents
    ++ flat_map (visitsOf implementationsInfo) order /\
  completion fetched = inr (flat_map (pushesOf implementationsInfo) order) /\
  Permutation order tasks /\
  Permutation (flat_map (pushesOf implementationsInfo) order)
    (flat_map (pushesOf implementationsInfo) tasks).
Proof.
  apply (@fan_out_in_settling_order (Example.ledger [3; 1])
           (withProject (compare Example.appFile []) Example.handle)
           Example.handle Example.directory Example.implementationEvents
           Example.proxyEvents);
    try reflexivity.
  repeat constructor; eexists; reflexivity.
Defined.

(** ** The implementations *)

Lemma notAbout_count (alias method : string) (trace : list Effect) :
  Forall (notAbout alias) trace ->
  count (isVisitAbout method "alias" alias) trace = 0.
Proof.
  intros Htrace. apply count_none.
  eapply Forall_impl; [|exact Htrace].
  intros [r|line|m arguments]; cbn; try reflexivity.
  intros ->. apply andb_false_r.
Qed.

Lemma unregisteredLocalContract_count (method key value : string) (trace : list Effect) :
  method <> "onUnregisteredLocalContract" ->
  Forall unregisteredLocalContract trace ->
  count (isVisitAbout method key value) trace = 0.
Proof.
  intros Hmethod Htrace. apply count_none.
  eapply Forall_impl; [|exact Htrace].
  intros [r|line|m arguments]; cbn; try reflexivity.
  intros ->. apply andb_false_iff. left. apply String.eqb_neq. congruence.
Qed.

Lemma stillUnknown_stable (v : Visitor) (alias : string) :
  (forall method arguments nf,
      about "alias" alias arguments = false ->
      NetworkFile.hasContract (v method arguments nf) alias = NetworkFile.hasContract nf alias) ->
  stable (stillUnknown v alias) (notAbout alias).
Proof.
  intros Hframe. split.
  - intros this method arguments [Hv Hunknown] Hcall. split; cbn; [assumption|].
    rewrite Hv, Hframe; assumption.
  - intros this handle H _. exact H.
Qed.

Lemma notAbout_stable (alias : string) : stable (fun _ => True) (notAbout alias).
Proof. split; intros; exact Logic.I. Qed.

Section Implementations.

Variable ledger : Ledger.t.

(** Checking the implementation of another alias says nothing about [alias]. *)
Lemma checkRemoteImplementation_other
    (I : StatusChecker -> Prop) (alias : string) (info : Info.t) :
  stable I (notAbout alias) ->
  Info.alias info <> alias ->
  behaves I (notAbout alias) (_checkRemoteImplementation ledger info).
Proof.
  intros Hstable Hne. apply String.eqb_neq in Hne.
  unfold _checkRemoteImplementation, _checkImplementationAddress,
    _checkImplementationBytecode.
  behaviour; cbn; try exact Logic.I; now rewrite Hne.
Qed.

Lemma checkRemoteImplementation_unknown (alias address : string) (this : StatusChecker) :
  NetworkFile.hasContract (networkFile this) alias = false ->
  _checkRemoteImplementation ledger {| Info.alias := alias; Info.address := address |} this =
  visit "onMissingRemoteContract"
    [JsString "none"; JsString "one"; JsObject [("alias", alias); ("address", address)]]
    this.
Proof.
  intros Hunknown. unfold _checkRemoteImplementation. cbn [Info.alias Info.address].
  assert (Hthis : getThis this = {| effects := []; after := this; completion := inr this |})
    by reflexivity.
  unfold bind at 1. rewrite Hthis. cbn [completion after effects]. rewrite Hunknown.
  reflexivity.
Qed.

(** The loop over the reconciled set, when it completes: one call of
    [onMissingRemoteContract] for the entry of [alias], and around it
    only calls about other aliases. *)
Lemma checkRemoteImplementations_unknown
    (v : Visitor) (alias address : string) (implementationsInfo : list Info.t) :
  (forall method arguments nf,
      about "alias" alias arguments = false ->
      NetworkFile.hasContract (v method arguments nf) alias = NetworkFile.hasContract nf alias) ->
  NoDup (map Info.alias implementationsInfo) ->
  In {| Info.alias := alias; Info.address := address |} implementationsInfo ->
  forall this,
    stillUnknown v alias this ->
    completion (forEach (_checkRemoteImplementation ledger) implementationsInfo this) = inr tt ->
    exists before later,
      effects (forEach (_checkRemoteImplementation ledger) implementationsInfo this) =
        before
        ++ [Visit "onMissingRemoteContract"
              [JsString "none"; JsString "one";
               JsObject [("alias", alias); ("address", address)]]]
        ++ later /\
      Forall (notAbout alias) before /\
      Forall (notAbout alias) later.
Proof.
  intros Hframe. induction implementationsInfo as [|info rest IH];
    intros Hnodup Hin this Hunknown Hdone; [contradiction|].
  cbn [map] in Hnodup. inversion Hnodup as [|? ? Hfresh Hrest]; subst.
  cbn [forEach] in *.
  destruct (string_dec (Info.alias info) alias) as [Heq|Hne].
  - assert (Hinfo : info = {| Info.alias := alias; Info.address := address |}).
    { destruct Hin as [Hin|Hin]; [assumption|]. exfalso. apply Hfresh.
      rewrite Heq. apply in_map_iff. now exists {| Info.alias := alias; Info.address := address |}. }
    subst info. destruct Hunknown as [_ Hunknown].
    unfold bind. rewrite (checkRemoteImplementation_unknown _ address this Hunknown).
    cbn [visit completion effects after].
    exists [], (effects (forEach (_checkRemoteImplementation ledger) rest
                           (after (visit "onMissingRemoteContract"
                                     [JsString "none"; JsString "one";
                                      JsObject [("alias", alias); ("address", address)]]
                                     this)))).
    split; [reflexivity|]. split; [constructor|].
    apply (@behaves_forEach (fun _ => True) (notAbout alias)); [|exact Logic.I].
    intros other Hother. apply checkRemoteImplementation_other; [apply notAbout_stable|].
    intros Hsame. apply Hfresh. cbn [Info.alias]. rewrite <- Hsame.
    apply in_map_iff. now exists other.
  - assert (Hrest' : In {| Info.alias := alias; Info.address := address |} rest).
    { destruct Hin as [Hin|Hin]; [|assumption]. subst info. now cbn in Hne. }
    destruct (@checkRemoteImplementation_other (stillUnknown v alias) alias info
                (@stillUnknown_stable v alias Hframe) Hne this Hunknown) as [Hunknown' Hquiet].
    unfold bind in Hdone |- *.
    destruct (completion (_checkRemoteImplementation ledger info this)) as [e|[]];
      [discriminate|].
    cbn [completion effects] in Hdone |- *.
    destruct (IH Hrest Hrest' _ Hunknown' Hdone) as [before [later [Heffects [Hbefore Hlater]]]].
    exists (effects (_checkRemoteImplementation ledger info this) ++ before), later.
    rewrite Heffects, app_assoc. split; [reflexivity|]. split; [|assumption].
    apply Forall_app. auto.
Qed.

Lemma checkUnregisteredLocalImplementations_calls (implementationsInfo : list Info.t) :
  behaves (fun _ => True) unregisteredLocalContract
    (_checkUnregisteredLocalImplementations implementationsInfo).
Proof.
  assert (Hstable : stable (fun _ => True) unregisteredLocalContract)
    by (split; intros; exact Logic.I).
  unfold _checkUnregisteredLocalImplementations. behaviour. reflexivity.
Qed.

End Implementations.

(** C4 as stated fails on the name of the hook: Vault is registered on the
    ledger and unknown to the network file, the run completes, and the
    visitor has not been called on [onUnknownRemoteContract]; the call made
    for Vault is [onMissingRemoteContract]. *)
Lemma no_call_named_onUnknownRemoteContract :
  let run := call (Example.ledger []) (compare Example.appFile []) in
  In {| Info.alias := "Vault"; Info.address := "0xb1" |}
    (currentImplementations Example.implementationEvents) /\
  NetworkFile.hasContract Example.appFile "Vault" = false /\
  completion run = inr tt /\
  count (isVisitOf "onUnknownRemoteContract") (effects run) = 0 /\
  In (Visit "onMissingRemoteContract"
        [JsString "none"; JsString "one";
         JsObject [("alias", "Vault"); ("address", "0xb1")]]) (effects run).
Proof. vm_compute. intuition auto. Qed.

(** C4, as the code has it. For an entry [{alias, address}] of the
    reconciled set whose alias has no contract in the network file (and
    keeps none while the visitor is told about other aliases), an
    implementation check that completes calls the hook named
    [onMissingRemoteContract] once about that alias, with
    ['none', 'one', {alias, address}], and calls neither
    [onMismatchingContractAddress] nor [onMismatchingContractBodyBytecode]
    about it; checking that entry is that one visitor call, with no read of
    the code at the address. *)
Theorem missing_remote_contract
    (ledger : Ledger.t) (this : StatusChecker) (handle : Project.t) (directory : Directory.t)
    (allEvents : list Event.t) (alias address : string) :
  _project this = Some handle ->
  Project.getCurrentDirectory handle = inr directory ->
  Ledger.EventsFilter_call ledger (Directory.contract directory) "ImplementationChanged"
    = inr allEvents ->
  In {| Info.alias := alias; Info.address := address |} (currentImplementations allEvents) ->
  NetworkFile.hasContract (networkFile this) alias = false ->
  (forall method arguments nf,
      about "alias" alias arguments = false ->
      NetworkFile.hasContract (visitor this method arguments nf) alias
        = NetworkFile.hasContract nf alias) ->
  completion (checkImplementations ledger this) = inr tt ->
  let trace := effects (checkImplementations ledger this) in
  let reported :=
    Visit "onMissingRemoteContract"
      [JsString "none"; JsString "one"; JsObject [("alias", alias); ("address", address)]] in
  count (isVisitAbout "onMissingRemoteContract" "alias" alias) trace = 1 /\
  In reported trace /\
  count (isVisitAbout "onMismatchingContractAddress" "alias" alias) trace = 0 /\
  count (isVisitAbout "onMismatchingContractBodyBytecode" "alias" alias) trace = 0 /\
  (forall that,
      NetworkFile.hasContract (networkFile that) alias = false ->
      effects (_checkRemoteImplementation ledger
                 {| Info.alias := alias; Info.address := address |} that) = [reported]).
Proof.
  intros Hcache Hdir Hscan Hin Hunknown Hframe Hdone trace reported.
  assert (Hlast : forall that,
             NetworkFile.hasContract (networkFile that) alias = false ->
             effects (_checkRemoteImplementation ledger
                        {| Info.alias := alias; Info.address := address |} that)
             = [reported]).
  { intros that Hthat. now rewrite (checkRemoteImplementation_unknown ledger _ address that Hthat). }
  subst trace. revert Hdone. unfold checkImplementations.
  run_with (fetchOnChainImplementations_run ledger this Hcache Hdir Hscan).
  set (implementationsInfo := currentImplementations allEvents) in *.
  intros Hdone. unfold bind in Hdone |- *.
  destruct (completion (forEach (_checkRemoteImplementation ledger) implementationsInfo this))
    as [e|[]] eqn:Hloop; [discriminate|].
  cbn [effects completion] in Hdone |- *.
  destruct (@checkRemoteImplementations_unknown ledger (visitor this) alias address
              implementationsInfo Hframe (currentImplementations_aliases allEvents) Hin
              this (conj eq_refl Hunknown) Hloop)
    as [before [later [Heffects [Hbefore Hlater]]]].
  rewrite Heffects.
  set (locals := effects (_checkUnregisteredLocalImplementations implementationsInfo _)).
  assert (Hlocals : Forall unregisteredLocalContract locals)
    by (apply (@checkUnregisteredLocalImplementations_calls implementationsInfo); exact Logic.I).
  assert (Hcount : forall method,
             method <> "onUnregisteredLocalContract" ->
             count (isVisitAbout method "alias" alias)
               ([Read GetCurrentDirectory;
                 Read (ScanEvents (Directory.contract directory) "ImplementationChanged")]
                ++ (before ++ [reported] ++ later) ++ locals)
             = count (isVisitAbout method "alias" alias) [reported]).
  { intros method Hmethod. rewrite !count_app.
    rewrite (notAbout_count _ Hbefore), (notAbout_count _ Hlater).
    rewrite (unregisteredLocalContract_count _ _ Hmethod Hlocals).
    unfold count at 1. cbn [filter isVisitAbout length]. lia. }
  split; [|split; [|split; [|split]]].
  - rewrite Hcount by discriminate. unfold count, reported. cbn.
    now rewrite String.eqb_refl.
  - apply in_or_app. right. apply in_or_app. left. apply in_or_app. right. now left.
  - rewrite Hcount by discriminate. reflexivity.
  - rewrite Hcount by discriminate. reflexivity.
  - exact Hlast.
Qed.

(** On the example app, for Bank, which the network file does not know. *)
Lemma missing_remote_contract_witness :
  let ledger := Example.ledger [] in
  let this := withProject (compare Example.appFile []) Example.handle in
  let trace := effects (checkImplementations ledger this) in
  let reported :=
    Visit "onMissingRemoteContract"
      [JsString "none"; JsString "one"; JsObject [("alias", "Bank"); ("address", "0xb1")]] in
  count (isVisitAbout "onMissingRemoteContract" "alias" "Bank") trace = 1 /\
  In reported trace /\
  count (isVisitAbout "onMismatchingContractAddress" "alias" "Bank") trace = 0 /\
  count (isVisitAbout "onMismatchingContractBodyBytecode" "alias" "Bank") trace = 0 /\
  (forall that,
      NetworkFile.hasContract (networkFile that) "Bank" = false ->
      effects (_checkRemoteImplementation ledger
                 {| Info.alias := "Bank"; Info.address := "0xb1" |} that) = [reported]).
Proof.
  apply (@missing_remote_contract (Example.ledger [])
           (withProject (compare Example.appFile []) Example.handle)
           Example.handle Example.directory Example.implementationEvents "Bank" "0xb1");
    try reflexivity.
  vm_compute. tauto.
Defined.

(** * Further properties of the checker *)

(** ** Only the visitor writes the network file *)

Lemma replay_app (v : Visitor) (before later : list Effect) (nf : NetworkFile.t) :
  replay v (before ++ later) nf = replay v later (replay v before nf).
Proof.
  revert nf. induction before as [|[r|line|method arguments] rest IH]; intros nf;
    cbn [app replay]; auto.
Qed.

Section WritesThroughVisitor.

Lemma writes_ret {A : Type} (a : A) : writesThroughVisitor (ret a).
Proof. intros this. cbn. auto. Qed.

Lemma writes_throw {A : Type} (e : JsError) : writesThroughVisitor (@throw A e).
Proof. intros this. cbn. auto. Qed.

Lemma writes_getThis : writesThroughVisitor getThis.
Proof. intros this. cbn. auto. Qed.

Lemma writes_settled {A : Type} (r : result A) : writesThroughVisitor (settled r).
Proof. destruct r; [apply writes_throw | apply writes_ret]. Qed.

Lemma writes_setProject (handle : Project.t) : writesThroughVisitor (setProject handle).
Proof. intros this. cbn. auto. Qed.

Lemma writes_visit (method : string) (arguments : list JsValue) :
  writesThroughVisitor (visit method arguments).
Proof. intros this. cbn. auto. Qed.

Lemma writes_bind {A B : Type} (m : M A) (f : A -> M B) :
  writesThroughVisitor m -> (forall a, writesThroughVisitor (f a)) ->
  writesThroughVisitor (bind m f).
Proof.
  intros Hm Hf this. unfold bind.
  destruct (Hm this) as [Hv [Ht Hn]].
  destruct (completion (m this)) as [e|a]; cbn; [auto|].
  destruct (Hf a (after (m this))) as [Hv' [Ht' Hn']].
  rewrite Hv', Ht', Hn', Hv, Ht, Hn, replay_app. auto.
Qed.

Lemma writes_tryCatch {A : Type} (m : M A) (handler : JsError -> M A) :
  writesThroughVisitor m -> (forall e, writesThroughVisitor (handler e)) ->
  writesThroughVisitor (tryCatch m handler).
Proof.
  intros Hm Hh this. unfold tryCatch.
  destruct (Hm this) as [Hv [Ht Hn]].
  destruct (completion (m this)) as [e|a]; cbn; [|auto].
  destruct (Hh e (after (m this))) as [Hv' [Ht' Hn']].
  rewrite Hv', Ht', Hn', Hv, Ht, Hn, replay_app. auto.
Qed.

Lemma writes_await {A : Type} (r : LedgerRead) (answer : result A) :
  writesThroughVisitor (await r answer).
Proof. intros this. unfold await, launch, bind, emit. cbn. destruct answer; cbn; auto. Qed.

Lemma writes_launch {A : Type} (r : LedgerRead) (answer : result A) :
  writesThroughVisitor (launch r answer).
Proof. intros this. cbn. auto. Qed.

Lemma writes_log_info (line : string) : writesThroughVisitor (log_info line).
Proof. intros this. cbn. auto. Qed.

Lemma writes_forEach {A : Type} (f : A -> M unit) (xs : list A) :
  (forall x, writesThroughVisitor (f x)) -> writesThroughVisitor (forEach f xs).
Proof.
  intros Hf. induction xs as [|x rest IH]; cbn [forEach].
  - apply writes_ret.
  - apply writes_bind; [apply Hf | intros _; exact IH].
Qed.

Lemma writes_mapM {A B : Type} (f : A -> M B) (xs : list A) :
  (forall x, writesThroughVisitor (f x)) -> writesThroughVisitor (mapM f xs).
Proof.
  intros Hf. induction xs as [|x rest IH]; cbn [mapM].
  - apply writes_ret.
  - apply writes_bind; [apply Hf|]. intros y.
    apply writes_bind; [exact IH|]. intros ys. apply writes_ret.
Qed.

Lemma writes_foldM {A B : Type} (f : B -> A -> M A) (xs : list B) (acc : A) :
  (forall x a, writesThroughVisitor (f x a)) -> writesThroughVisitor (foldM f xs acc).
Proof.
  intros Hf. revert acc. induction xs as [|x rest IH]; intros acc; cbn [foldM].
  - apply writes_ret.
  - apply writes_bind; [apply Hf|]. intros acc'. apply IH.
Qed.

End WritesThroughVisitor.

Ltac writes :=
  repeat first
    [ apply writes_ret
    | apply writes_throw
    | apply writes_getThis
    | apply writes_settled
    | apply writes_setProject
    | apply writes_await
    | apply writes_launch
    | apply writes_log_info
    | apply writes_visit
    | apply writes_forEach; intro
    | apply writes_mapM; intro
    | apply writes_foldM; intros ? ?
    | apply writes_tryCatch; [|intro]
    | apply writes_bind; [|intro]
    | progress cbv zeta
    | match goal with
      | |- writesThroughVisitor (if ?b then _ else _) => destruct b
      | |- writesThroughVisitor (match ?x with _ => _ end) => destruct x
      end ].

(** X1. Whatever method of the instance is called, against whatever
    ledger and however it completes, the checker itself writes nothing to
    the network file: the visitor and the transaction parameters of the
    instance are the same afterwards, and the network file is the initial
    one after the visitor calls of the trace, applied in their order. *)
Theorem network_file_written_by_visitor_only
    (ledger : Ledger.t) (method : Method) (this : StatusChecker) :
  let run := invoke ledger method this in
  visitor (after run) = visitor this /\
  txParams (after run) = txParams this /\
  networkFile (after run) = replay (visitor this) (effects run) (networkFile this).
Proof.
  revert this. change (writesThroughVisitor (invoke ledger method)).
  destruct method; cbn [invoke];
    unfold call, checkApp, checkLib, checkProxies, checkImplementations,
      checkVersion, checkPackage, checkProvider, checkStdlib,
      _fetchOnChainProxies, _fetchOnChainImplementations,
      _checkUnregisteredLocalProxies, _checkRemoteProxy,
      _checkProxyAlias, _checkProxyImplementation,
      _checkUnregisteredLocalImplementations, _checkRemoteImplementation,
      _checkImplementationAddress, _checkImplementationBytecode,
      requestImplementation, resumeWithImplementation, project, theProject;
    writes.
Qed.

(** ** The end of a run *)

Lemma notEnd_stable :
  stable (fun _ => True) (fun e => isVisitOf "onEndChecking" e = false).
Proof. split; intros; exact Logic.I. Qed.

Lemma checks_do_not_end (ledger : Ledger.t) (library : bool) :
  behaves (fun _ => True) (fun e => isVisitOf "onEndChecking" e = false)
    (if library then checkLib ledger else checkApp ledger).
Proof.
  pose proof notEnd_stable as Hstable.
  destruct library;
    unfold checkApp, checkLib, checkProxies, checkImplementations,
      checkVersion, checkPackage, checkProvider, checkStdlib,
      _fetchOnChainProxies, _fetchOnChainImplementations,
      _checkUnregisteredLocalProxies, _checkRemoteProxy,
      _checkProxyAlias, _checkProxyImplementation,
      _checkUnregisteredLocalImplementations, _checkRemoteImplementation,
      _checkImplementationAddress, _checkImplementationBytecode,
      requestImplementation, resumeWithImplementation;
    behaviour; reflexivity.
Qed.

(** X2. [call()] signals the end of the run exactly when the run
    completes, and last: a run that completes, of an app or of a
    library, has [onEndChecking] as its last effect and nowhere before; a
    run that throws (the handle is not resolved, or a read of a check
    fails) never calls [onEndChecking]. *)
Theorem onEndChecking_ends_completed_runs (ledger : Ledger.t) (this : StatusChecker) :
  match completion (call ledger this) with
  | inr _ =>
      exists checks,
        effects (call ledger this) = checks ++ [Visit "onEndChecking" []] /\
        Forall (fun e => isVisitOf "onEndChecking" e = false) checks
  | inl _ =>
      Forall (fun e => isVisitOf "onEndChecking" e = false) (effects (call ledger this))
  end.
Proof.
  pose proof notEnd_stable as Hstable.
  change (endsChecking (fun e => isVisitOf "onEndChecking" e = false) (call ledger) this).
  unfold call.
  apply endsChecking_behaves; [behaviour; reflexivity|]. intros handle that.
  apply endsChecking_behaves; [behaviour; reflexivity|]. intros projectPackage that'.
  apply endsChecking_behaves; [behaviour; reflexivity|]. intros _ that''.
  apply endsChecking_behaves; [behaviour|]. intros self that'''.
  apply endsChecking_behaves; [apply checks_do_not_end|]. intros _ final.
  apply endsChecking_onEndChecking.
Qed.

(** ** Methods that need the handle *)

Lemma bind_first {A B : Type} (m : M A) (f : A -> M B) (this : StatusChecker) (e : Effect) :
  hd_error (effects (m this)) = Some e ->
  hd_error (effects (bind m f this)) = Some e.
Proof.
  intros H. unfold bind. destruct (completion (m this)); cbn; [assumption|].
  destruct (effects (m this)); [discriminate | exact H].
Qed.

(** X3. [checkLib()], [checkPackage()], [checkProvider()] and
    [checkImplementations()] read [this._project] without resolving it:
    on an instance whose handle has not been resolved they throw at once,
    having read nothing from the ledger and called nothing on the visitor,
    and leave the instance as it is. [checkApp()] does not have this
    limit: its first check resolves the handle, so its first effect is the
    read that fetches the project. *)
Theorem checks_before_project (ledger : Ledger.t) (this : StatusChecker) :
  _project this = None ->
  (forall check,
      In check [checkLib ledger; checkPackage; checkProvider; checkImplementations ledger] ->
      effects (check this) = [] /\ after (check this) = this /\
      exists error, completion (check this) = inl error) /\
  hd_error (effects (checkApp ledger this)) = Some (Read (fetchRead this)).
Proof.
  intros Hnone.
  assert (Hthe : forall member,
             theProject member this =
             {| effects := []; after := this;
                completion := inl (TypeError ("Cannot read property '" ++ member
                                                ++ "' of undefined")%string) |}).
  { intros member. unfold theProject, bind, getThis. cbn. rewrite Hnone. reflexivity. }
  assert (Hfirst : forall {A B : Type} member (k : Project.t -> M A) (k' : A -> M B),
             exists error,
               bind (bind (theProject member) k) k' this =
               {| effects := []; after := this; completion := inl error |} /\
               bind (theProject member) k this =
               {| effects := []; after := this; completion := inl error |}).
  { intros A B member k k'. eexists.
    assert (Hinner : bind (theProject member) k this =
                     {| effects := []; after := this;
                        completion := inl (TypeError ("Cannot read property '" ++ member
                                                        ++ "' of undefined")%string) |}).
    { rewrite (bind_aborted _ _ _ (f_equal (@completion _) (Hthe member))).
      now rewrite Hthe. }
    split; [|exact Hinner].
    rewrite (bind_aborted _ _ _ (f_equal (@completion _) Hinner)). now rewrite Hinner. }
  split.
  - intros check [<-|[<-|[<-|[<-|[]]]]].
    + unfold checkLib, checkProvider.
      destruct (Hfirst _ _ "getCurrentDirectory"
                  (fun handle =>
                     currentDirectory <- await GetCurrentDirectory
                                           (Project.getCurrentDirectory handle) ;;
                     this <- getThis ;;
                     (if negb (strictEquals (JsString (Directory.address currentDirectory))
                                 (ofOption (NetworkFile.providerAddress (networkFile this))))
                      then visit "onMismatchingProvider"
                             [ofOption (NetworkFile.providerAddress (networkFile this));
                              JsString (Directory.address currentDirectory)]
                      else ret tt))
                  (fun _ : unit => checkImplementations ledger)) as [error [-> _]].
      cbn. eauto.
    + unfold checkPackage.
      destruct (Hfirst _ unit "package"
                  (fun handle =>
                     this <- getThis ;;
                     (if negb (strictEquals
                                 (JsString (Package.address (Project.package handle)))
                                 (ofOption (NetworkFile.packageAddress (networkFile this))))
                      then visit "onMismatchingPackage"
                             [ofOption (NetworkFile.packageAddress (networkFile this));
                              JsString (Package.address (Project.package handle))]
                      else ret tt))
                  (fun _ : unit => ret tt)) as [error [_ ->]].
      cbn. eauto.
    + unfold checkProvider.
      destruct (Hfirst _ unit "getCurrentDirectory"
                  (fun handle =>
                     currentDirectory <- await GetCurrentDirectory
                                           (Project.getCurrentDirectory handle) ;;
                     this <- getThis ;;
                     (if negb (strictEquals (JsString (Directory.address currentDirectory))
                                 (ofOption (NetworkFile.providerAddress (networkFile this))))
                      then visit "onMismatchingProvider"
                             [ofOption (NetworkFile.providerAddress (networkFile this));
                              JsString (Directory.address currentDirectory)]
                      else ret tt))
                  (fun _ : unit => ret tt)) as [error [_ ->]].
      cbn. eauto.
    + unfold checkImplementations, _fetchOnChainImplementations.
      destruct (Hfirst _ _ "getCurrentDirectory"
                  (fun handle =>
                     directory <- await GetCurrentDirectory
                                    (Project.getCurrentDirectory handle) ;;
                     allEvents <- await (ScanEvents (Directory.contract directory)
                                           "ImplementationChanged")
                                    (Ledger.EventsFilter_call ledger
                                       (Directory.contract directory)
                                       "ImplementationChanged") ;;
                     ret (currentImplementations allEvents))
                  (fun implementationsInfo =>
                     forEach (_checkRemoteImplementation ledger) implementationsInfo ;;
                     _checkUnregisteredLocalImplementations implementationsInfo))
        as [error [-> _]].
      cbn. eauto.
  - assert (Hproject : effects (project ledger this) = [Read (fetchRead this)]).
    { destruct (fetchAnswer ledger this) as [e|handle] eqn:Hfetch.
      - now rewrite (project_failed ledger this Hnone Hfetch).
      - now rewrite (project_fetched ledger this Hnone Hfetch). }
    unfold checkApp, checkVersion.
    apply bind_first, bind_first. now rewrite Hproject.
Qed.

(** On a fresh instance for the example app. *)
Lemma checks_before_project_witness :
  let this := compare Example.appFile [] in
  let ledger := Example.ledger [] in
  (forall check,
      In check [checkLib ledger; checkPackage; checkProvider; checkImplementations ledger] ->
      effects (check this) = [] /\ after (check this) = this /\
      exists error, completion (check this) = inl error) /\
  hd_error (effects (checkApp ledger this)) = Some (Read (fetchRead this)).
Proof.
  apply (checks_before_project (Example.ledger []) (compare Example.appFile [])).
  reflexivity.
Defined.

(** X4. A failed resolution is not remembered. When the handle cannot be
    fetched, [project()] throws the error whose message names the
    [appAddress] of the network file, and leaves the instance without
    handle; the next [project()] asks the ledger again, and if the ledger
    now answers, stores and returns the handle. *)
Theorem project_failure_is_not_cached
    (ledger later : Ledger.t) (this : StatusChecker) (error : JsError) (handle : Project.t) :
  _project this = None ->
  fetchAnswer ledger this = inl error ->
  fetchAnswer later this = inr handle ->
  let failed := project ledger this in
  completion failed =
    inl (Error ("Cannot fetch project contract from address "
                  ++ template (NetworkFile.appAddress (networkFile this)) ++ ".")%string
           error) /\
  after failed = this /\
  project later (after failed) =
    {| effects := [Read (fetchRead this)];
       after := withProject this handle;
       completion := inr handle |}.
Proof.
  intros Hnone Hfailed Hlater failed. subst failed.
  rewrite (project_failed ledger this Hnone Hfailed). cbn [completion after].
  split; [reflexivity|]. split; [reflexivity|].
  now apply project_fetched.
Qed.

(** On the example app: the ledger has no contract, then has it. *)
Lemma project_failure_is_not_cached_witness :
  let this := compare Example.appFile [] in
  let failed := project Example.emptyLedger this in
  completion failed =
    inl (Error ("Cannot fetch project contract from address "
                  ++ template (NetworkFile.appAddress (networkFile this)) ++ ".")%string
           (plainError "no contract at 0xapp")) /\
  after failed = this /\
  project (Example.ledger []) (after failed) =
    {| effects := [Read (fetchRead this)];
       after := withProject this Example.handle;
       completion := inr Example.handle |}.
Proof.
  apply (@project_failure_is_not_cached Example.emptyLedger (Example.ledger [])
           (compare Example.appFile []) (plainError "no contract at 0xapp") Example.handle);
    reflexivity.
Defined.

(** ** One more event in the log *)

Lemma keepLast_app (events : list Event.t) (event : Event.t) :
  keepLast (events ++ [event]) =
  filter (fun earlier => negb (String.eqb (nameOf earlier) (nameOf event)))
    (keepLast events)
  ++ [event].
Proof.
  induction events as [|first rest IH]; [reflexivity|].
  cbn [app keepLast]. rewrite map_app. unfold includes in *. rewrite existsb_app.
  cbn [map existsb]. rewrite orb_false_r.
  destruct (existsb (String.eqb (nameOf first)) (map nameOf rest)); cbn [orb].
  - exact IH.
  - cbn [filter]. destruct (String.eqb (nameOf first) (nameOf event)); cbn [negb].
    + exact IH.
    + rewrite IH. reflexivity.
Qed.

(** X5. How the reconciled set follows the log. After one more
    "implementation changed" event, the set is the former one without the
    entry of the alias of the event, followed by the entry the event
    registers, unless the event carries the zero address: registering an
    alias again moves it to its new address, at the end of the set;
    unregistering it removes it; every other alias keeps its entry and its
    place. *)
Theorem currentImplementations_after_event (allEvents : list Event.t) (event : Event.t) :
  let alias := Event.contractName (Event.args event) in
  let address := Event.implementation (Event.args event) in
  currentImplementations (allEvents ++ [event]) =
  filter (fun info => negb (String.eqb (Info.alias info) alias))
    (currentImplementations allEvents)
  ++ (if String.eqb address ZERO_ADDRESS then []
      else [{| Info.alias := alias; Info.address := address |}]).
Proof.
  intros alias address. subst alias address.
  rewrite !currentImplementations_keepLast, keepLast_app, filter_app, map_app.
  f_equal.
  - generalize (keepLast allEvents). intros kept.
    induction kept as [|first rest IH]; [reflexivity|].
    cbn [filter].
    destruct (String.eqb (nameOf first) (nameOf event)) eqn:Hname; cbn [negb];
      destruct (String.eqb (Event.implementation (Event.args first)) ZERO_ADDRESS) eqn:Hzero;
      repeat (progress cbn [negb filter map Info.alias] || rewrite Hname || rewrite Hzero);
      rewrite IH; reflexivity.
  - cbn [filter]. destruct (String.eqb _ ZERO_ADDRESS); reflexivity.
Qed.

(** ** The scalar checks, one by one *)

Section ScalarRuns.

Variable ledger : Ledger.t.
Variable this : StatusChecker.
Variable handle : Project.t.
Hypothesis cached : _project this = Some handle.

Lemma getThis_run : getThis this = {| effects := []; after := this; completion := inr this |}.
Proof. reflexivity. Qed.

Lemma await_answered {A : Type} (r : LedgerRead) (answer : result A) (a : A) :
  answer = inr a ->
  await r answer this = {| effects := [Read r]; after := this; completion := inr a |}.
Proof. intros ->. reflexivity. Qed.

Lemma checkVersion_cached :
  checkVersion ledger this =
  if String.eqb (Project.version handle) (NetworkFile.version (networkFile this))
  then ret tt this
  else visit "onMismatchingVersion"
         [JsString (NetworkFile.version (networkFile this)); JsString (Project.version handle)]
         this.
Proof.
  unfold checkVersion. run_with (project_cached ledger this cached). run_with getThis_run.
  cbn [strictEquals]. destruct (String.eqb _ _); reflexivity.
Qed.

Lemma checkPackage_cached :
  checkPackage this =
  if strictEquals (JsString (Package.address (Project.package handle)))
       (ofOption (NetworkFile.packageAddress (networkFile this)))
  then ret tt this
  else visit "onMismatchingPackage"
         [ofOption (NetworkFile.packageAddress (networkFile this));
          JsString (Package.address (Project.package handle))]
         this.
Proof.
  unfold checkPackage. run_with (theProject_cached "package" this cached).
  run_with getThis_run. destruct (strictEquals _ _); reflexivity.
Qed.

Lemma checkProvider_cached (directory : Directory.t) :
  Project.getCurrentDirectory handle = inr directory ->
  checkProvider this =
  afterReads [Read GetCurrentDirectory]
    (if strictEquals (JsString (Directory.address directory))
          (ofOption (NetworkFile.providerAddress (networkFile this)))
     then ret tt this
     else visit "onMismatchingProvider"
            [ofOption (NetworkFile.providerAddress (networkFile this));
             JsString (Directory.address directory)]
            this).
Proof.
  intros Hdir. unfold checkProvider.
  run_with (theProject_cached "getCurrentDirectory" this cached).
  run_with (await_answered GetCurrentDirectory Hdir). run_with getThis_run.
  destruct (strictEquals _ _); reflexivity.
Qed.

Lemma checkStdlib_cached (currentStdlib : string) :
  Project.currentStdlib handle = inr currentStdlib ->
  checkStdlib ledger this =
  afterReads [Read CurrentStdlib]
    (if String.eqb (if String.eqb currentStdlib ZERO_ADDRESS then "none" else currentStdlib)
          (orElse (NetworkFile.stdlibAddress (networkFile this)) "none")
     then ret tt this
     else visit "onMismatchingStdlib"
            [JsString (orElse (NetworkFile.stdlibAddress (networkFile this)) "none");
             JsString (if String.eqb currentStdlib ZERO_ADDRESS then "none" else currentStdlib)]
            this).
Proof.
  intros Hstdlib. unfold checkStdlib. run_with (project_cached ledger this cached).
  run_with (await_answered CurrentStdlib Hstdlib). run_with getThis_run.
  cbn [strictEquals]. destruct (String.eqb _ (orElse _ _)); reflexivity.
Qed.

End ScalarRuns.

(** With a visitor that leaves the network file alone, a visitor call
    leaves the instance as it is. *)
Lemma visit_recorder (this : StatusChecker) (method : string) (arguments : list JsValue) :
  recorder this ->
  visit method arguments this =
  {| effects := [Visit method arguments]; after := this; completion := inr tt |}.
Proof.
  intros Hrecorder. unfold visit. rewrite Hrecorder. destruct this. reflexivity.
Qed.

Lemma report_recorder (this : StatusChecker) (equal : bool) (method : string)
    (arguments : list JsValue) :
  recorder this ->
  (if equal then ret tt this else visit method arguments this) =
  {| effects := if equal then [] else [Visit method arguments];
     after := this; completion := inr tt |}.
Proof.
  intros Hrecorder. destruct equal; [reflexivity | now apply visit_recorder].
Qed.

Lemma filter_none {A : Type} (p : A -> bool) (xs : list A) :
  Forall (fun x => p x = false) xs -> filter p xs = [].
Proof.
  induction 1 as [|x rest Hx _ IH]; [reflexivity|]. cbn [filter]. now rewrite Hx.
Qed.

Lemma later_checks_not_scalar (ledger : Ledger.t) :
  behaves (fun _ => True) (fun e => isScalarHook e = false)
    (checkImplementations ledger ;; checkProxies ledger).
Proof.
  assert (Hstable : stable (fun _ => True) (fun e => isScalarHook e = false))
    by (split; intros; exact Logic.I).
  unfold checkProxies, checkImplementations,
    _fetchOnChainProxies, _fetchOnChainImplementations,
    _checkUnregisteredLocalProxies, _checkRemoteProxy,
    _checkProxyAlias, _checkProxyImplementation,
    _checkUnregisteredLocalImplementations, _checkRemoteImplementation,
    _checkImplementationAddress, _checkImplementationBytecode,
    requestImplementation, resumeWithImplementation.
  behaviour; reflexivity.
Qed.

(** X6. In [checkApp()] with a visitor that leaves the network file
    alone (compare mode), each of the four scalar checks reports its own
    field and nothing else, whatever the other checks find and however
    the implementation and proxy checks end: the calls of the four scalar
    hooks in the trace are, in this order, [onMismatchingVersion] if the
    versions differ, [onMismatchingPackage] if the package addresses
    differ, [onMismatchingProvider] if the provider addresses differ and
    [onMismatchingStdlib] if the stdlib addresses, with 'none' for the
    zero address and for no address, differ; each with
    [(expected, observed)]. A mismatch stops none of the later checks. *)
Theorem scalar_checks_are_independent
    (ledger : Ledger.t) (this : StatusChecker) (handle : Project.t)
    (directory : Directory.t) (currentStdlib : string) :
  recorder this ->
  _project this = Some handle ->
  Project.getCurrentDirectory handle = inr directory ->
  Project.currentStdlib handle = inr currentStdlib ->
  let nf := networkFile this in
  let observedPackage := Package.address (Project.package handle) in
  let observedProvider := Directory.address directory in
  let observedStdlib := if String.eqb currentStdlib ZERO_ADDRESS then "none" else currentStdlib in
  let expectedStdlib := orElse (NetworkFile.stdlibAddress nf) "none" in
  filter isScalarHook (effects (checkApp ledger this)) =
    (if String.eqb (Project.version handle) (NetworkFile.version nf) then []
     else [Visit "onMismatchingVersion"
             [JsString (NetworkFile.version nf); JsString (Project.version handle)]])
    ++ (if strictEquals (JsString observedPackage) (ofOption (NetworkFile.packageAddress nf))
        then []
        else [Visit "onMismatchingPackage"
                [ofOption (NetworkFile.packageAddress nf); JsString observedPackage]])
    ++ (if strictEquals (JsString observedProvider) (ofOption (NetworkFile.providerAddress nf))
        then []
        else [Visit "onMismatchingProvider"
                [ofOption (NetworkFile.providerAddress nf); JsString observedProvider]])
    ++ (if String.eqb observedStdlib expectedStdlib then []
        else [Visit "onMismatchingStdlib" [JsString expectedStdlib; JsString observedStdlib]]).
Proof.
  intros Hrecorder Hcache Hdir Hstdlib nf observedPackage observedProvider
    observedStdlib expectedStdlib.
  unfold checkApp.
  pose proof (@checkVersion_cached ledger this handle Hcache) as Hversion.
  rewrite (report_recorder _ _ _ Hrecorder) in Hversion.
  pose proof (@checkPackage_cached this handle Hcache) as Hpackage.
  rewrite (report_recorder _ _ _ Hrecorder) in Hpackage.
  pose proof (@checkProvider_cached this handle Hcache directory Hdir) as Hprovider.
  rewrite (report_recorder _ _ _ Hrecorder) in Hprovider.
  pose proof (@checkStdlib_cached ledger this handle Hcache currentStdlib Hstdlib) as Hstd.
  rewrite (report_recorder _ _ _ Hrecorder) in Hstd.
  unfold afterReads in Hprovider, Hstd. cbn [effects after completion] in Hprovider, Hstd.
  run_with Hversion. run_with Hpackage. run_with Hprovider. run_with Hstd.
  fold nf observedPackage observedProvider observedStdlib expectedStdlib.
  rewrite !filter_app.
  rewrite (filter_none isScalarHook
             (proj2 (@later_checks_not_scalar ledger this Logic.I))), app_nil_r.
  cbn [filter isScalarHook app].
  destruct (String.eqb (Project.version handle) (NetworkFile.version nf));
    destruct (strictEquals (JsString observedPackage) _);
    destruct (strictEquals (JsString observedProvider) _);
    destruct (String.eqb observedStdlib expectedStdlib); reflexivity.
Qed.

(** On the example app: the same version, package and provider, no stdlib. *)
Lemma scalar_checks_are_independent_witness :
  let this := withProject (compare Example.appFile []) Example.handle in
  let nf := networkFile this in
  let observedPackage := Package.address (Project.package Example.handle) in
  let observedProvider := Directory.address Example.directory in
  let observedStdlib := if String.eqb ZERO_ADDRESS ZERO_ADDRESS then "none" else ZERO_ADDRESS in
  let expectedStdlib := orElse (NetworkFile.stdlibAddress nf) "none" in
  filter isScalarHook (effects (checkApp (Example.ledger []) this)) =
    (if String.eqb (Project.version Example.handle) (NetworkFile.version nf) then []
     else [Visit "onMismatchingVersion"
             [JsString (NetworkFile.version nf); JsString (Project.version Example.handle)]])
    ++ (if strictEquals (JsString observedPackage) (ofOption (NetworkFile.packageAddress nf))
        then []
        else [Visit "onMismatchingPackage"
                [ofOption (NetworkFile.packageAddress nf); JsString observedPackage]])
    ++ (if strictEquals (JsString observedProvider) (ofOption (NetworkFile.providerAddress nf))
        then []
        else [Visit "onMismatchingProvider"
                [ofOption (NetworkFile.providerAddress nf); JsString observedProvider]])
    ++ (if String.eqb observedStdlib expectedStdlib then []
        else [Visit "onMismatchingStdlib" [JsString expectedStdlib; JsString observedStdlib]]).
Proof.
  apply (@scalar_checks_are_independent (Example.ledger [])
           (withProject (compare Example.appFile []) Example.handle)
           Example.handle Example.directory ZERO_ADDRESS);
    try reflexivity.
  intros method arguments nf. reflexivity.
Defined.

(** ** Compare mode: the instance does not change *)

Lemma unchanged_stable (this : StatusChecker) (handle : Project.t) :
  recorder this ->
  _project this = Some handle ->
  stable (fun that => that = this) (fun _ => True).
Proof.
  intros Hrecorder Hcache. split.
  - intros that method arguments -> _. now rewrite visit_recorder.
  - intros that fetched -> Hnone. congruence.
Qed.

Lemma forEach_recorder {A : Type} (f : A -> M unit) (xs : list A) (this : StatusChecker) :
  (forall x, In x xs -> after (f x this) = this) ->
  completion (forEach f xs this) = inr tt ->
  effects (forEach f xs this) = flat_map (fun x => effects (f x this)) xs /\
  after (forEach f xs this) = this /\
  Forall (fun x => completion (f x this) = inr tt) xs.
Proof.
  induction xs as [|x rest IH]; intros Hsame Hdone; [cbn; auto|].
  cbn [forEach flat_map] in *. unfold bind in *.
  destruct (completion (f x this)) as [e|[]] eqn:Hx; [discriminate|].
  cbn [effects after completion] in *.
  rewrite (Hsame x (or_introl eq_refl)) in *.
  destruct (IH (fun y Hy => Hsame y (or_intror Hy)) Hdone) as [Heffects [Hafter Hall]].
  rewrite Heffects, Hafter. auto.
Qed.

Lemma notAbout_filter (alias : string) (trace : list Effect) :
  Forall (notAbout alias) trace -> filter (isAbout "alias" alias) trace = [].
Proof.
  intros Htrace. apply filter_none. eapply Forall_impl; [|exact Htrace].
  intros [r|line|method arguments]; cbn; auto.
Qed.

Section ImplementationsCompared.

Variable ledger : Ledger.t.
Variable this : StatusChecker.
Variable handle : Project.t.
Variable directory : Directory.t.
Variable allEvents : list Event.t.

Hypothesis compares : recorder this.
Hypothesis cached : _project this = Some handle.
Hypothesis directoryRead : Project.getCurrentDirectory handle = inr directory.
Hypothesis implementationsScanned :
  Ledger.EventsFilter_call ledger (Directory.contract directory) "ImplementationChanged"
    = inr allEvents.
Hypothesis completed : completion (checkImplementations ledger this) = inr tt.

Let implementationsInfo := currentImplementations allEvents.

Let reportLocal (alias : string) : M unit :=
  this <- getThis ;;
  entry <- settled (NetworkFile.contract (networkFile this) alias) ;;
  visit "onUnregisteredLocalContract"
    [JsString "one"; JsString "none";
     JsObject [("alias", alias); ("address", ContractEntry.address entry)]].

Let localOnly : list string :=
  filter (fun alias => negb (includes (map Info.alias implementationsInfo) alias))
    (NetworkFile.contractAliases (networkFile this)).

Lemma checkRemoteImplementation_unchanged (info : Info.t) :
  after (_checkRemoteImplementation ledger info this) = this.
Proof.
  pose proof (unchanged_stable compares cached) as Hstable.
  assert (H : behaves (fun that => that = this) (fun _ => True)
                (_checkRemoteImplementation ledger info)).
  { unfold _checkRemoteImplementation, _checkImplementationAddress,
      _checkImplementationBytecode. behaviour; exact Logic.I. }
  now apply H.
Qed.

Lemma reportLocal_unchanged (alias : string) : after (reportLocal alias this) = this.
Proof.
  pose proof (unchanged_stable compares cached) as Hstable.
  assert (H : behaves (fun that => that = this) (fun _ => True) (reportLocal alias)).
  { unfold reportLocal. behaviour; exact Logic.I. }
  now apply H.
Qed.

(** The trace of a completed implementation check in compare mode: the
    two reads, the check of every reconciled entry, the report of every
    alias that is only local. *)
Lemma checkImplementations_compared :
  effects (checkImplementations ledger this) =
    [Read GetCurrentDirectory;
     Read (ScanEvents (Directory.contract directory) "ImplementationChanged")]
    ++ flat_map (fun info => effects (_checkRemoteImplementation ledger info this))
         implementationsInfo
    ++ flat_map (fun alias => effects (reportLocal alias this)) localOnly /\
  Forall (fun info => completion (_checkRemoteImplementation ledger info this) = inr tt)
    implementationsInfo /\
  Forall (fun alias => completion (reportLocal alias this) = inr tt) localOnly.
Proof.
  revert completed. unfold checkImplementations.
  run_with (fetchOnChainImplementations_run ledger this cached directoryRead
              implementationsScanned).
  fold implementationsInfo. intros Hdone. unfold bind in Hdone |- *.
  destruct (completion (forEach (_checkRemoteImplementation ledger) implementationsInfo this))
    as [e|[]] eqn:Hloop; [discriminate|].
  cbn [effects completion] in Hdone |- *.
  destruct (@forEach_recorder _ (_checkRemoteImplementation ledger) implementationsInfo this
              (fun info _ => checkRemoteImplementation_unchanged info) Hloop)
    as [Hremote [Hafter Hall]].
  rewrite Hremote, Hafter in *.
  unfold _checkUnregisteredLocalImplementations in Hdone |- *.
  fold implementationsInfo in Hdone |- *.
  rewrite (bind_completed _ _ _ (f_equal (@completion _) (getThis_run this))) in Hdone |- *.
  cbn [getThis effects after completion app] in Hdone |- *.
  fold reportLocal localOnly in Hdone |- *.
  destruct (@forEach_recorder _ reportLocal localOnly this
              (fun alias _ => reportLocal_unchanged alias) Hdone)
    as [Hlocal [_ Hall']].
  rewrite Hlocal. auto.
Qed.

Lemma reportLocal_other (alias other : string) :
  other <> alias -> Forall (notAbout alias) (effects (reportLocal other this)).
Proof.
  intros Hne. apply String.eqb_neq in Hne.
  assert (H : behaves (fun _ => True) (notAbout alias) (reportLocal other)).
  { pose proof (notAbout_stable alias). unfold reportLocal.
    behaviour. cbn. now rewrite Hne. }
  now apply H.
Qed.

Lemma checkRemoteImplementation_other_filter (alias : string) (infos : list Info.t) :
  ~ In alias (map Info.alias infos) ->
  filter (isAbout "alias" alias)
    (flat_map (fun info => effects (_checkRemoteImplementation ledger info this)) infos) = [].
Proof.
  intros Hout. apply notAbout_filter, Forall_flat_map, Forall_forall.
  intros info Hin.
  apply (@checkRemoteImplementation_other ledger (fun _ => True) alias info
           (notAbout_stable alias)); [|exact Logic.I].
  intros Heq. apply Hout. apply in_map_iff. now exists info.
Qed.

Lemma reportLocal_other_filter (alias : string) (aliases : list string) :
  ~ In alias aliases ->
  filter (isAbout "alias" alias)
    (flat_map (fun other => effects (reportLocal other this)) aliases) = [].
Proof.
  intros Hout. apply notAbout_filter, Forall_flat_map, Forall_forall.
  intros other Hin. apply reportLocal_other. intros ->. contradiction.
Qed.

Lemma localOnly_In (alias : string) :
  In alias localOnly <->
  In alias (NetworkFile.contractAliases (networkFile this)) /\
  ~ In alias (map Info.alias implementationsInfo).
Proof.
  unfold localOnly. rewrite filter_In, negb_true_iff.
  split; intros [Hin Hout]; split; try assumption.
  - intros H. apply includes_In in H. congruence.
  - destruct (includes _ alias) eqn:E; [|reflexivity].
    apply includes_In in E. contradiction.
Qed.

(** What a completed implementation check says about a contract that is
    registered on the ledger and known to the network file. *)
Lemma known_contract_calls (alias address code : string) (entry : ContractEntry.t) :
  In {| Info.alias := alias; Info.address := address |} implementationsInfo ->
  NetworkFile.hasContract (networkFile this) alias = true ->
  NetworkFile.contract (networkFile this) alias = inr entry ->
  Ledger.getCode ledger address = inr code ->
  let observed := Ledger.bytecodeDigest ledger code in
  filter (isAbout "alias" alias) (effects (checkImplementations ledger this)) =
    (if String.eqb address (ContractEntry.address entry) then []
     else [Visit "onMismatchingContractAddress"
             [JsString (ContractEntry.address entry); JsString address;
              JsObject [("alias", alias); ("address", address)]]])
    ++ (if String.eqb observed (ContractEntry.bodyBytecodeHash entry) then []
        else [Visit "onMismatchingContractBodyBytecode"
                [JsString (ContractEntry.bodyBytecodeHash entry); JsString observed;
                 JsObject [("alias", alias); ("address", address);
                           ("bodyBytecodeHash", observed)]]]).
Proof.
  intros Hin Hknown Hentry Hcode observed.
  destruct checkImplementations_compared as [Heffects _]. rewrite Heffects.
  pose proof (currentImplementations_aliases allEvents) as Hnodup.
  fold implementationsInfo in Hnodup.
  destruct (in_split _ _ Hin) as [before [later Hsplit]].
  rewrite Hsplit in Hnodup |- *.
  rewrite map_app in Hnodup. cbn [map Info.alias] in Hnodup.
  apply NoDup_remove_2 in Hnodup.
  rewrite flat_map_app. cbn [flat_map]. rewrite !filter_app.
  rewrite (checkRemoteImplementation_other_filter alias before)
    by (intros H; apply Hnodup, in_or_app; now left).
  rewrite (checkRemoteImplementation_other_filter alias later)
    by (intros H; apply Hnodup, in_or_app; now right).
  rewrite reportLocal_other_filter.
  2:{ intros H. apply localOnly_In in H as [_ H]. apply H.
      apply in_map_iff. now exists {| Info.alias := alias; Info.address := address |}. }
  cbn [filter app]. rewrite !app_nil_r.
  assert (Hrun : effects (_checkRemoteImplementation ledger
                            {| Info.alias := alias; Info.address := address |} this) =
                 (if String.eqb address (ContractEntry.address entry) then []
                  else [Visit "onMismatchingContractAddress"
                          [JsString (ContractEntry.address entry); JsString address;
                           JsObject [("alias", alias); ("address", address)]]])
                 ++ [Read (GetCode address)]
                 ++ (if String.eqb observed (ContractEntry.bodyBytecodeHash entry) then []
                     else [Visit "onMismatchingContractBodyBytecode"
                             [JsString (ContractEntry.bodyBytecodeHash entry); JsString observed;
                              JsObject [("alias", alias); ("address", address);
                                        ("bodyBytecodeHash", observed)]]])).
  { unfold _checkRemoteImplementation. cbn [Info.alias Info.address].
    run_with (getThis_run this). rewrite Hknown.
    assert (Haddress :
      _checkImplementationAddress alias address this =
      {| effects := if String.eqb address (ContractEntry.address entry) then []
                    else [Visit "onMismatchingContractAddress"
                            [JsString (ContractEntry.address entry); JsString address;
                             JsObject [("alias", alias); ("address", address)]]];
         after := this; completion := inr tt |}).
    { unfold _checkImplementationAddress. run_with (getThis_run this).
      rewrite Hentry. cbn [settled].
      assert (Hret : @ret ContractEntry.t entry this =
                     {| effects := []; after := this; completion := inr entry |})
        by reflexivity.
      run_with Hret. cbn [strictEquals].
      rewrite <- (report_recorder _ _ _ compares).
      destruct (String.eqb address (ContractEntry.address entry)); reflexivity. }
    run_with Haddress. cbn [app]. apply f_equal.
    unfold _checkImplementationBytecode. run_with (getThis_run this).
    rewrite Hentry. cbn [settled].
    assert (Hret : @ret ContractEntry.t entry this =
                   {| effects := []; after := this; completion := inr entry |})
      by reflexivity.
    run_with Hret. run_with (@await_answered this _ (GetCode address) _ _ Hcode).
    cbn [strictEquals]. fold observed.
    destruct (String.eqb observed (ContractEntry.bodyBytecodeHash entry)); cbn [negb].
    - reflexivity.
    - now rewrite (visit_recorder _ _ compares). }
  rewrite Hrun, !filter_app. cbn [filter isAbout].
  destruct (String.eqb address (ContractEntry.address entry));
    destruct (String.eqb observed (ContractEntry.bodyBytecodeHash entry));
    cbn; rewrite ?String.eqb_refl; reflexivity.
Qed.

(** What it says about a contract that only the network file knows. *)
Lemma local_contract_calls (alias : string) (entry : ContractEntry.t) :
  ~ In alias (map Info.alias implementationsInfo) ->
  NetworkFile.contract (networkFile this) alias = inr entry ->
  filter (isAbout "alias" alias) (effects (checkImplementations ledger this)) =
    repeat
      (Visit "onUnregisteredLocalContract"
         [JsString "one"; JsString "none";
          JsObject [("alias", alias); ("address", ContractEntry.address entry)]])
      (count_occ string_dec (NetworkFile.contractAliases (networkFile this)) alias).
Proof.
  intros Hout Hentry.
  destruct checkImplementations_compared as [Heffects _]. rewrite Heffects.
  rewrite !filter_app, (checkRemoteImplementation_other_filter alias _ Hout).
  cbn [filter isAbout app]. unfold localOnly. clear Heffects.
  induction (NetworkFile.contractAliases (networkFile this)) as [|other rest IH];
    [reflexivity|].
  cbn [filter count_occ].
  destruct (string_dec other alias) as [->|Hne].
  - replace (includes (map Info.alias implementationsInfo) alias) with false.
    2:{ symmetry. destruct (includes _ alias) eqn:E; [|reflexivity].
        apply includes_In in E. contradiction. }
    cbn [negb flat_map repeat]. rewrite filter_app, IH. f_equal.
    unfold reportLocal. run_with (getThis_run this). rewrite Hentry. cbn [settled].
    assert (Hret : @ret ContractEntry.t entry this =
                   {| effects := []; after := this; completion := inr entry |})
      by reflexivity.
    run_with Hret. cbn. rewrite String.eqb_refl. reflexivity.
  - destruct (negb _); [|exact IH].
    cbn [flat_map]. rewrite filter_app, IH.
    rewrite (notAbout_filter (reportLocal_other Hne)). reflexivity.
Qed.

End ImplementationsCompared.

(** X7. In a completed implementation check in compare mode, a contract
    that is registered on the ledger and known to the network file gets
    its two checks independently of each other: the visitor calls about
    its alias are [onMismatchingContractAddress] if the registered address
    is not the recorded one, then [onMismatchingContractBodyBytecode] if
    the digest of the code at the registered address is not the recorded
    hash, and nothing else. The code that is hashed is always the one at
    the address registered on the ledger. *)
Theorem known_contract_address_and_bytecode
    (ledger : Ledger.t) (this : StatusChecker) (handle : Project.t) (directory : Directory.t)
    (allEvents : list Event.t) (alias address code : string) (entry : ContractEntry.t) :
  recorder this ->
  _project this = Some handle ->
  Project.getCurrentDirectory handle = inr directory ->
  Ledger.EventsFilter_call ledger (Directory.contract directory) "ImplementationChanged"
    = inr allEvents ->
  completion (checkImplementations ledger this) = inr tt ->
  In {| Info.alias := alias; Info.address := address |} (currentImplementations allEvents) ->
  NetworkFile.hasContract (networkFile this) alias = true ->
  NetworkFile.contract (networkFile this) alias = inr entry ->
  Ledger.getCode ledger address = inr code ->
  let observed := Ledger.bytecodeDigest ledger code in
  filter (isAbout "alias" alias) (effects (checkImplementations ledger this)) =
    (if String.eqb address (ContractEntry.address entry) then []
     else [Visit "onMismatchingContractAddress"
             [JsString (ContractEntry.address entry); JsString address;
              JsObject [("alias", alias); ("address", address)]]])
    ++ (if String.eqb observed (ContractEntry.bodyBytecodeHash entry) then []
        else [Visit "onMismatchingContractBodyBytecode"
                [JsString (ContractEntry.bodyBytecodeHash entry); JsString observed;
                 JsObject [("alias", alias); ("address", address);
                           ("bodyBytecodeHash", observed)]]]).
Proof.
  intros Hrecorder Hcache Hdir Hscan Hdone Hin Hknown Hentry Hcode.
  exact (@known_contract_calls ledger this handle directory allEvents Hrecorder Hcache
           Hdir Hscan Hdone alias address code entry Hin Hknown Hentry Hcode).
Qed.

(** On the example app, for Token: its address and its code have changed. *)
Lemma known_contract_address_and_bytecode_witness :
  let ledger := Example.ledger [] in
  let this := withProject (compare Example.appFile []) Example.handle in
  let observed := Ledger.bytecodeDigest ledger "code at 0xa2" in
  filter (isAbout "alias" "Token") (effects (checkImplementations ledger this)) =
    (if String.eqb "0xa2" "0xa1" then []
     else [Visit "onMismatchingContractAddress"
             [JsString "0xa1"; JsString "0xa2";
              JsObject [("alias", "Token"); ("address", "0xa2")]]])
    ++ (if String.eqb observed "h1" then []
        else [Visit "onMismatchingContractBodyBytecode"
                [JsString "h1"; JsString observed;
                 JsObject [("alias", "Token"); ("address", "0xa2");
                           ("bodyBytecodeHash", observed)]]]).
Proof.
  apply (@known_contract_address_and_bytecode (Example.ledger [])
           (withProject (compare Example.appFile []) Example.handle)
           Example.handle Example.directory Example.implementationEvents
           "Token" "0xa2" "code at 0xa2"
           {| ContractEntry.address := "0xa1"; ContractEntry.bodyBytecodeHash := "h1" |});
    try reflexivity.
  - intros method arguments nf. reflexivity.
  - vm_compute. tauto.
Defined.

(** X8. In a completed implementation check in compare mode, a contract
    that the network file lists and that is not in the reconciled set
    (never registered, or unregistered since) gets
    [onUnregisteredLocalContract('one', 'none', {alias, address})], with
    its recorded address, once for each time the network file lists its
    alias, and no other visitor call is about it. *)
Theorem local_only_contract_is_reported
    (ledger : Ledger.t) (this : StatusChecker) (handle : Project.t) (directory : Directory.t)
    (allEvents : list Event.t) (alias : string) (entry : ContractEntry.t) :
  recorder this ->
  _project this = Some handle ->
  Project.getCurrentDirectory handle = inr directory ->
  Ledger.EventsFilter_call ledger (Directory.contract directory) "ImplementationChanged"
    = inr allEvents ->
  completion (checkImplementations ledger this) = inr tt ->
  ~ In alias (map Info.alias (currentImplementations allEvents)) ->
  NetworkFile.contract (networkFile this) alias = inr entry ->
  filter (isAbout "alias" alias) (effects (checkImplementations ledger this)) =
    repeat
      (Visit "onUnregisteredLocalContract"
         [JsString "one"; JsString "none";
          JsObject [("alias", alias); ("address", ContractEntry.address entry)]])
      (count_occ string_dec (NetworkFile.contractAliases (networkFile this)) alias).
Proof.
  intros Hrecorder Hcache Hdir Hscan Hdone Hout Hentry.
  exact (@local_contract_calls ledger this handle directory allEvents Hrecorder Hcache
           Hdir Hscan Hdone alias entry Hout Hentry).
Qed.

(** On the example app when it still lists Old. *)
Lemma local_only_contract_is_reported_witness :
  let ledger := Example.ledger [] in
  let this := withProject (compare Example.staleFile []) Example.handle in
  filter (isAbout "alias" "Old") (effects (checkImplementations ledger this)) =
    repeat
      (Visit "onUnregisteredLocalContract"
         [JsString "one"; JsString "none";
          JsObject [("alias", "Old"); ("address", "0xdd")]])
      (count_occ string_dec (NetworkFile.contractAliases (networkFile this)) "Old").
Proof.
  apply (@local_only_contract_is_reported (Example.ledger [])
           (withProject (compare Example.staleFile []) Example.handle)
           Example.handle Example.directory Example.implementationEvents
           "Old" {| ContractEntry.address := "0xdd"; ContractEntry.bodyBytecodeHash := "h0" |});
    try reflexivity.
  - intros method arguments nf. reflexivity.
  - vm_compute. intuition congruence.
Defined.

(** ** Compare mode: the proxies *)

Section ProxiesCompared.

Variable ledger : Ledger.t.
Variable this : StatusChecker.
Variable handle : Project.t.
Variable directory : Directory.t.
Variables allEvents proxyEvents : list Event.t.

Hypothesis compares : recorder this.
Hypothesis cached : _project this = Some handle.
Hypothesis directoryRead : Project.getCurrentDirectory handle = inr directory.
Hypothesis implementationsScanned :
  Ledger.EventsFilter_call ledger (Directory.contract directory) "ImplementationChanged"
    = inr allEvents.
Hypothesis proxiesScanned :
  Ledger.EventsFilter_call ledger (Project.factory handle) "ProxyCreated" = inr proxyEvents.
Hypothesis answered :
  Forall (fun task => exists implementation, snd task = inr implementation)
    (tasksOf handle proxyEvents).

Let implementationsInfo := currentImplementations allEvents.
Let tasks := tasksOf handle proxyEvents.
Let order := settleOrder (length proxyEvents) (Ledger.settling ledger) tasks.
Let pushed := flat_map (pushesOf implementationsInfo) order.
Let locals := NetworkFile.proxiesList (networkFile this).

Let metadata (proxy : Proxy.t) : JsValue :=
  JsObject [("alias", Proxy.alias proxy); ("address", Proxy.address proxy);
            ("implementation", Proxy.implementation proxy)].

(** The calls of [_checkRemoteProxy] for one proxy returned by the fetch. *)
Let remoteCalls (info : Proxy.t) : list Effect :=
  match find (fun proxy => String.eqb (Proxy.address proxy) (Proxy.address info)) locals with
  | Some local =>
      (if String.eqb (Proxy.alias info) (Proxy.alias local) then []
       else [Visit "onMismatchingProxyAlias"
               [JsString (Proxy.alias local); JsString (Proxy.alias info); metadata info]])
      ++ (if String.eqb (Proxy.implementation info) (Proxy.implementation local) then []
          else [Visit "onMismatchingProxyImplementation"
                  [JsString (Proxy.implementation local);
                   JsString (Proxy.implementation info); metadata info]])
  | None => [Visit "onMissingRemoteProxy" [JsString "none"; JsString "one"; metadata info]]
  end.

Let localCall (proxy : Proxy.t) : Effect :=
  Visit "onUnregisteredLocalProxy" [JsString "one"; JsString "none"; metadata proxy].

Lemma checkRemoteProxy_compared (info : Proxy.t) :
  _checkRemoteProxy info this =
  {| effects := remoteCalls info; after := this; completion := inr tt |}.
Proof.
  unfold _checkRemoteProxy, remoteCalls. run_with (getThis_run this). fold locals.
  destruct (find _ locals) as [local|]; [|now apply visit_recorder].
  unfold _checkProxyAlias, _checkProxyImplementation. cbn [strictEquals].
  assert (Halias : forall (equal : bool) method arguments,
             (if negb equal then visit method arguments else ret tt) this =
             {| effects := if equal then [] else [Visit method arguments];
                after := this; completion := inr tt |}).
  { intros [|] method arguments; [reflexivity | now apply visit_recorder]. }
  run_with (Halias (String.eqb (Proxy.alias info) (Proxy.alias local))
              "onMismatchingProxyAlias"
              [JsString (Proxy.alias local); JsString (Proxy.alias info);
               JsObject [("alias", Proxy.alias info); ("address", Proxy.address info);
                         ("implementation", Proxy.implementation info)]]).
  rewrite Halias. reflexivity.
Qed.

Lemma forEach_compared {A : Type} (f : A -> M unit) (calls : A -> list Effect) (xs : list A) :
  (forall x, f x this = {| effects := calls x; after := this; completion := inr tt |}) ->
  forEach f xs this =
  {| effects := flat_map calls xs; after := this; completion := inr tt |}.
Proof.
  intros Hf. induction xs as [|x rest IH]; [reflexivity|].
  cbn [forEach flat_map]. run_with (Hf x). now rewrite IH.
Qed.

Lemma fetchOnChainProxies_unchanged : after (_fetchOnChainProxies ledger this) = this.
Proof.
  pose proof (unchanged_stable compares cached) as Hstable.
  assert (H : behaves (fun that => that = this) (fun _ => True) (_fetchOnChainProxies ledger)).
  { unfold _fetchOnChainProxies, _fetchOnChainImplementations,
      requestImplementation, resumeWithImplementation.
    behaviour; intros; exact Logic.I. }
  now apply H.
Qed.

(** The trace of the proxy check in compare mode. *)
Lemma checkProxies_compared :
  effects (checkProxies ledger this) =
    ([Read GetCurrentDirectory;
      Read (ScanEvents (Directory.contract directory) "ImplementationChanged");
      Read (ScanEvents (Project.factory handle) "ProxyCreated")]
     ++ map (fun event => Read (GetProxyImplementation (Event.proxy (Event.args event))))
          proxyEvents
     ++ flat_map (visitsOf implementationsInfo) order)
    ++ flat_map remoteCalls pushed
    ++ map localCall
         (filter (fun proxy => negb (includes (map Proxy.address pushed) (Proxy.address proxy)))
            locals) /\
  completion (checkProxies ledger this) = inr tt.
Proof.
  destruct (fetchOnChainProxies_run ledger this cached directoryRead implementationsScanned
              proxiesScanned answered) as [Heffects Hpushed].
  fold implementationsInfo tasks order pushed in Heffects, Hpushed.
  unfold checkProxies. rewrite (bind_completed _ _ _ Hpushed).
  rewrite fetchOnChainProxies_unchanged, Heffects. cbn [effects completion].
  run_with (forEach_compared _checkRemoteProxy remoteCalls pushed checkRemoteProxy_compared).
  unfold _checkUnregisteredLocalProxies. run_with (getThis_run this). fold locals.
  rewrite (forEach_compared _ (fun proxy => [localCall proxy]) _
             (fun proxy => visit_recorder _ _ compares)).
  cbn [effects completion app]. split; [|reflexivity].
  assert (Hsingle : forall kept : list Proxy.t,
             flat_map (fun proxy => [localCall proxy]) kept = map localCall kept).
  { induction kept as [|proxy rest IH]; [reflexivity|]. cbn. now rewrite IH. }
  rewrite <- Hsingle, <- !app_assoc. reflexivity.
Qed.

Lemma pushed_Permutation :
  Permutation pushed (flat_map (pushesOf implementationsInfo) tasks).
Proof. apply Permutation_flat_map, order_Permutation. Qed.

(** The fetch returns a proxy address exactly when the proxy was created
    and its implementation matches one entry of the reconciled set. *)
Lemma pushed_address (address : string) :
  In address (map Proxy.address pushed) <->
  exists implementation first,
    In address (map (fun event => Event.proxy (Event.args event)) proxyEvents) /\
    Project.getProxyImplementation handle address = inr implementation /\
    filter (fun info => String.eqb (Info.address info) implementation) implementationsInfo
      = [first].
Proof.
  split.
  - intros Hin. apply in_map_iff in Hin as [info [Haddress Hin]].
    apply (Permutation_in _ pushed_Permutation) in Hin.
    apply in_flat_map in Hin as [[proxy answer] [Htask Hpushed]].
    unfold tasks, tasksOf in Htask. apply in_map_iff in Htask as [event [Heq Hevent]].
    injection Heq as Hproxy Hanswer.
    unfold pushesOf, taskPushes in Hpushed. cbn [fst snd] in Hpushed.
    destruct answer as [e|implementation]; [contradiction|].
    destruct (filter _ implementationsInfo) as [|first [|second more]] eqn:Hmatch;
      try contradiction.
    destruct Hpushed as [<-|[]]. cbn [Proxy.address] in Haddress. subst proxy.
    exists implementation, first.
    split; [apply in_map_iff; now exists event|]. rewrite <- Hproxy. split; assumption.
  - intros [implementation [first [Hcreated [Hanswer Hmatch]]]].
    apply in_map_iff in Hcreated as [event [Hproxy Hevent]].
    apply in_map_iff.
    exists {| Proxy.alias := Info.alias first; Proxy.address := address;
              Proxy.implementation := implementation |}.
    split; [reflexivity|].
    apply (Permutation_in _ (Permutation_sym pushed_Permutation)).
    apply in_flat_map. exists (address, inr implementation). split.
    + unfold tasks, tasksOf. apply in_map_iff. exists event.
      now rewrite Hproxy, Hanswer.
    + unfold pushesOf, taskPushes. cbn [fst snd]. rewrite Hmatch. now left.
Qed.

(** The calls of a hook of the checks that follow the fetch, about one
    proxy address. *)
Lemma checkProxies_count_compared (method address : string) :
  ~ In method ["onUnregisteredProxyImplementation"; "onMultipleProxyImplementations"] ->
  count (isVisitAbout method "address" address) (effects (checkProxies ledger this)) =
    count (isVisitAbout method "address" address)
      (flat_map remoteCalls (flat_map (pushesOf implementationsInfo) tasks))
    + count (isVisitAbout method "address" address)
        (map localCall
           (filter (fun proxy => negb (includes (map Proxy.address pushed)
                                         (Proxy.address proxy)))
              locals)).
Proof.
  intros Hmethod. destruct checkProxies_compared as [Heffects _].
  rewrite Heffects, !count_app.
  replace (count (isVisitAbout method "address" address)
             [Read GetCurrentDirectory;
              Read (ScanEvents (Directory.contract directory) "ImplementationChanged");
              Read (ScanEvents (Project.factory handle) "ProxyCreated")]) with 0
    by reflexivity.
  rewrite (reads_count (isVisitAbout method "address" address)
             (fun event => GetProxyImplementation (Event.proxy (Event.args event)))
             proxyEvents (isVisitAbout_Read _ _ _)).
  rewrite (count_Permutation _
             (Permutation_flat_map (visitsOf implementationsInfo)
                (order_Permutation ledger handle proxyEvents))).
  fold tasks. unfold tasks at 1.
  rewrite (tasks_count_method handle implementationsInfo "address" address proxyEvents
             Hmethod).
  cbn [Nat.add]. f_equal.
  apply count_Permutation, Permutation_flat_map, pushed_Permutation.
Qed.

Lemma localCalls_count (address : string) (found : list string) (proxies : list Proxy.t) :
  count (isVisitAbout "onUnregisteredLocalProxy" "address" address)
    (map localCall
       (filter (fun proxy => negb (includes found (Proxy.address proxy))) proxies)) =
  if includes found address then 0
  else count (fun proxy => String.eqb (Proxy.address proxy) address) proxies.
Proof.
  assert (Hhead : forall proxy,
             isVisitAbout "onUnregisteredLocalProxy" "address" address (localCall proxy)
             = String.eqb (Proxy.address proxy) address).
  { intros proxy. unfold localCall, metadata. cbn. apply orb_false_r. }
  induction proxies as [|proxy rest IH].
  - now destruct (includes found address).
  - unfold count in *. cbn [filter].
    destruct (includes found (Proxy.address proxy)) eqn:Hfound; cbn [negb map filter].
    + destruct (String.eqb (Proxy.address proxy) address) eqn:Heq; [|exact IH].
      apply String.eqb_eq in Heq. subst address. rewrite Hfound in *. exact IH.
    + rewrite Hhead.
      destruct (String.eqb (Proxy.address proxy) address) eqn:Heq; [|exact IH].
      apply String.eqb_eq in Heq. subst address. rewrite Hfound in *.
      cbn [length]. now rewrite IH.
Qed.

Lemma remoteCalls_method (method key value : string) (infos : list Proxy.t) :
  ~ In method ["onMissingRemoteProxy"; "onMismatchingProxyAlias";
               "onMismatchingProxyImplementation"] ->
  count (isVisitAbout method key value) (flat_map remoteCalls infos) = 0.
Proof.
  intros Hmethod. apply count_none, Forall_flat_map, Forall_forall. intros info _.
  unfold remoteCalls.
  destruct (find _ locals) as [local|].
  - apply Forall_app. split;
      [destruct (String.eqb (Proxy.alias info) _)
      | destruct (String.eqb (Proxy.implementation info) _)];
      repeat constructor; unfold isVisitAbout;
      apply andb_false_iff; left; apply String.eqb_neq; intros <-;
      apply Hmethod; cbn [In]; auto.
  - repeat constructor. unfold isVisitAbout.
    apply andb_false_iff; left; apply String.eqb_neq; intros <-;
      apply Hmethod; cbn [In]; auto.
Qed.

Lemma localCalls_method (method key value : string) (proxies : list Proxy.t) :
  method <> "onUnregisteredLocalProxy" ->
  count (isVisitAbout method key value) (map localCall proxies) = 0.
Proof.
  intros Hmethod. apply count_none, Forall_forall. intros e He.
  apply in_map_iff in He as [proxy [<- _]]. unfold localCall, isVisitAbout.
  apply andb_false_iff. left. apply String.eqb_neq. congruence.
Qed.

(** The checks of the proxies returned by the fetch, about one address:
    as many times the calls for that proxy as it has "proxy created"
    events. *)
Lemma remoteCalls_count (method address implementation : string) (first : Info.t)
    (events : list Event.t) :
  Project.getProxyImplementation handle address = inr implementation ->
  filter (fun info => String.eqb (Info.address info) implementation) implementationsInfo
    = [first] ->
  count (isVisitAbout method "address" address)
    (flat_map remoteCalls (flat_map (pushesOf implementationsInfo) (tasksOf handle events))) =
  count_occ string_dec (map (fun event => Event.proxy (Event.args event)) events) address
  * count (isVisitAbout method "address" address)
      (remoteCalls {| Proxy.alias := Info.alias first; Proxy.address := address;
                      Proxy.implementation := implementation |}).
Proof.
  intros Hanswer Hmatch.
  induction events as [|event rest IH]; [reflexivity|].
  cbn [tasksOf map flat_map count_occ]. fold (tasksOf handle rest).
  rewrite flat_map_app, count_app, IH. clear IH.
  unfold pushesOf at 1. cbn [fst snd].
  destruct (string_dec (Event.proxy (Event.args event)) address) as [Heq|Hne].
  - rewrite Heq, Hanswer. unfold taskPushes. rewrite Hmatch. cbn [flat_map].
    rewrite app_nil_r. lia.
  - replace (count _ (flat_map remoteCalls _)) with 0; [reflexivity|].
    symmetry. apply count_none, Forall_flat_map, Forall_forall. intros info Hinfo.
    assert (Haddress : String.eqb (Proxy.address info) address = false).
    { apply String.eqb_neq.
      destruct (Project.getProxyImplementation handle (Event.proxy (Event.args event)))
        as [e|current]; [contradiction|].
      unfold taskPushes in Hinfo.
      destruct (filter (fun info => String.eqb (Info.address info) current)
                  implementationsInfo) as [|one [|two more]]; try contradiction.
      destruct Hinfo as [<-|[]]. exact Hne. }
    unfold remoteCalls. destruct (find _ locals) as [local|].
    + apply Forall_app. split;
        [destruct (String.eqb (Proxy.alias info) _)
        | destruct (String.eqb (Proxy.implementation info) _)];
        repeat constructor; unfold isVisitAbout, metadata; cbn [about existsb property];
        cbn; rewrite Haddress; apply andb_false_r.
    + repeat constructor. unfold isVisitAbout, metadata. cbn. rewrite Haddress.
      apply andb_false_r.
Qed.

(** The calls of [_checkUnregisteredLocalProxies] about one address. *)
Lemma local_proxy_calls (address : string) :
  count (isVisitAbout "onUnregisteredLocalProxy" "address" address)
    (effects (checkProxies ledger this)) =
  match Project.getProxyImplementation handle address with
  | inr implementation =>
      if includes (map (fun event => Event.proxy (Event.args event)) proxyEvents) address
         && Nat.eqb (length (filter (fun info => String.eqb (Info.address info) implementation)
                               (currentImplementations allEvents))) 1
      then 0
      else count (fun proxy => String.eqb (Proxy.address proxy) address)
             (NetworkFile.proxiesList (networkFile this))
  | inl _ =>
      count (fun proxy => String.eqb (Proxy.address proxy) address)
        (NetworkFile.proxiesList (networkFile this))
  end.
Proof.
  rewrite checkProxies_count_compared
    by (cbn [In]; intros [H|[H|[]]]; discriminate H).
  rewrite remoteCalls_method
    by (cbn [In]; intros [H|[H|[H|[]]]]; discriminate H).
  rewrite localCalls_count. cbn [Nat.add]. fold locals implementationsInfo.
  destruct (includes (map Proxy.address pushed) address) eqn:Hfound.
  - apply includes_In, pushed_address in Hfound
      as [implementation [first [Hcreated [Hanswer Hmatch]]]].
    apply includes_In in Hcreated. rewrite Hanswer, Hcreated, Hmatch. reflexivity.
  - destruct (Project.getProxyImplementation handle address) as [e|implementation] eqn:Hanswer;
      [reflexivity|].
    destruct (includes (map (fun event => Event.proxy (Event.args event)) proxyEvents) address)
      eqn:Hcreated; [|reflexivity].
    destruct (filter (fun info => String.eqb (Info.address info) implementation)
                implementationsInfo) as [|first [|second more]] eqn:Hmatch; try reflexivity.
    exfalso. apply includes_In in Hcreated.
    assert (Hin : In address (map Proxy.address pushed)).
    { apply pushed_address. exists implementation, first. auto. }
    apply includes_In in Hin. congruence.
Qed.

(** The calls of [_checkRemoteProxy] about the address of a proxy whose
    implementation matches one entry of the reconciled set. *)
Lemma matched_proxy_calls (address implementation : string) (first : Info.t) :
  Project.getProxyImplementation handle address = inr implementation ->
  filter (fun info => String.eqb (Info.address info) implementation)
    (currentImplementations allEvents) = [first] ->
  let created :=
    count_occ string_dec (map (fun event => Event.proxy (Event.args event)) proxyEvents)
      address in
  let calls method :=
    count (isVisitAbout method "address" address) (effects (checkProxies ledger this)) in
  match find (fun proxy => String.eqb (Proxy.address proxy) address)
          (NetworkFile.proxiesList (networkFile this)) with
  | None =>
      calls "onMissingRemoteProxy" = created /\
      calls "onMismatchingProxyAlias" = 0 /\
      calls "onMismatchingProxyImplementation" = 0
  | Some local =>
      calls "onMissingRemoteProxy" = 0 /\
      calls "onMismatchingProxyAlias" =
        (if String.eqb (Info.alias first) (Proxy.alias local) then 0 else created) /\
      calls "onMismatchingProxyImplementation" =
        (if String.eqb implementation (Proxy.implementation local) then 0 else created)
  end.
Proof.
  intros Hanswer Hmatch created calls.
  assert (Hcalls : forall method,
             ~ In method ["onUnregisteredProxyImplementation"; "onMultipleProxyImplementations"] ->
             method <> "onUnregisteredLocalProxy" ->
             calls method =
             created * count (isVisitAbout method "address" address)
                         (remoteCalls {| Proxy.alias := Info.alias first;
                                         Proxy.address := address;
                                         Proxy.implementation := implementation |})).
  { intros method Hfan Hlocal. unfold calls.
    rewrite (@checkProxies_count_compared method address Hfan).
    rewrite (@localCalls_method method "address" address _ Hlocal).
    unfold tasks.
    now rewrite (@remoteCalls_count method address implementation first proxyEvents
                   Hanswer Hmatch), Nat.add_0_r. }
  rewrite !Hcalls
    by (try (cbn [In]; intros [H|[H|[]]]; discriminate H); intros H; discriminate H).
  unfold remoteCalls. cbn [Proxy.alias Proxy.address Proxy.implementation]. fold locals.
  destruct (find _ locals) as [local|].
  - destruct (String.eqb (Info.alias first) (Proxy.alias local));
      destruct (String.eqb implementation (Proxy.implementation local));
      unfold count, metadata; cbn; rewrite ?String.eqb_refl; cbn; repeat split; lia.
  - unfold count, metadata. cbn. rewrite ?String.eqb_refl. cbn. repeat split; lia.
Qed.

End ProxiesCompared.

(** X9. In a proxy check in compare mode whose ledger reads are all
    answered, [onUnregisteredLocalProxy] is called about an address once
    for each proxy the network file lists there, unless the address has a
    "proxy created" event and the implementation the ledger gives for it
    is the address of exactly one entry of the reconciled set, in which
    case it is not called about it. A listed proxy whose on-chain
    implementation is unregistered or ambiguous is so reported as missing
    from the chain. *)
Theorem local_only_proxy_is_reported
    (ledger : Ledger.t) (this : StatusChecker) (handle : Project.t) (directory : Directory.t)
    (allEvents proxyEvents : list Event.t) (address : string) :
  recorder this ->
  _project this = Some handle ->
  Project.getCurrentDirectory handle = inr directory ->
  Ledger.EventsFilter_call ledger (Directory.contract directory) "ImplementationChanged"
    = inr allEvents ->
  Ledger.EventsFilter_call ledger (Project.factory handle) "ProxyCreated" = inr proxyEvents ->
  Forall (fun task => exists implementation, snd task = inr implementation)
    (tasksOf handle proxyEvents) ->
  let listed :=
    count (fun proxy => String.eqb (Proxy.address proxy) address)
      (NetworkFile.proxiesList (networkFile this)) in
  count (isVisitAbout "onUnregisteredLocalProxy" "address" address)
    (effects (checkProxies ledger this)) =
  match Project.getProxyImplementation handle address with
  | inr implementation =>
      if includes (map (fun event => Event.proxy (Event.args event)) proxyEvents) address
         && Nat.eqb (length (filter (fun info => String.eqb (Info.address info) implementation)
                               (currentImplementations allEvents))) 1
      then 0
      else listed
  | inl _ => listed
  end.
Proof.
  intros Hrecorder Hcache Hdir Hscan Hproxies Hanswered.
  exact (@local_proxy_calls ledger this handle directory allEvents proxyEvents Hrecorder
           Hcache Hdir Hscan Hproxies Hanswered address).
Qed.

(** On the example app, the proxy at 0xp2 was created and is listed, and
    runs the code that Vault and Bank share: it is reported as local only. *)
Lemma local_only_proxy_is_reported_witness :
  let ledger := Example.ledger [2; 0] in
  let this := withProject (compare Example.appFile []) Example.handle in
  count (isVisitAbout "onUnregisteredLocalProxy" "address" "0xp2")
    (effects (checkProxies ledger this)) = 1.
Proof.
  apply (@local_only_proxy_is_reported (Example.ledger [2; 0])
           (withProject (compare Example.appFile []) Example.handle)
           Example.handle Example.directory Example.implementationEvents
           Example.proxyEvents "0xp2");
    try reflexivity.
  - intros method arguments nf. reflexivity.
  - repeat constructor; cbn; eexists; reflexivity.
Defined.

(** X10. In a proxy check in compare mode whose ledger reads are all
    answered, take a proxy address whose implementation on the ledger is
    the address of exactly one entry of the reconciled set. If the network
    file lists no proxy at that address, [onMissingRemoteProxy] is called
    about it once for each of its "proxy created" events and the two
    mismatch hooks are not. Otherwise it is compared with the first proxy
    listed at that address: [onMismatchingProxyAlias] is called, once for
    each such event, exactly when the alias of the matching entry is not
    the listed alias, [onMismatchingProxyImplementation] exactly when the
    implementation on the ledger is not the listed one, and
    [onMissingRemoteProxy] is not called. *)
Theorem matched_proxy_is_compared
    (ledger : Ledger.t) (this : StatusChecker) (handle : Project.t) (directory : Directory.t)
    (allEvents proxyEvents : list Event.t) (address implementation : string)
    (first : Info.t) :
  recorder this ->
  _project this = Some handle ->
  Project.getCurrentDirectory handle = inr directory ->
  Ledger.EventsFilter_call ledger (Directory.contract directory) "ImplementationChanged"
    = inr allEvents ->
  Ledger.EventsFilter_call ledger (Project.factory handle) "ProxyCreated" = inr proxyEvents ->
  Forall (fun task => exists implementation, snd task = inr implementation)
    (tasksOf handle proxyEvents) ->
  Project.getProxyImplementation handle address = inr implementation ->
  filter (fun info => String.eqb (Info.address info) implementation)
    (currentImplementations allEvents) = [first] ->
  let created :=
    count_occ string_dec (map (fun event => Event.proxy (Event.args event)) proxyEvents)
      address in
  let calls method :=
    count (isVisitAbout method "address" address) (effects (checkProxies ledger this)) in
  match find (fun proxy => String.eqb (Proxy.address proxy) address)
          (NetworkFile.proxiesList (networkFile this)) with
  | None =>
      calls "onMissingRemoteProxy" = created /\
      calls "onMismatchingProxyAlias" = 0 /\
      calls "onMismatchingProxyImplementation" = 0
  | Some local =>
      calls "onMissingRemoteProxy" = 0 /\
      calls "onMismatchingProxyAlias" =
        (if String.eqb (Info.alias first) (Proxy.alias local) then 0 else created) /\
      calls "onMismatchingProxyImplementation" =
        (if String.eqb implementation (Proxy.implementation local) then 0 else created)
  end.
Proof.
  intros Hrecorder Hcache Hdir Hscan Hproxies Hanswered Hanswer Hmatch.
  exact (@matched_proxy_calls ledger this handle directory allEvents proxyEvents Hrecorder
           Hcache Hdir Hscan Hproxies Hanswered address implementation first Hanswer Hmatch).
Qed.

(** On the example app, the proxy at 0xp4 runs Token and is not listed. *)
Lemma matched_proxy_is_compared_witness :
  let ledger := Example.ledger [3; 1] in
  let this := withProject (compare Example.appFile []) Example.handle in
  let calls method :=
    count (isVisitAbout method "address" "0xp4") (effects (checkProxies ledger this)) in
  calls "onMissingRemoteProxy" = 1 /\
  calls "onMismatchingProxyAlias" = 0 /\
  calls "onMismatchingProxyImplementation" = 0.
Proof.
  apply (@matched_proxy_is_compared (Example.ledger [3; 1])
           (withProject (compare Example.appFile []) Example.handle)
           Example.handle Example.directory Example.implementationEvents
           Example.proxyEvents "0xp4" "0xa2"
           {| Info.alias := "Token"; Info.address := "0xa2" |});
    try reflexivity.
  - intros method arguments nf. reflexivity.
  - repeat constructor; cbn; eexists; reflexivity.
Defined.

(** ** A deployment in sync with its network file *)

Lemma replay_quiet (v : Visitor) (trace : list Effect) (nf : NetworkFile.t) :
  Forall (fun e => isVisit e = false) trace -> replay v trace nf = nf.
Proof.
  induction 1 as [|[r|line|method arguments] rest He _ IH]; cbn [replay]; auto.
  discriminate He.
Qed.

Lemma outcome_eq {A : Type} (o : Outcome A) (trace : list Effect) (that : StatusChecker)
    (c : result A) :
  effects o = trace -> after o = that -> completion o = c ->
  o = {| effects := trace; after := that; completion := c |}.
Proof. destruct o. cbn. intros -> -> ->. reflexivity. Qed.

Lemma forEach_quiet {A : Type} (f : A -> M unit) (calls : A -> list Effect) (xs : list A)
    (this : StatusChecker) :
  (forall x, In x xs ->
     f x this = {| effects := calls x; after := this; completion := inr tt |}) ->
  forEach f xs this =
  {| effects := flat_map calls xs; after := this; completion := inr tt |}.
Proof.
  induction xs as [|x rest IH]; intros Hf; [reflexivity|].
  cbn [forEach flat_map]. run_with (Hf x (or_introl eq_refl)).
  now rewrite (IH (fun y Hy => Hf y (or_intror Hy))).
Qed.

Lemma flat_map_none {A B : Type} (f : A -> list B) (xs : list A) :
  (forall x, In x xs -> f x = []) -> flat_map f xs = [].
Proof.
  induction xs as [|x rest IH]; intros Hf; [reflexivity|].
  cbn [flat_map]. rewrite (Hf x (or_introl eq_refl)). apply IH.
  intros y Hy. apply Hf. now right.
Qed.

Lemma fetchOnChainProxies_writes (ledger : Ledger.t) :
  writesThroughVisitor (_fetchOnChainProxies ledger).
Proof.
  unfold _fetchOnChainProxies, _fetchOnChainImplementations,
    requestImplementation, resumeWithImplementation, project, theProject.
  writes.
Qed.

Lemma fetchOnChainProxies_keeps_project (ledger : Ledger.t) (handle : Project.t) :
  behaves (hasProject handle) (fun _ => True) (_fetchOnChainProxies ledger).
Proof.
  pose proof (hasProject_stable handle) as Hstable.
  unfold _fetchOnChainProxies, _fetchOnChainImplementations,
    requestImplementation, resumeWithImplementation.
  behaviour; intros; exact Logic.I.
Qed.

Lemma checkImplementationAddress_run (alias address : string) (that : StatusChecker) :
  _checkImplementationAddress alias address that =
  match NetworkFile.contract (networkFile that) alias with
  | inl e => {| effects := []; after := that; completion := inl e |}
  | inr entry =>
      if String.eqb address (ContractEntry.address entry) then ret tt that
      else visit "onMismatchingContractAddress"
             [JsString (ContractEntry.address entry); JsString address;
              JsObject [("alias", alias); ("address", address)]] that
  end.
Proof.
  unfold _checkImplementationAddress. run_with (getThis_run that).
  destruct (NetworkFile.contract (networkFile that) alias) as [e|entry]; [reflexivity|].
  cbn [settled strictEquals].
  assert (Hret : @ret ContractEntry.t entry that =
                 {| effects := []; after := that; completion := inr entry |})
    by reflexivity.
  run_with Hret.
  destruct (String.eqb address (ContractEntry.address entry)); reflexivity.
Qed.

Lemma checkImplementationBytecode_run (ledger : Ledger.t) (alias address : string)
    (that : StatusChecker) :
  _checkImplementationBytecode ledger alias address that =
  match NetworkFile.contract (networkFile that) alias with
  | inl e => {| effects := []; after := that; completion := inl e |}
  | inr entry =>
      match Ledger.getCode ledger address with
      | inl e => {| effects := [Read (GetCode address)]; after := that; completion := inl e |}
      | inr code =>
          let observed := Ledger.bytecodeDigest ledger code in
          afterReads [Read (GetCode address)]
            (if String.eqb observed (ContractEntry.bodyBytecodeHash entry) then ret tt that
             else visit "onMismatchingContractBodyBytecode"
                    [JsString (ContractEntry.bodyBytecodeHash entry); JsString observed;
                     JsObject [("alias", alias); ("address", address);
                               ("bodyBytecodeHash", observed)]] that)
      end
  end.
Proof.
  unfold _checkImplementationBytecode. run_with (getThis_run that).
  destruct (NetworkFile.contract (networkFile that) alias) as [e|entry]; [reflexivity|].
  cbn [settled].
  assert (Hret : @ret ContractEntry.t entry that =
                 {| effects := []; after := that; completion := inr entry |})
    by reflexivity.
  run_with Hret.
  destruct (Ledger.getCode ledger address) as [e|code] eqn:Hcode.
  - unfold await, launch, emit, bind, settled, ret, throw. cbn. reflexivity.
  - run_with (@await_answered that _ (GetCode address) _ _ (eq_refl (inr code))).
    cbn [strictEquals app]. cbv zeta. unfold afterReads.
    destruct (String.eqb (Ledger.bytecodeDigest ledger code)
                (ContractEntry.bodyBytecodeHash entry)); reflexivity.
Qed.

Section InSync.

Variable ledger : Ledger.t.
Variable this : StatusChecker.
Variable handle : Project.t.
Variable directory : Directory.t.
Variable currentStdlib : string.
Variables allEvents proxyEvents : list Event.t.

Hypothesis cached : _project this = Some handle.
Hypothesis directoryRead : Project.getCurrentDirectory handle = inr directory.
Hypothesis stdlibRead : Project.currentStdlib handle = inr currentStdlib.
Hypothesis implementationsScanned :
  Ledger.EventsFilter_call ledger (Directory.contract directory) "ImplementationChanged"
    = inr allEvents.
Hypothesis proxiesScanned :
  Ledger.EventsFilter_call ledger (Project.factory handle) "ProxyCreated" = inr proxyEvents.

Let nf := networkFile this.
Let implementationsInfo := currentImplementations allEvents.
Let locals := NetworkFile.proxiesList nf.
Let created := map (fun event => Event.proxy (Event.args event)) proxyEvents.

Hypothesis sameVersion : NetworkFile.version nf = Project.version handle.
Hypothesis samePackage :
  NetworkFile.packageAddress nf = Some (Package.address (Project.package handle)).
Hypothesis sameProvider :
  NetworkFile.providerAddress nf = Some (Directory.address directory).
Hypothesis sameStdlib :
  orElse (NetworkFile.stdlibAddress nf) "none" =
  if String.eqb currentStdlib ZERO_ADDRESS then "none" else currentStdlib.
Hypothesis sameContracts :
  Forall (fun info =>
            NetworkFile.hasContract nf (Info.alias info) = true /\
            exists code,
              Ledger.getCode ledger (Info.address info) = inr code /\
              NetworkFile.contract nf (Info.alias info) =
                inr {| ContractEntry.address := Info.address info;
                       ContractEntry.bodyBytecodeHash := Ledger.bytecodeDigest ledger code |})
    implementationsInfo.
Hypothesis contractsRegistered :
  Forall (fun alias => In alias (map Info.alias implementationsInfo))
    (NetworkFile.contractAliases nf).
Hypothesis sameProxies :
  Forall (fun address =>
            exists first,
              Project.getProxyImplementation handle address = inr (Info.address first) /\
              filter (fun info => String.eqb (Info.address info) (Info.address first))
                implementationsInfo = [first] /\
              find (fun proxy => String.eqb (Proxy.address proxy) address) locals =
                Some {| Proxy.alias := Info.alias first; Proxy.address := address;
                        Proxy.implementation := Info.address first |})
    created.
Hypothesis proxiesCreated :
  Forall (fun proxy => In (Proxy.address proxy) created) locals.

Let order := settleOrder (length proxyEvents) (Ledger.settling ledger) (tasksOf handle proxyEvents).
Let pushed := flat_map (pushesOf implementationsInfo) order.

Lemma checkVersion_in_sync : checkVersion ledger this = ret tt this.
Proof.
  rewrite (@checkVersion_cached ledger this handle cached). fold nf.
  now rewrite sameVersion, String.eqb_refl.
Qed.

Lemma checkPackage_in_sync : checkPackage this = ret tt this.
Proof.
  rewrite (@checkPackage_cached this handle cached). fold nf.
  rewrite samePackage. cbn [ofOption strictEquals]. now rewrite String.eqb_refl.
Qed.

Lemma checkProvider_in_sync :
  checkProvider this =
  {| effects := [Read GetCurrentDirectory]; after := this; completion := inr tt |}.
Proof.
  rewrite (@checkProvider_cached this handle cached directory directoryRead). fold nf.
  rewrite sameProvider. cbn [ofOption strictEquals]. now rewrite String.eqb_refl.
Qed.

Lemma checkStdlib_in_sync :
  checkStdlib ledger this =
  {| effects := [Read CurrentStdlib]; after := this; completion := inr tt |}.
Proof.
  rewrite (@checkStdlib_cached ledger this handle cached currentStdlib stdlibRead). fold nf.
  now rewrite sameStdlib, String.eqb_refl.
Qed.

Lemma checkRemoteImplementation_in_sync (info : Info.t) :
  In info implementationsInfo ->
  _checkRemoteImplementation ledger info this =
  {| effects := [Read (GetCode (Info.address info))]; after := this; completion := inr tt |}.
Proof.
  intros Hin.
  destruct (proj1 (Forall_forall _ _) sameContracts info Hin)
    as [Hknown [code [Hcode Hentry]]].
  unfold nf in Hknown, Hentry.
  unfold _checkRemoteImplementation. cbv zeta. run_with (getThis_run this).
  rewrite Hknown.
  assert (Haddress : _checkImplementationAddress (Info.alias info) (Info.address info) this =
                     {| effects := []; after := this; completion := inr tt |}).
  { rewrite checkImplementationAddress_run, Hentry. cbn [ContractEntry.address].
    now rewrite String.eqb_refl. }
  run_with Haddress.
  rewrite checkImplementationBytecode_run, Hentry, Hcode.
  cbv zeta. cbn [ContractEntry.bodyBytecodeHash]. now rewrite String.eqb_refl.
Qed.

Lemma checkImplementations_in_sync :
  checkImplementations ledger this =
  {| effects :=
       [Read GetCurrentDirectory;
        Read (ScanEvents (Directory.contract directory) "ImplementationChanged")]
       ++ flat_map (fun info => [Read (GetCode (Info.address info))]) implementationsInfo;
     after := this; completion := inr tt |}.
Proof.
  unfold checkImplementations.
  run_with (fetchOnChainImplementations_run ledger this cached directoryRead
              implementationsScanned).
  fold implementationsInfo.
  run_with (@forEach_quiet _ (_checkRemoteImplementation ledger)
              (fun info => [Read (GetCode (Info.address info))]) implementationsInfo this
              checkRemoteImplementation_in_sync).
  unfold _checkUnregisteredLocalImplementations. run_with (getThis_run this). fold nf.
  rewrite filter_none.
  - cbn. now rewrite app_nil_r.
  - eapply Forall_impl; [|exact contractsRegistered]. intros alias Halias.
    apply includes_In in Halias. cbn beta. now rewrite Halias.
Qed.

Lemma answered_in_sync :
  Forall (fun task => exists implementation, snd task = inr implementation)
    (tasksOf handle proxyEvents).
Proof.
  unfold tasksOf. apply Forall_map. unfold created in sameProxies.
  rewrite Forall_map in sameProxies.
  eapply Forall_impl; [|exact sameProxies]. intros event [first [Hanswer _]]. cbn.
  eauto.
Qed.

Lemma task_in_sync (task : string * result string) :
  In task order ->
  exists first,
    snd task = inr (Info.address first) /\
    filter (fun info => String.eqb (Info.address info) (Info.address first))
      implementationsInfo = [first] /\
    find (fun proxy => String.eqb (Proxy.address proxy) (fst task)) locals =
      Some {| Proxy.alias := Info.alias first; Proxy.address := fst task;
              Proxy.implementation := Info.address first |}.
Proof.
  intros Hin. apply (Permutation_in _ (order_Permutation ledger handle proxyEvents)) in Hin.
  unfold tasksOf in Hin. apply in_map_iff in Hin as [event [<- Hevent]].
  cbn [fst snd].
  apply (proj1 (Forall_forall _ _) sameProxies). unfold created.
  apply in_map_iff. now exists event.
Qed.

Lemma fetchOnChainProxies_in_sync :
  _fetchOnChainProxies ledger this =
  {| effects :=
       [Read GetCurrentDirectory;
        Read (ScanEvents (Directory.contract directory) "ImplementationChanged");
        Read (ScanEvents (Project.factory handle) "ProxyCreated")]
       ++ map (fun event => Read (GetProxyImplementation (Event.proxy (Event.args event))))
            proxyEvents;
     after := this; completion := inr pushed |}.
Proof.
  destruct (fetchOnChainProxies_run ledger this cached directoryRead implementationsScanned
              proxiesScanned answered_in_sync) as [Heffects Hpushed].
  fold implementationsInfo order pushed in Heffects, Hpushed.
  assert (Hquiet : flat_map (visitsOf implementationsInfo) order = []).
  { apply flat_map_none. intros task Htask.
    destruct (task_in_sync task Htask) as [first [Hanswer [Hmatch _]]].
    unfold visitsOf, taskVisits. now rewrite Hanswer, Hmatch. }
  rewrite Hquiet, app_nil_r in Heffects.
  apply outcome_eq; [exact Heffects| |exact Hpushed].
  destruct (fetchOnChainProxies_writes ledger this) as [Hvisitor [Hparams Hfile]].
  pose proof (proj1 (@fetchOnChainProxies_keeps_project ledger handle this cached)) as Hkept.
  unfold hasProject in Hkept.
  rewrite Heffects, replay_quiet in Hfile.
  - destruct (after (_fetchOnChainProxies ledger this)), this. cbn in *. congruence.
  - apply Forall_app. split; [repeat constructor|].
    apply Forall_map, Forall_forall. reflexivity.
Qed.

Lemma checkRemoteProxy_in_sync (info : Proxy.t) :
  In info pushed ->
  _checkRemoteProxy info this = {| effects := []; after := this; completion := inr tt |}.
Proof.
  intros Hin. apply in_flat_map in Hin as [task [Htask Hinfo]].
  destruct (task_in_sync task Htask) as [first [Hanswer [Hmatch Hlocal]]].
  unfold pushesOf, taskPushes in Hinfo. rewrite Hanswer, Hmatch in Hinfo.
  destruct Hinfo as [<-|[]].
  unfold _checkRemoteProxy, _checkProxyAlias, _checkProxyImplementation, bind, getThis, ret.
  cbn. fold nf locals. rewrite Hlocal. cbn. now rewrite !String.eqb_refl.
Qed.

Lemma checkProxies_in_sync :
  checkProxies ledger this =
  {| effects :=
       [Read GetCurrentDirectory;
        Read (ScanEvents (Directory.contract directory) "ImplementationChanged");
        Read (ScanEvents (Project.factory handle) "ProxyCreated")]
       ++ map (fun event => Read (GetProxyImplementation (Event.proxy (Event.args event))))
            proxyEvents;
     after := this; completion := inr tt |}.
Proof.
  unfold checkProxies. run_with fetchOnChainProxies_in_sync.
  run_with (@forEach_quiet _ _checkRemoteProxy (fun _ => []) pushed this
              checkRemoteProxy_in_sync).
  unfold _checkUnregisteredLocalProxies. run_with (getThis_run this). fold nf locals.
  assert (Hnone : flat_map (fun _ : Proxy.t => @nil Effect) pushed = []).
  { now apply flat_map_none. }
  rewrite Hnone, filter_none.
  - cbn. now rewrite !app_nil_r.
  - eapply Forall_impl; [|exact proxiesCreated]. intros proxy Hcreated. cbn beta.
    destruct (proj1 (Forall_forall _ _) sameProxies _ Hcreated)
      as [first [Hanswer [Hmatch _]]].
    assert (Hin : In (Proxy.address proxy) (map Proxy.address pushed)).
    { apply (pushed_address ledger handle allEvents proxyEvents).
      exists (Info.address first), first. auto. }
    apply includes_In in Hin. now rewrite Hin.
Qed.

Lemma checkApp_in_sync :
  completion (checkApp ledger this) = inr tt /\
  after (checkApp ledger this) = this /\
  filter isVisit (effects (checkApp ledger this)) = [].
Proof.
  unfold checkApp.
  run_with checkVersion_in_sync. run_with checkPackage_in_sync.
  run_with checkProvider_in_sync. run_with checkStdlib_in_sync.
  run_with checkImplementations_in_sync.
  rewrite checkProxies_in_sync. cbn [effects after completion ret app].
  split; [reflexivity|]. split; [reflexivity|].
  apply filter_none. repeat constructor.
  repeat (apply Forall_app; split); repeat constructor.
  - apply Forall_flat_map, Forall_forall. intros info _. repeat constructor.
  - apply Forall_map, Forall_forall. reflexivity.
Qed.

End InSync.

(** X11. A run of [call()] on an app that is in sync with the ledger
    reports nothing. Suppose the handle resolves and every ledger read is
    answered; the version, the package address and the provider address
    recorded in the network file are those of the deployment, and the
    stdlib addresses agree with 'none' for the zero address and for no
    address; every reconciled entry is a contract of the network file
    recorded with that address and with the digest of the code at that
    address, and every alias of the network file is in the reconciled set;
    every created proxy runs the code of exactly one reconciled entry and
    the first proxy listed at its address has the alias of that entry and
    that implementation, and every listed proxy was created. Then the run
    completes and its only visitor call is the final [onEndChecking()], in
    whatever order the concurrent reads settle and whatever the visitor
    is; the network file of the instance is afterwards what
    [onEndChecking] makes of the initial one. *)
Theorem in_sync_app_reports_nothing
    (ledger : Ledger.t) (this : StatusChecker) (handle : Project.t)
    (projectPackage : Package.t) (directory : Directory.t) (currentStdlib : string)
    (allEvents proxyEvents : list Event.t) :
  let nf := networkFile this in
  let implementationsInfo := currentImplementations allEvents in
  let created := map (fun event => Event.proxy (Event.args event)) proxyEvents in
  NetworkFile.isLib nf = false ->
  completion (project ledger this) = inr handle ->
  Project.getProjectPackage handle = inr projectPackage ->
  Project.getCurrentDirectory handle = inr directory ->
  Project.currentStdlib handle = inr currentStdlib ->
  Ledger.EventsFilter_call ledger (Directory.contract directory) "ImplementationChanged"
    = inr allEvents ->
  Ledger.EventsFilter_call ledger (Project.factory handle) "ProxyCreated" = inr proxyEvents ->
  NetworkFile.version nf = Project.version handle ->
  NetworkFile.packageAddress nf = Some (Package.address (Project.package handle)) ->
  NetworkFile.providerAddress nf = Some (Directory.address directory) ->
  orElse (NetworkFile.stdlibAddress nf) "none" =
    (if String.eqb currentStdlib ZERO_ADDRESS then "none" else currentStdlib) ->
  Forall (fun info =>
            NetworkFile.hasContract nf (Info.alias info) = true /\
            exists code,
              Ledger.getCode ledger (Info.address info) = inr code /\
              NetworkFile.contract nf (Info.alias info) =
                inr {| ContractEntry.address := Info.address info;
                       ContractEntry.bodyBytecodeHash := Ledger.bytecodeDigest ledger code |})
    implementationsInfo ->
  Forall (fun alias => In alias (map Info.alias implementationsInfo))
    (NetworkFile.contractAliases nf) ->
  Forall (fun address =>
            exists first,
              Project.getProxyImplementation handle address = inr (Info.address first) /\
              filter (fun info => String.eqb (Info.address info) (Info.address first))
                implementationsInfo = [first] /\
              find (fun proxy => String.eqb (Proxy.address proxy) address)
                (NetworkFile.proxiesList nf) =
                Some {| Proxy.alias := Info.alias first; Proxy.address := address;
                        Proxy.implementation := Info.address first |})
    created ->
  Forall (fun proxy => In (Proxy.address proxy) created) (NetworkFile.proxiesList nf) ->
  completion (call ledger this) = inr tt /\
  filter isVisit (effects (call ledger this)) = [Visit "onEndChecking" []] /\
  networkFile (after (call ledger this)) = visitor this "onEndChecking" [] nf.
Proof.
  intros nf implementationsInfo created Happ Hproject Hpackage Hdir Hstdlib Hscan Hproxies
    Hversion Hsame Hprovider Hstd Hcontracts Haliases Hsync Hlisted.
  destruct (project_completed ledger this Hproject) as [reads [Hrun Hreads]].
  destruct (@checkApp_in_sync ledger (withProject this handle) handle directory currentStdlib
              allEvents proxyEvents eq_refl Hdir Hstdlib Hscan Hproxies Hversion Hsame
              Hprovider Hstd Hcontracts Haliases Hsync Hlisted) as [Hdone [Hafter Hquiet]].
  unfold call. run_with Hrun.
  run_with (@await_answered (withProject this handle) _ GetProjectPackage _ _ Hpackage).
  assert (Hlog : forall line that,
             log_info line that =
             {| effects := [Log line]; after := that; completion := inr tt |})
    by reflexivity.
  run_with (Hlog ("Comparing status of project " ++ Package.address projectPackage
                    ++ " ..." ++ newline)%string (withProject this handle)).
  run_with (getThis_run (withProject this handle)).
  cbn [networkFile withProject]. fold nf. rewrite Happ.
  rewrite (bind_completed _ _ _ Hdone), Hafter. cbn [effects after completion visit].
  split; [reflexivity|]. split; [|reflexivity].
  rewrite !filter_app, Hreads, Hquiet. reflexivity.
Qed.

(** On a fresh instance for the Token deployment and the network file
    that records it. *)
Lemma in_sync_app_reports_nothing_witness :
  let ledger := Example.tokenLedger [1] in
  let this := compare Example.tokenFile [] in
  completion (call ledger this) = inr tt /\
  filter isVisit (effects (call ledger this)) = [Visit "onEndChecking" []] /\
  networkFile (after (call ledger this)) =
    visitor this "onEndChecking" [] (networkFile this).
Proof.
  apply (@in_sync_app_reports_nothing (Example.tokenLedger [1])
           (compare Example.tokenFile []) Example.handle
           {| Package.address := "0xpk" |} Example.directory ZERO_ADDRESS
           Example.tokenEvents Example.tokenProxies);
    try reflexivity.
  - vm_compute. repeat (apply Forall_cons || apply Forall_nil).
    split; [reflexivity|]. exists "code at 0xa2". split; reflexivity.
  - vm_compute. repeat (apply Forall_cons || apply Forall_nil). tauto.
  - vm_compute. repeat (apply Forall_cons || apply Forall_nil);
      exists {| Info.alias := "Token"; Info.address := "0xa2" |}; repeat split.
  - vm_compute. repeat (apply Forall_cons || apply Forall_nil); tauto.
Defined.

(** ** The run of a library, check by check *)

Lemma forEach_checksEach {A : Type} (check : NetworkFile.t -> A -> list Effect -> Prop)
    (f : A -> M unit) (v : Visitor) (xs : list A) (this : StatusChecker) :
  (forall x, writesThroughVisitor (f x)) ->
  (forall x that,
      visitor that = v -> completion (f x that) = inr tt ->
      check (networkFile that) x (effects (f x that))) ->
  visitor this = v ->
  completion (forEach f xs this) = inr tt ->
  checksEach check v (networkFile this) xs (effects (forEach f xs this)).
Proof.
  intros Hwrites Hcheck. revert this.
  induction xs as [|x rest IH]; intros this Hvisitor Hdone; [constructor|].
  cbn [forEach] in *. unfold bind in *.
  destruct (completion (f x this)) as [e|[]] eqn:Hx; [discriminate|].
  cbn [effects completion] in *.
  destruct (Hwrites x this) as [Hsame [_ Hfile]].
  constructor.
  - apply Hcheck; assumption.
  - rewrite <- Hvisitor at 2. rewrite <- Hfile.
    apply IH; [congruence | assumption].
Qed.

Lemma checkRemoteImplementation_writes (ledger : Ledger.t) (info : Info.t) :
  writesThroughVisitor (_checkRemoteImplementation ledger info).
Proof.
  unfold _checkRemoteImplementation, _checkImplementationAddress,
    _checkImplementationBytecode.
  writes.
Qed.

Lemma checkRemoteImplementation_checks (ledger : Ledger.t) (info : Info.t)
    (that : StatusChecker) :
  completion (_checkRemoteImplementation ledger info that) = inr tt ->
  checksRemoteImplementation ledger (visitor that) (networkFile that) info
    (effects (_checkRemoteImplementation ledger info that)).
Proof.
  unfold checksRemoteImplementation, _checkRemoteImplementation. cbv zeta.
  run_with (getThis_run that).
  destruct (NetworkFile.hasContract (networkFile that) (Info.alias info));
    [|intros _; reflexivity].
  unfold bind at 1 2. rewrite checkImplementationAddress_run.
  destruct (NetworkFile.contract (networkFile that) (Info.alias info)) as [e|entry];
    [discriminate|].
  set (addressCalls :=
         if String.eqb (Info.address info) (ContractEntry.address entry) then []
         else [Visit "onMismatchingContractAddress"
                 [JsString (ContractEntry.address entry); JsString (Info.address info);
                  JsObject [("alias", Info.alias info); ("address", Info.address info)]]]).
  set (address := if String.eqb (Info.address info) (ContractEntry.address entry)
                  then ret tt that else _).
  assert (Haddress : effects address = addressCalls /\ completion address = inr tt /\
                     networkFile (after address) =
                       replay (visitor that) addressCalls (networkFile that)).
  { subst address addressCalls.
    destruct (String.eqb (Info.address info) (ContractEntry.address entry)); cbn; auto. }
  destruct Haddress as [Heffects [Hdone Hfile]]. rewrite Hdone, Heffects.
  cbn [effects completion]. rewrite checkImplementationBytecode_run, Hfile.
  destruct (NetworkFile.contract (replay (visitor that) addressCalls (networkFile that))
              (Info.alias info)) as [e|later] eqn:Hlater; [discriminate|].
  destruct (Ledger.getCode ledger (Info.address info)) as [e|code] eqn:Hcode;
    [discriminate|].
  intros _. exists entry, later, code.
  split; [reflexivity|]. split; [exact Hlater|]. split; [reflexivity|].
  cbv zeta. unfold afterReads. cbn [effects app]. fold addressCalls.
  apply f_equal. cbn [app]. apply f_equal.
  destruct (String.eqb (Ledger.bytecodeDigest ledger code)
              (ContractEntry.bodyBytecodeHash later)); reflexivity.
Qed.

Lemma reportLocalContract_checks (alias : string) (that : StatusChecker) :
  let report : M unit :=
    this <- getThis ;;
    entry <- settled (NetworkFile.contract (networkFile this) alias) ;;
    visit "onUnregisteredLocalContract"
      [JsString "one"; JsString "none";
       JsObject [("alias", alias); ("address", ContractEntry.address entry)]] in
  completion (report that) = inr tt ->
  reportsLocalContract (networkFile that) alias (effects (report that)).
Proof.
  cbv zeta. run_with (getThis_run that). unfold reportsLocalContract.
  destruct (NetworkFile.contract (networkFile that) alias) as [e|entry]; [discriminate|].
  intros _. exists entry. split; reflexivity.
Qed.

Section LibraryChecks.

Variable ledger : Ledger.t.
Variable that : StatusChecker.
Variable handle : Project.t.
Variable directory : Directory.t.
Variable allEvents : list Event.t.

Hypothesis cached : _project that = Some handle.
Hypothesis directoryRead : Project.getCurrentDirectory handle = inr directory.
Hypothesis implementationsScanned :
  Ledger.EventsFilter_call ledger (Directory.contract directory) "ImplementationChanged"
    = inr allEvents.

Let v := visitor that.
Let nf := networkFile that.
Let implementationsInfo := currentImplementations allEvents.

Let providerCalls : list Effect :=
  if strictEquals (JsString (Directory.address directory))
       (ofOption (NetworkFile.providerAddress nf))
  then []
  else [Visit "onMismatchingProvider"
          [ofOption (NetworkFile.providerAddress nf); JsString (Directory.address directory)]].

Lemma checkProvider_general :
  effects (checkProvider that) = [Read GetCurrentDirectory] ++ providerCalls /\
  completion (checkProvider that) = inr tt /\
  visitor (after (checkProvider that)) = v /\
  networkFile (after (checkProvider that)) = replay v providerCalls nf /\
  _project (after (checkProvider that)) = Some handle.
Proof.
  rewrite (@checkProvider_cached that handle cached directory directoryRead).
  unfold providerCalls, afterReads. fold nf.
  destruct (strictEquals (JsString (Directory.address directory))
              (ofOption (NetworkFile.providerAddress nf))); cbn; auto.
Qed.

Lemma checkLib_checks :
  exists checks,
    effects ((checkLib ledger ;; visit "onEndChecking" []) that) =
      [Read GetCurrentDirectory] ++ providerCalls
      ++ [Read GetCurrentDirectory;
          Read (ScanEvents (Directory.contract directory) "ImplementationChanged")]
      ++ checks /\
    (completion ((checkLib ledger ;; visit "onEndChecking" []) that) = inr tt ->
     exists remote local,
       checks = remote ++ local ++ [Visit "onEndChecking" []] /\
       checksEach (checksRemoteImplementation ledger v) v (replay v providerCalls nf)
         implementationsInfo remote /\
       checksEach reportsLocalContract v (replay v remote (replay v providerCalls nf))
         (filter (fun alias => negb (includes (map Info.alias implementationsInfo) alias))
            (NetworkFile.contractAliases (replay v remote (replay v providerCalls nf))))
         local).
Proof.
  destruct checkProvider_general as [Hprovider [Hchecked [Hvisitor [Hfile Hcache]]]].
  unfold checkLib. rewrite bind_assoc.
  rewrite (bind_completed _ _ _ Hchecked), Hprovider.
  set (checked := after (checkProvider that)) in *.
  unfold checkImplementations. rewrite bind_assoc.
  run_with (fetchOnChainImplementations_run ledger checked Hcache directoryRead
              implementationsScanned).
  fold implementationsInfo.
  set (rest := bind (bind (forEach (_checkRemoteImplementation ledger) implementationsInfo) _)
                 _ checked).
  exists (effects rest). split; [now rewrite <- !app_assoc|].
  subst rest. rewrite bind_assoc.
  destruct (completion (forEach (_checkRemoteImplementation ledger) implementationsInfo
                          checked)) as [e|[]] eqn:Hremote;
    [rewrite (bind_aborted _ _ _ Hremote); discriminate|].
  rewrite (bind_completed _ _ _ Hremote). cbn [effects after completion].
  pose proof (@forEach_checksEach _ (checksRemoteImplementation ledger v)
                (_checkRemoteImplementation ledger) v implementationsInfo checked
                (checkRemoteImplementation_writes ledger)) as Hremotes.
  destruct (@writes_forEach _ (_checkRemoteImplementation ledger) implementationsInfo
              (checkRemoteImplementation_writes ledger) checked)
    as [Hvisitor' [_ Hfile']].
  set (remote := effects (forEach (_checkRemoteImplementation ledger) implementationsInfo
                            checked)) in *.
  set (reported := after (forEach (_checkRemoteImplementation ledger) implementationsInfo
                            checked)) in *.
  unfold _checkUnregisteredLocalImplementations. rewrite bind_assoc.
  run_with (getThis_run reported). cbn [app].
  set (aliases := filter _ (NetworkFile.contractAliases (networkFile reported))).
  set (report := fun alias : string => bind getThis _).
  destruct (completion (forEach report aliases reported)) as [e|[]] eqn:Hlocal;
    [rewrite (bind_aborted _ _ _ Hlocal); discriminate|].
  rewrite (bind_completed _ _ _ Hlocal). cbn [effects after completion visit]. intros _.
  exists remote, (effects (forEach report aliases reported)).
  split; [reflexivity|]. split.
  - rewrite <- Hfile. apply Hremotes; try assumption.
    intros info s Hs. subst v. rewrite <- Hs. apply checkRemoteImplementation_checks.
  - assert (Hreported : networkFile reported = replay v remote (replay v providerCalls nf)).
    { rewrite Hfile', Hvisitor, Hfile. reflexivity. }
    rewrite <- Hreported. subst aliases.
    apply (@forEach_checksEach _ reportsLocalContract report v); try assumption.
    + intros alias. subst report. writes.
    + intros alias s _. subst report. apply reportLocalContract_checks.
    + congruence.
Qed.

End LibraryChecks.

Lemma project_library_run (ledger : Ledger.t) (this : StatusChecker) (handle : Project.t) :
  NetworkFile.isLib (networkFile this) = true ->
  completion (project ledger this) = inr handle ->
  exists that,
    project ledger this =
      {| effects :=
           match _project this with
           | Some _ => []
           | None =>
               [Read (LibProjectFetch (NetworkFile.packageAddress (networkFile this))
                        (NetworkFile.version (networkFile this)))]
           end;
         after := that;
         completion := inr handle |} /\
    visitor that = visitor this /\
    networkFile that = networkFile this /\
    _project that = Some handle.
Proof.
  intros Hlib Hproject. destruct (_project this) as [cached|] eqn:Hcache.
  - rewrite (project_cached ledger this Hcache) in *. cbn in Hproject.
    injection Hproject as ->. exists this. auto.
  - destruct (fetchAnswer ledger this) as [e|fetched] eqn:Hfetch.
    + rewrite (project_failed ledger this Hcache Hfetch) in Hproject. discriminate.
    + rewrite (project_fetched ledger this Hcache Hfetch) in *. cbn in Hproject.
      injection Hproject as ->. exists (withProject this handle).
      unfold fetchRead. rewrite Hlib. auto.
Qed.

(** C7. The run of a library. On a network file of a library, every
    read and every visitor call of [call()] belongs to the resolution of
    the library handle, the provider check or the implementation check
    (none to a version, package, stdlib or proxy check), however the run
    ends, and a run that completes ends with [onEndChecking]. When the
    handle resolves and the package, the directory and the events are
    read, the run is, in this order: the resolution of the handle, the read
    of the package and the log line, the provider check (the read of the
    directory, and [onMismatchingProvider(expected, observed)] if the
    address of the directory is not the recorded one), the two reads of
    the implementation check (the directory once more, the scan of its
    "implementation changed" events), and then the checks. When the run
    completes, these are the check of every entry of the reconciled set,
    in its order, the report of every alias that only the network file
    has, and [onEndChecking()], each made on the network file as the
    visitor calls before it have left it. *)
Theorem call_on_a_library (ledger : Ledger.t) (this : StatusChecker) :
  NetworkFile.isLib (networkFile this) = true ->
  let run := call ledger this in
  let v := visitor this in
  let nf := networkFile this in
  match completion run with
  | inr _ =>
      exists checks,
        effects run = checks ++ [Visit "onEndChecking" []] /\
        Forall libraryCheckEffect checks
  | inl _ => Forall libraryCheckEffect (effects run)
  end /\
  forall (handle : Project.t) (projectPackage : Package.t) (directory : Directory.t)
         (allEvents : list Event.t),
    completion (project ledger this) = inr handle ->
    Project.getProjectPackage handle = inr projectPackage ->
    Project.getCurrentDirectory handle = inr directory ->
    Ledger.EventsFilter_call ledger (Directory.contract directory) "ImplementationChanged"
      = inr allEvents ->
    let implementationsInfo := currentImplementations allEvents in
    let resolution :=
      match _project this with
      | Some _ => []
      | None =>
          [Read (LibProjectFetch (NetworkFile.packageAddress nf) (NetworkFile.version nf))]
      end in
    let providerCalls :=
      if strictEquals (JsString (Directory.address directory))
           (ofOption (NetworkFile.providerAddress nf))
      then []
      else [Visit "onMismatchingProvider"
              [ofOption (NetworkFile.providerAddress nf);
               JsString (Directory.address directory)]] in
    let checked := replay v providerCalls nf in
    exists checks,
      effects run =
        resolution
        ++ [Read GetProjectPackage;
            Log ("Comparing status of project " ++ Package.address projectPackage
                   ++ " ..." ++ newline)%string;
            Read GetCurrentDirectory]
        ++ providerCalls
        ++ [Read GetCurrentDirectory;
            Read (ScanEvents (Directory.contract directory) "ImplementationChanged")]
        ++ checks /\
      (completion run = inr tt ->
       exists remote local,
         checks = remote ++ local ++ [Visit "onEndChecking" []] /\
         checksEach (checksRemoteImplementation ledger v) v checked
           implementationsInfo remote /\
         checksEach reportsLocalContract v (replay v remote checked)
           (filter (fun alias => negb (includes (map Info.alias implementationsInfo) alias))
              (NetworkFile.contractAliases (replay v remote checked)))
           local).
Proof.
  intros Hlib run v nf. subst run. split.
  - assert (Hcall :
      call ledger this =
      (handle <- project ledger ;;
       projectPackage <- await GetProjectPackage (Project.getProjectPackage handle) ;;
       log_info ("Comparing status of project " ++ Package.address projectPackage
                   ++ " ..." ++ newline)%string ;;
       checkProvider ;;
       checkImplementations ledger ;;
       visit "onEndChecking" []) this).
    { unfold call. apply bind_same. intros handle _.
      apply bind_same. intros projectPackage Hpackage.
      apply bind_same. intros [] _.
      match goal with |- bind getThis _ ?s = _ => set (that := s) end.
      assert (Hthat : networkFile that = networkFile this).
      { subst that. unfold log_info, emit. cbn [after].
        unfold await, launch, emit, bind. cbn.
        destruct (Project.getProjectPackage handle); cbn; apply project_networkFile. }
      assert (Hthis : getThis that = {| effects := []; after := that; completion := inr that |})
        by reflexivity.
      run_with Hthis. rewrite Hthat, Hlib. unfold checkLib.
      change (bind (bind checkProvider (fun _ => checkImplementations ledger))
                (fun _ => visit "onEndChecking" []) that)
        with ((fun s => bind (bind checkProvider (fun _ => checkImplementations ledger))
                          (fun _ => visit "onEndChecking" []) s) that).
      cbv beta. rewrite bind_assoc.
      destruct (bind checkProvider _ that); reflexivity. }
    change (endsChecking libraryCheckEffect (call ledger) this). unfold endsChecking.
    rewrite Hcall.
    change (endsChecking libraryCheckEffect
              (handle <- project ledger ;;
               projectPackage <- await GetProjectPackage (Project.getProjectPackage handle) ;;
               log_info ("Comparing status of project " ++ Package.address projectPackage
                           ++ " ..." ++ newline)%string ;;
               checkProvider ;;
               checkImplementations ledger ;;
               visit "onEndChecking" []) this).
    apply endsChecking_bind; [now apply project_library_effects|].
    intros handle _.
    apply endsChecking_behaves; [behaviour; exact Logic.I|]. intros projectPackage that.
    apply endsChecking_behaves; [behaviour; exact Logic.I|]. intros _ that'.
    apply endsChecking_behaves; [apply checkProvider_library|]. intros _ that''.
    apply endsChecking_behaves; [apply checkImplementations_library|]. intros _ that'''.
    apply endsChecking_onEndChecking.
  - intros handle projectPackage directory allEvents Hproject Hpackage Hdir Hscan
      implementationsInfo resolution providerCalls checked.
    destruct (project_library_run ledger this Hlib Hproject)
      as [that [Hrun [Hvisitor [Hfile Hcache]]]].
    fold nf resolution in Hrun.
    destruct (@checkLib_checks ledger that handle directory allEvents Hcache Hdir Hscan)
      as [checks [Heffects Hchecks]].
    rewrite ?Hvisitor, ?Hfile in Heffects. rewrite ?Hvisitor, ?Hfile in Hchecks.
    fold v nf providerCalls checked implementationsInfo in Heffects, Hchecks.
    assert (Hlog : forall line s,
               log_info line s = {| effects := [Log line]; after := s; completion := inr tt |})
      by reflexivity.
    unfold call. run_with Hrun.
    run_with (@await_answered that _ GetProjectPackage _ _ Hpackage).
    run_with (Hlog ("Comparing status of project " ++ Package.address projectPackage
                      ++ " ..." ++ newline)%string that).
    run_with (getThis_run that). rewrite Hfile, Hlib.
    exists checks. split; [|exact Hchecks].
    rewrite Heffects. reflexivity.
Qed.

(** On the example library, in compare mode: Vault and Bank are not in
    the network file, Token has moved and its code has changed. *)
Lemma call_on_a_library_witness :
  let this := compare Example.libFile [] in
  let ledger := Example.ledger [] in
  let v := visitor this in
  let nf := networkFile this in
  let implementationsInfo := currentImplementations Example.implementationEvents in
  exists checks,
    effects (call ledger this) =
      [Read (LibProjectFetch (Some "0xpk") "1.0.0");
       Read GetProjectPackage;
       Log ("Comparing status of project 0xpk ..." ++ newline)%string;
       Read GetCurrentDirectory;
       Read GetCurrentDirectory;
       Read (ScanEvents "0xd1" "ImplementationChanged")]
      ++ checks /\
    exists remote local,
      checks = remote ++ local ++ [Visit "onEndChecking" []] /\
      checksEach (checksRemoteImplementation ledger v) v nf implementationsInfo remote /\
      checksEach reportsLocalContract v (replay v remote nf)
        (filter (fun alias => negb (includes (map Info.alias implementationsInfo) alias))
           (NetworkFile.contractAliases (replay v remote nf)))
        local.
Proof.
  intros this ledger v nf implementationsInfo.
  destruct (call_on_a_library ledger this eq_refl) as [_ Hrun].
  destruct (Hrun Example.handle {| Package.address := "0xpk" |} Example.directory
              Example.implementationEvents eq_refl eq_refl eq_refl eq_refl)
    as [checks [Heffects Hchecks]].
  exists checks. split; [exact Heffects|]. apply Hchecks. reflexivity.
Defined.
